(** * Command pipeline of OpenTTD (JGR patch pack): value types and dispatch

    A shallow embedding of [command_type.h], of the inline part of
    [command_func.h] and of [ScriptCompany::SetName] from
    [script_company.cpp], with the properties the specification states
    about them.  Further sections embed the other setters of
    [script_company.cpp] that carry a text or a setting, and the parts of
    [gfx.cpp] that stand on their own: clipping, polygon segments,
    character widths, the contrast colour, the cursor and its animation,
    and the dirty blocks.

    Conventions.
    - A fixed-width unsigned integer is a [Z]; the truncation a conversion
      performs is written out ([to_uint8], [to_uint32]).
    - A function whose body starts with [assert] returns an [option]:
      [None] is the failed assertion.
    - Types and constants that come from headers outside the embedded
      sources ([Money], [ExpensesType], [INVALID_STRING_ID], ...) are the
      fields of the class [ExternTypes]; every theorem holds for every
      instance. *)

From Stdlib Require Import ZArith Lia.
From stdpp Require Import base option list strings gmap.

Local Open Scope Z_scope.

(** ** Declarations taken from other headers *)

(** [economy_type.h] declares [Money] (a signed amount with [+=] and [*=])
    and [ExpensesType]; [strings_type.h] declares [StringID] and its
    sentinel; [tile_type.h] declares [TileIndex] and its sentinel.  Only
    the operations that [command_type.h] uses are listed. *)
Class ExternTypes := {
  Money : Type;
  Money_zero : Money;                       (* Money(0) *)
  Money_add : Money -> Money -> Money;      (* operator+= *)
  Money_mul : Money -> Z -> Money;          (* operator*= (int) *)
  ExpensesType : Type;
  INVALID_EXPENSES : ExpensesType;
  INVALID_STRING_ID : Z;
  INVALID_TILE : Z
}.

Definition StringID := Z.
Definition TileIndex := Z.
Definition uint32 := Z.
Definition uint64 := Z.

(** Conversion of an integer to an 8-bit, respectively 32-bit, unsigned
    type. *)
Definition to_uint8 (x : Z) : Z := x mod 2 ^ 8.
Definition to_uint32 (x : Z) : Z := x mod 2 ^ 32.

(** ** enum CommandCostIntlFlags : uint8 *)

Definition CommandCostIntlFlags := Z.
Definition CCIF_NONE : CommandCostIntlFlags := 0.
Definition CCIF_SUCCESS : CommandCostIntlFlags := Z.shiftl 1 0.
Definition CCIF_INLINE_EXTRA_MSG : CommandCostIntlFlags := Z.shiftl 1 1.
Definition CCIF_INLINE_TILE : CommandCostIntlFlags := Z.shiftl 1 2.
Definition CCIF_INLINE_RESULT : CommandCostIntlFlags := Z.shiftl 1 3.

(** DECLARE_ENUM_AS_BIT_SET(CommandCostIntlFlags): the bit operators act on
    the underlying [uint8]; [~] is computed on the promoted value and
    converted back. *)
Definition ccif_or (a b : CommandCostIntlFlags) : CommandCostIntlFlags := Z.lor a b.
Definition ccif_and (a b : CommandCostIntlFlags) : CommandCostIntlFlags := Z.land a b.
Definition ccif_not (a : CommandCostIntlFlags) : CommandCostIntlFlags := to_uint8 (Z.lnot a).

(** A flag set converted to [bool]: true when some bit is set. *)
Definition nonzero (x : Z) : bool := negb (x =? 0).

(** ** class CommandCost *)

Section CommandCost.
Context `{E : ExternTypes}.

(** [struct CommandCostAuxiliaryData]; the [GRFFile] pointer is an
    optional identifier. *)
Record CommandCostAuxiliaryData := {
  textref_stack : list uint32;
  textref_stack_grffile : option positive;
  textref_stack_size : Z;
  aux_extra_message : StringID;
  aux_tile : TileIndex;
  aux_result : uint32
}.

(** The members of [CommandCost].  [inl] is the storage of the anonymous
    union: [inl.result], [inl.extra_message] and [inl.tile] name the same
    cell.  [aux_data] is the owned auxiliary block ([None] is the null
    pointer); being held by value here, a copy of a [CommandCost]
    duplicates it. *)
Record CommandCost := {
  cost : Money;
  expense_type : ExpensesType;
  flags : CommandCostIntlFlags;
  message : StringID;
  inl : Z;
  aux_data : option CommandCostAuxiliaryData
}.

Definition set_cost (c : CommandCost) (m : Money) : CommandCost :=
  {| cost := m; expense_type := expense_type c; flags := flags c;
     message := message c; inl := inl c; aux_data := aux_data c |}.

Definition set_flags (c : CommandCost) (f : CommandCostIntlFlags) : CommandCost :=
  {| cost := cost c; expense_type := expense_type c; flags := f;
     message := message c; inl := inl c; aux_data := aux_data c |}.

Definition set_message (c : CommandCost) (m : StringID) : CommandCost :=
  {| cost := cost c; expense_type := expense_type c; flags := flags c;
     message := m; inl := inl c; aux_data := aux_data c |}.

Definition set_inl (c : CommandCost) (v : Z) : CommandCost :=
  {| cost := cost c; expense_type := expense_type c; flags := flags c;
     message := message c; inl := v; aux_data := aux_data c |}.

Definition set_aux_data (c : CommandCost) (a : option CommandCostAuxiliaryData) : CommandCost :=
  {| cost := cost c; expense_type := expense_type c; flags := flags c;
     message := message c; inl := inl c; aux_data := a |}.

Definition set_aux_extra_message (a : CommandCostAuxiliaryData) (m : StringID)
  : CommandCostAuxiliaryData :=
  {| textref_stack := textref_stack a;
     textref_stack_grffile := textref_stack_grffile a;
     textref_stack_size := textref_stack_size a;
     aux_extra_message := m; aux_tile := aux_tile a; aux_result := aux_result a |}.

(** [CommandCost()] *)
Definition CommandCost_default : CommandCost :=
  {| cost := Money_zero; expense_type := INVALID_EXPENSES; flags := CCIF_SUCCESS;
     message := INVALID_STRING_ID; inl := 0; aux_data := None |}.

(** [explicit CommandCost(StringID msg)] *)
Definition CommandCost_msg (msg : StringID) : CommandCost :=
  {| cost := Money_zero; expense_type := INVALID_EXPENSES; flags := CCIF_NONE;
     message := msg; inl := 0; aux_data := None |}.

(** [static CommandCost DualErrorMessage(StringID msg, StringID extra_msg)] *)
Definition DualErrorMessage (msg extra_msg : StringID) : CommandCost :=
  let cc := CommandCost_msg msg in
  let cc := set_flags cc (ccif_or (flags cc) CCIF_INLINE_EXTRA_MSG) in
  set_inl cc extra_msg.

(** [explicit CommandCost(ExpensesType ex_t)] *)
Definition CommandCost_expense (ex_t : ExpensesType) : CommandCost :=
  {| cost := Money_zero; expense_type := ex_t; flags := CCIF_SUCCESS;
     message := INVALID_STRING_ID; inl := 0; aux_data := None |}.

(** [CommandCost(ExpensesType ex_t, const Money &cst)] *)
Definition CommandCost_expense_cost (ex_t : ExpensesType) (cst : Money) : CommandCost :=
  {| cost := cst; expense_type := ex_t; flags := CCIF_SUCCESS;
     message := INVALID_STRING_ID; inl := 0; aux_data := None |}.

(** [void AddCost(const Money &cost)] *)
Definition AddCost (this : CommandCost) (c : Money) : CommandCost :=
  set_cost this (Money_add (cost this) c).

(** [void MultiplyCost(int factor)] *)
Definition MultiplyCost (this : CommandCost) (factor : Z) : CommandCost :=
  set_cost this (Money_mul (cost this) factor).

Definition GetCost (this : CommandCost) : Money := cost this.

Definition GetExpensesType (this : CommandCost) : ExpensesType := expense_type this.

(** [bool Succeeded() const] *)
Definition Succeeded (this : CommandCost) : bool :=
  nonzero (ccif_and (flags this) CCIF_SUCCESS).

(** [bool Failed() const] *)
Definition Failed (this : CommandCost) : bool :=
  negb (nonzero (ccif_and (flags this) CCIF_SUCCESS)).

(** [void MakeError(StringID message)] *)
Definition MakeError (this : CommandCost) (msg : StringID) : option CommandCost :=
  if decide (msg = INVALID_STRING_ID) then None
  else
    let c := set_flags this
               (ccif_and (flags this) (ccif_not (ccif_or CCIF_SUCCESS CCIF_INLINE_EXTRA_MSG))) in
    let c := set_message c msg in
    Some (match aux_data c with
          | Some a => set_aux_data c (Some (set_aux_extra_message a INVALID_STRING_ID))
          | None => c
          end).

(** [StringID GetErrorMessage() const] *)
Definition GetErrorMessage (this : CommandCost) : StringID :=
  if Succeeded this then INVALID_STRING_ID else message this.

(** [StringID GetExtraErrorMessage() const] *)
Definition GetExtraErrorMessage (this : CommandCost) : StringID :=
  if Succeeded this then INVALID_STRING_ID
  else if nonzero (ccif_and (flags this) CCIF_INLINE_EXTRA_MSG) then inl this
  else match aux_data this with
       | Some a => aux_extra_message a
       | None => INVALID_STRING_ID
       end.

(** [bool IsSuccessWithMessage() const] *)
Definition IsSuccessWithMessage (this : CommandCost) : bool :=
  Succeeded this && negb (bool_decide (message this = INVALID_STRING_ID)).

(** [void MakeSuccessWithMessage()] *)
Definition MakeSuccessWithMessage (this : CommandCost) : option CommandCost :=
  if decide (message this = INVALID_STRING_ID) then None
  else Some (set_flags this (ccif_or (flags this) CCIF_SUCCESS)).

(** [CommandCost UnwrapSuccessWithMessage() const] *)
Definition UnwrapSuccessWithMessage (this : CommandCost) : option CommandCost :=
  if IsSuccessWithMessage this then
    let res := this in
    Some (set_flags res (ccif_and (flags res) (ccif_not CCIF_SUCCESS)))
  else None.

(** [TileIndex GetTile() const] *)
Definition GetTile (this : CommandCost) : TileIndex :=
  if nonzero (ccif_and (flags this) CCIF_INLINE_TILE) then inl this
  else match aux_data this with
       | Some a => aux_tile a
       | None => INVALID_TILE
       end.

(** [uint32 GetResultData() const] *)
Definition GetResultData (this : CommandCost) : uint32 :=
  if nonzero (ccif_and (flags this) CCIF_INLINE_RESULT) then inl this
  else match aux_data this with
       | Some a => aux_result a
       | None => 0
       end.

(** A success that carries no message. *)
Definition IsPlainSuccess (this : CommandCost) : bool :=
  Succeeded this && negb (IsSuccessWithMessage this).

(** Modelled from the spec: [CommandCost::AddCost(const CommandCost &)] is
    declared in the header, its body is in [command.cpp], which is not
    among the sources.  The specification (section 4.1): if the other value
    failed, this one becomes failed with the other's error, only if it had
    not already failed (first error wins); otherwise the costs are summed;
    the expense category stays the accumulator's. *)
Definition AddCost_cmd_cost (this ret : CommandCost) : CommandCost :=
  if Failed ret then
    if Failed this then this
    else set_message (set_flags this (ccif_and (flags this) (ccif_not CCIF_SUCCESS)))
                     (message ret)
  else AddCost this (cost ret).

End CommandCost.

(** ** enum Commands *)

Inductive Commands : Set :=
  | CMD_BUILD_RAILROAD_TRACK | CMD_REMOVE_RAILROAD_TRACK | CMD_BUILD_SINGLE_RAIL
  | CMD_REMOVE_SINGLE_RAIL | CMD_LANDSCAPE_CLEAR | CMD_BUILD_BRIDGE | CMD_BUILD_RAIL_STATION
  | CMD_BUILD_TRAIN_DEPOT | CMD_BUILD_SIGNALS | CMD_REMOVE_SIGNALS | CMD_TERRAFORM_LAND
  | CMD_BUILD_OBJECT | CMD_PURCHASE_LAND_AREA | CMD_BUILD_OBJECT_AREA | CMD_BUILD_HOUSE
  | CMD_BUILD_TUNNEL | CMD_REMOVE_FROM_RAIL_STATION | CMD_CONVERT_RAIL | CMD_CONVERT_RAIL_TRACK
  | CMD_BUILD_RAIL_WAYPOINT | CMD_BUILD_ROAD_WAYPOINT | CMD_RENAME_WAYPOINT
  | CMD_SET_WAYPOINT_LABEL_HIDDEN | CMD_REMOVE_FROM_RAIL_WAYPOINT | CMD_BUILD_ROAD_STOP
  | CMD_REMOVE_ROAD_STOP | CMD_BUILD_LONG_ROAD | CMD_REMOVE_LONG_ROAD | CMD_BUILD_ROAD
  | CMD_BUILD_ROAD_DEPOT | CMD_CONVERT_ROAD | CMD_BUILD_AIRPORT | CMD_BUILD_DOCK
  | CMD_BUILD_SHIP_DEPOT | CMD_BUILD_BUOY | CMD_PLANT_TREE | CMD_BUILD_VEHICLE
  | CMD_SELL_VEHICLE | CMD_REFIT_VEHICLE | CMD_SEND_VEHICLE_TO_DEPOT
  | CMD_SET_VEHICLE_VISIBILITY | CMD_MOVE_RAIL_VEHICLE | CMD_FORCE_TRAIN_PROCEED
  | CMD_REVERSE_TRAIN_DIRECTION | CMD_CLEAR_ORDER_BACKUP | CMD_MODIFY_ORDER | CMD_SKIP_TO_ORDER
  | CMD_DELETE_ORDER | CMD_INSERT_ORDER | CMD_DUPLICATE_ORDER | CMD_MASS_CHANGE_ORDER
  | CMD_CHANGE_SERVICE_INT | CMD_BUILD_INDUSTRY | CMD_INDUSTRY_SET_FLAGS
  | CMD_INDUSTRY_SET_EXCLUSIVITY | CMD_INDUSTRY_SET_TEXT | CMD_SET_COMPANY_MANAGER_FACE
  | CMD_SET_COMPANY_COLOUR | CMD_INCREASE_LOAN | CMD_DECREASE_LOAN | CMD_WANT_ENGINE_PREVIEW
  | CMD_ENGINE_CTRL | CMD_SET_VEHICLE_UNIT_NUMBER | CMD_RENAME_VEHICLE | CMD_RENAME_ENGINE
  | CMD_RENAME_COMPANY | CMD_RENAME_PRESIDENT | CMD_RENAME_STATION | CMD_RENAME_DEPOT
  | CMD_EXCHANGE_STATION_NAMES | CMD_SET_STATION_CARGO_ALLOWED_SUPPLY | CMD_PLACE_SIGN
  | CMD_RENAME_SIGN | CMD_TURN_ROADVEH | CMD_PAUSE | CMD_BUY_SHARE_IN_COMPANY
  | CMD_SELL_SHARE_IN_COMPANY | CMD_BUY_COMPANY | CMD_DECLINE_BUY_COMPANY | CMD_FOUND_TOWN
  | CMD_RENAME_TOWN | CMD_RENAME_TOWN_NON_ADMIN | CMD_DO_TOWN_ACTION
  | CMD_TOWN_SETTING_OVERRIDE | CMD_TOWN_SETTING_OVERRIDE_NON_ADMIN | CMD_TOWN_CARGO_GOAL
  | CMD_TOWN_GROWTH_RATE | CMD_TOWN_RATING | CMD_TOWN_SET_TEXT | CMD_EXPAND_TOWN
  | CMD_DELETE_TOWN | CMD_ORDER_REFIT | CMD_CLONE_ORDER | CMD_CLEAR_AREA | CMD_MONEY_CHEAT
  | CMD_MONEY_CHEAT_ADMIN | CMD_CHANGE_BANK_BALANCE | CMD_CHEAT_SETTING | CMD_BUILD_CANAL
  | CMD_CREATE_SUBSIDY | CMD_COMPANY_CTRL | CMD_CUSTOM_NEWS_ITEM | CMD_CREATE_GOAL
  | CMD_REMOVE_GOAL | CMD_SET_GOAL_TEXT | CMD_SET_GOAL_PROGRESS | CMD_SET_GOAL_COMPLETED
  | CMD_GOAL_QUESTION | CMD_GOAL_QUESTION_ANSWER | CMD_CREATE_STORY_PAGE
  | CMD_CREATE_STORY_PAGE_ELEMENT | CMD_UPDATE_STORY_PAGE_ELEMENT | CMD_SET_STORY_PAGE_TITLE
  | CMD_SET_STORY_PAGE_DATE | CMD_SHOW_STORY_PAGE | CMD_REMOVE_STORY_PAGE
  | CMD_REMOVE_STORY_PAGE_ELEMENT | CMD_SCROLL_VIEWPORT | CMD_STORY_PAGE_BUTTON
  | CMD_LEVEL_LAND | CMD_BUILD_LOCK | CMD_BUILD_SIGNAL_TRACK | CMD_REMOVE_SIGNAL_TRACK
  | CMD_GIVE_MONEY | CMD_CHANGE_SETTING | CMD_CHANGE_COMPANY_SETTING | CMD_SET_AUTOREPLACE
  | CMD_TOGGLE_REUSE_DEPOT_VEHICLES | CMD_TOGGLE_KEEP_REMAINING_VEHICLES
  | CMD_TOGGLE_REFIT_AS_TEMPLATE | CMD_TOGGLE_TMPL_REPLACE_OLD_ONLY | CMD_RENAME_TMPL_REPLACE
  | CMD_VIRTUAL_TRAIN_FROM_TEMPLATE_VEHICLE | CMD_VIRTUAL_TRAIN_FROM_TRAIN
  | CMD_DELETE_VIRTUAL_TRAIN | CMD_BUILD_VIRTUAL_RAIL_VEHICLE | CMD_REPLACE_TEMPLATE_VEHICLE
  | CMD_MOVE_VIRTUAL_RAIL_VEHICLE | CMD_SELL_VIRTUAL_VEHICLE
  | CMD_CLONE_TEMPLATE_VEHICLE_FROM_TRAIN | CMD_DELETE_TEMPLATE_VEHICLE
  | CMD_ISSUE_TEMPLATE_REPLACEMENT | CMD_DELETE_TEMPLATE_REPLACEMENT | CMD_CLONE_VEHICLE
  | CMD_CLONE_VEHICLE_FROM_TEMPLATE | CMD_START_STOP_VEHICLE | CMD_MASS_START_STOP
  | CMD_AUTOREPLACE_VEHICLE | CMD_TEMPLATE_REPLACE_VEHICLE | CMD_DEPOT_SELL_ALL_VEHICLES
  | CMD_DEPOT_MASS_AUTOREPLACE | CMD_CREATE_GROUP | CMD_DELETE_GROUP | CMD_ALTER_GROUP
  | CMD_CREATE_GROUP_FROM_LIST | CMD_ADD_VEHICLE_GROUP | CMD_ADD_SHARED_VEHICLE_GROUP
  | CMD_REMOVE_ALL_VEHICLES_GROUP | CMD_SET_GROUP_FLAG | CMD_SET_GROUP_LIVERY | CMD_MOVE_ORDER
  | CMD_REVERSE_ORDER_LIST | CMD_CHANGE_TIMETABLE | CMD_BULK_CHANGE_TIMETABLE
  | CMD_SET_VEHICLE_ON_TIME | CMD_AUTOFILL_TIMETABLE | CMD_AUTOMATE_TIMETABLE
  | CMD_TIMETABLE_SEPARATION | CMD_SET_TIMETABLE_START | CMD_OPEN_CLOSE_AIRPORT
  | CMD_CREATE_LEAGUE_TABLE | CMD_CREATE_LEAGUE_TABLE_ELEMENT
  | CMD_UPDATE_LEAGUE_TABLE_ELEMENT_DATA | CMD_UPDATE_LEAGUE_TABLE_ELEMENT_SCORE
  | CMD_REMOVE_LEAGUE_TABLE_ELEMENT | CMD_PROGRAM_TRACERESTRICT_SIGNAL
  | CMD_CREATE_TRACERESTRICT_SLOT | CMD_ALTER_TRACERESTRICT_SLOT
  | CMD_DELETE_TRACERESTRICT_SLOT | CMD_ADD_VEHICLE_TRACERESTRICT_SLOT
  | CMD_REMOVE_VEHICLE_TRACERESTRICT_SLOT | CMD_CREATE_TRACERESTRICT_COUNTER
  | CMD_ALTER_TRACERESTRICT_COUNTER | CMD_DELETE_TRACERESTRICT_COUNTER
  | CMD_INSERT_SIGNAL_INSTRUCTION | CMD_MODIFY_SIGNAL_INSTRUCTION
  | CMD_REMOVE_SIGNAL_INSTRUCTION | CMD_SIGNAL_PROGRAM_MGMT | CMD_SCHEDULED_DISPATCH
  | CMD_SCHEDULED_DISPATCH_ADD | CMD_SCHEDULED_DISPATCH_REMOVE
  | CMD_SCHEDULED_DISPATCH_SET_DURATION | CMD_SCHEDULED_DISPATCH_SET_START_DATE
  | CMD_SCHEDULED_DISPATCH_SET_DELAY | CMD_SCHEDULED_DISPATCH_RESET_LAST_DISPATCH
  | CMD_SCHEDULED_DISPATCH_CLEAR | CMD_SCHEDULED_DISPATCH_ADD_NEW_SCHEDULE
  | CMD_SCHEDULED_DISPATCH_REMOVE_SCHEDULE | CMD_SCHEDULED_DISPATCH_RENAME_SCHEDULE
  | CMD_SCHEDULED_DISPATCH_DUPLICATE_SCHEDULE | CMD_SCHEDULED_DISPATCH_APPEND_VEHICLE_SCHEDULE
  | CMD_SCHEDULED_DISPATCH_ADJUST | CMD_ADD_PLAN | CMD_ADD_PLAN_LINE | CMD_REMOVE_PLAN
  | CMD_REMOVE_PLAN_LINE | CMD_CHANGE_PLAN_VISIBILITY | CMD_CHANGE_PLAN_COLOUR
  | CMD_RENAME_PLAN | CMD_DESYNC_CHECK | CMD_END.

(** The value the compiler gives each enumerator: its position in the
    list, counted from 0. *)
Definition Commands_value (c : Commands) : Z :=
  match c with
  | CMD_BUILD_RAILROAD_TRACK => 0 | CMD_REMOVE_RAILROAD_TRACK => 1 | CMD_BUILD_SINGLE_RAIL => 2
  | CMD_REMOVE_SINGLE_RAIL => 3 | CMD_LANDSCAPE_CLEAR => 4 | CMD_BUILD_BRIDGE => 5
  | CMD_BUILD_RAIL_STATION => 6 | CMD_BUILD_TRAIN_DEPOT => 7 | CMD_BUILD_SIGNALS => 8
  | CMD_REMOVE_SIGNALS => 9 | CMD_TERRAFORM_LAND => 10 | CMD_BUILD_OBJECT => 11
  | CMD_PURCHASE_LAND_AREA => 12 | CMD_BUILD_OBJECT_AREA => 13 | CMD_BUILD_HOUSE => 14
  | CMD_BUILD_TUNNEL => 15 | CMD_REMOVE_FROM_RAIL_STATION => 16 | CMD_CONVERT_RAIL => 17
  | CMD_CONVERT_RAIL_TRACK => 18 | CMD_BUILD_RAIL_WAYPOINT => 19
  | CMD_BUILD_ROAD_WAYPOINT => 20 | CMD_RENAME_WAYPOINT => 21
  | CMD_SET_WAYPOINT_LABEL_HIDDEN => 22 | CMD_REMOVE_FROM_RAIL_WAYPOINT => 23
  | CMD_BUILD_ROAD_STOP => 24 | CMD_REMOVE_ROAD_STOP => 25 | CMD_BUILD_LONG_ROAD => 26
  | CMD_REMOVE_LONG_ROAD => 27 | CMD_BUILD_ROAD => 28 | CMD_BUILD_ROAD_DEPOT => 29
  | CMD_CONVERT_ROAD => 30 | CMD_BUILD_AIRPORT => 31 | CMD_BUILD_DOCK => 32
  | CMD_BUILD_SHIP_DEPOT => 33 | CMD_BUILD_BUOY => 34 | CMD_PLANT_TREE => 35
  | CMD_BUILD_VEHICLE => 36 | CMD_SELL_VEHICLE => 37 | CMD_REFIT_VEHICLE => 38
  | CMD_SEND_VEHICLE_TO_DEPOT => 39 | CMD_SET_VEHICLE_VISIBILITY => 40
  | CMD_MOVE_RAIL_VEHICLE => 41 | CMD_FORCE_TRAIN_PROCEED => 42
  | CMD_REVERSE_TRAIN_DIRECTION => 43 | CMD_CLEAR_ORDER_BACKUP => 44 | CMD_MODIFY_ORDER => 45
  | CMD_SKIP_TO_ORDER => 46 | CMD_DELETE_ORDER => 47 | CMD_INSERT_ORDER => 48
  | CMD_DUPLICATE_ORDER => 49 | CMD_MASS_CHANGE_ORDER => 50 | CMD_CHANGE_SERVICE_INT => 51
  | CMD_BUILD_INDUSTRY => 52 | CMD_INDUSTRY_SET_FLAGS => 53
  | CMD_INDUSTRY_SET_EXCLUSIVITY => 54 | CMD_INDUSTRY_SET_TEXT => 55
  | CMD_SET_COMPANY_MANAGER_FACE => 56 | CMD_SET_COMPANY_COLOUR => 57 | CMD_INCREASE_LOAN => 58
  | CMD_DECREASE_LOAN => 59 | CMD_WANT_ENGINE_PREVIEW => 60 | CMD_ENGINE_CTRL => 61
  | CMD_SET_VEHICLE_UNIT_NUMBER => 62 | CMD_RENAME_VEHICLE => 63 | CMD_RENAME_ENGINE => 64
  | CMD_RENAME_COMPANY => 65 | CMD_RENAME_PRESIDENT => 66 | CMD_RENAME_STATION => 67
  | CMD_RENAME_DEPOT => 68 | CMD_EXCHANGE_STATION_NAMES => 69
  | CMD_SET_STATION_CARGO_ALLOWED_SUPPLY => 70 | CMD_PLACE_SIGN => 71 | CMD_RENAME_SIGN => 72
  | CMD_TURN_ROADVEH => 73 | CMD_PAUSE => 74 | CMD_BUY_SHARE_IN_COMPANY => 75
  | CMD_SELL_SHARE_IN_COMPANY => 76 | CMD_BUY_COMPANY => 77 | CMD_DECLINE_BUY_COMPANY => 78
  | CMD_FOUND_TOWN => 79 | CMD_RENAME_TOWN => 80 | CMD_RENAME_TOWN_NON_ADMIN => 81
  | CMD_DO_TOWN_ACTION => 82 | CMD_TOWN_SETTING_OVERRIDE => 83
  | CMD_TOWN_SETTING_OVERRIDE_NON_ADMIN => 84 | CMD_TOWN_CARGO_GOAL => 85
  | CMD_TOWN_GROWTH_RATE => 86 | CMD_TOWN_RATING => 87 | CMD_TOWN_SET_TEXT => 88
  | CMD_EXPAND_TOWN => 89 | CMD_DELETE_TOWN => 90 | CMD_ORDER_REFIT => 91
  | CMD_CLONE_ORDER => 92 | CMD_CLEAR_AREA => 93 | CMD_MONEY_CHEAT => 94
  | CMD_MONEY_CHEAT_ADMIN => 95 | CMD_CHANGE_BANK_BALANCE => 96 | CMD_CHEAT_SETTING => 97
  | CMD_BUILD_CANAL => 98 | CMD_CREATE_SUBSIDY => 99 | CMD_COMPANY_CTRL => 100
  | CMD_CUSTOM_NEWS_ITEM => 101 | CMD_CREATE_GOAL => 102 | CMD_REMOVE_GOAL => 103
  | CMD_SET_GOAL_TEXT => 104 | CMD_SET_GOAL_PROGRESS => 105 | CMD_SET_GOAL_COMPLETED => 106
  | CMD_GOAL_QUESTION => 107 | CMD_GOAL_QUESTION_ANSWER => 108 | CMD_CREATE_STORY_PAGE => 109
  | CMD_CREATE_STORY_PAGE_ELEMENT => 110 | CMD_UPDATE_STORY_PAGE_ELEMENT => 111
  | CMD_SET_STORY_PAGE_TITLE => 112 | CMD_SET_STORY_PAGE_DATE => 113
  | CMD_SHOW_STORY_PAGE => 114 | CMD_REMOVE_STORY_PAGE => 115
  | CMD_REMOVE_STORY_PAGE_ELEMENT => 116 | CMD_SCROLL_VIEWPORT => 117
  | CMD_STORY_PAGE_BUTTON => 118 | CMD_LEVEL_LAND => 119 | CMD_BUILD_LOCK => 120
  | CMD_BUILD_SIGNAL_TRACK => 121 | CMD_REMOVE_SIGNAL_TRACK => 122 | CMD_GIVE_MONEY => 123
  | CMD_CHANGE_SETTING => 124 | CMD_CHANGE_COMPANY_SETTING => 125 | CMD_SET_AUTOREPLACE => 126
  | CMD_TOGGLE_REUSE_DEPOT_VEHICLES => 127 | CMD_TOGGLE_KEEP_REMAINING_VEHICLES => 128
  | CMD_TOGGLE_REFIT_AS_TEMPLATE => 129 | CMD_TOGGLE_TMPL_REPLACE_OLD_ONLY => 130
  | CMD_RENAME_TMPL_REPLACE => 131 | CMD_VIRTUAL_TRAIN_FROM_TEMPLATE_VEHICLE => 132
  | CMD_VIRTUAL_TRAIN_FROM_TRAIN => 133 | CMD_DELETE_VIRTUAL_TRAIN => 134
  | CMD_BUILD_VIRTUAL_RAIL_VEHICLE => 135 | CMD_REPLACE_TEMPLATE_VEHICLE => 136
  | CMD_MOVE_VIRTUAL_RAIL_VEHICLE => 137 | CMD_SELL_VIRTUAL_VEHICLE => 138
  | CMD_CLONE_TEMPLATE_VEHICLE_FROM_TRAIN => 139 | CMD_DELETE_TEMPLATE_VEHICLE => 140
  | CMD_ISSUE_TEMPLATE_REPLACEMENT => 141 | CMD_DELETE_TEMPLATE_REPLACEMENT => 142
  | CMD_CLONE_VEHICLE => 143 | CMD_CLONE_VEHICLE_FROM_TEMPLATE => 144
  | CMD_START_STOP_VEHICLE => 145 | CMD_MASS_START_STOP => 146 | CMD_AUTOREPLACE_VEHICLE => 147
  | CMD_TEMPLATE_REPLACE_VEHICLE => 148 | CMD_DEPOT_SELL_ALL_VEHICLES => 149
  | CMD_DEPOT_MASS_AUTOREPLACE => 150 | CMD_CREATE_GROUP => 151 | CMD_DELETE_GROUP => 152
  | CMD_ALTER_GROUP => 153 | CMD_CREATE_GROUP_FROM_LIST => 154 | CMD_ADD_VEHICLE_GROUP => 155
  | CMD_ADD_SHARED_VEHICLE_GROUP => 156 | CMD_REMOVE_ALL_VEHICLES_GROUP => 157
  | CMD_SET_GROUP_FLAG => 158 | CMD_SET_GROUP_LIVERY => 159 | CMD_MOVE_ORDER => 160
  | CMD_REVERSE_ORDER_LIST => 161 | CMD_CHANGE_TIMETABLE => 162
  | CMD_BULK_CHANGE_TIMETABLE => 163 | CMD_SET_VEHICLE_ON_TIME => 164
  | CMD_AUTOFILL_TIMETABLE => 165 | CMD_AUTOMATE_TIMETABLE => 166
  | CMD_TIMETABLE_SEPARATION => 167 | CMD_SET_TIMETABLE_START => 168
  | CMD_OPEN_CLOSE_AIRPORT => 169 | CMD_CREATE_LEAGUE_TABLE => 170
  | CMD_CREATE_LEAGUE_TABLE_ELEMENT => 171 | CMD_UPDATE_LEAGUE_TABLE_ELEMENT_DATA => 172
  | CMD_UPDATE_LEAGUE_TABLE_ELEMENT_SCORE => 173 | CMD_REMOVE_LEAGUE_TABLE_ELEMENT => 174
  | CMD_PROGRAM_TRACERESTRICT_SIGNAL => 175 | CMD_CREATE_TRACERESTRICT_SLOT => 176
  | CMD_ALTER_TRACERESTRICT_SLOT => 177 | CMD_DELETE_TRACERESTRICT_SLOT => 178
  | CMD_ADD_VEHICLE_TRACERESTRICT_SLOT => 179 | CMD_REMOVE_VEHICLE_TRACERESTRICT_SLOT => 180
  | CMD_CREATE_TRACERESTRICT_COUNTER => 181 | CMD_ALTER_TRACERESTRICT_COUNTER => 182
  | CMD_DELETE_TRACERESTRICT_COUNTER => 183 | CMD_INSERT_SIGNAL_INSTRUCTION => 184
  | CMD_MODIFY_SIGNAL_INSTRUCTION => 185 | CMD_REMOVE_SIGNAL_INSTRUCTION => 186
  | CMD_SIGNAL_PROGRAM_MGMT => 187 | CMD_SCHEDULED_DISPATCH => 188
  | CMD_SCHEDULED_DISPATCH_ADD => 189 | CMD_SCHEDULED_DISPATCH_REMOVE => 190
  | CMD_SCHEDULED_DISPATCH_SET_DURATION => 191 | CMD_SCHEDULED_DISPATCH_SET_START_DATE => 192
  | CMD_SCHEDULED_DISPATCH_SET_DELAY => 193 | CMD_SCHEDULED_DISPATCH_RESET_LAST_DISPATCH => 194
  | CMD_SCHEDULED_DISPATCH_CLEAR => 195 | CMD_SCHEDULED_DISPATCH_ADD_NEW_SCHEDULE => 196
  | CMD_SCHEDULED_DISPATCH_REMOVE_SCHEDULE => 197
  | CMD_SCHEDULED_DISPATCH_RENAME_SCHEDULE => 198
  | CMD_SCHEDULED_DISPATCH_DUPLICATE_SCHEDULE => 199
  | CMD_SCHEDULED_DISPATCH_APPEND_VEHICLE_SCHEDULE => 200
  | CMD_SCHEDULED_DISPATCH_ADJUST => 201 | CMD_ADD_PLAN => 202 | CMD_ADD_PLAN_LINE => 203
  | CMD_REMOVE_PLAN => 204 | CMD_REMOVE_PLAN_LINE => 205 | CMD_CHANGE_PLAN_VISIBILITY => 206
  | CMD_CHANGE_PLAN_COLOUR => 207 | CMD_RENAME_PLAN => 208 | CMD_DESYNC_CHECK => 209
  | CMD_END => 210
  end.

(** The enumerators in declaration order. *)
Definition Commands_enumerators : list Commands :=
  [ CMD_BUILD_RAILROAD_TRACK; CMD_REMOVE_RAILROAD_TRACK; CMD_BUILD_SINGLE_RAIL;
    CMD_REMOVE_SINGLE_RAIL; CMD_LANDSCAPE_CLEAR; CMD_BUILD_BRIDGE; CMD_BUILD_RAIL_STATION;
    CMD_BUILD_TRAIN_DEPOT; CMD_BUILD_SIGNALS; CMD_REMOVE_SIGNALS; CMD_TERRAFORM_LAND;
    CMD_BUILD_OBJECT; CMD_PURCHASE_LAND_AREA; CMD_BUILD_OBJECT_AREA; CMD_BUILD_HOUSE;
    CMD_BUILD_TUNNEL; CMD_REMOVE_FROM_RAIL_STATION; CMD_CONVERT_RAIL; CMD_CONVERT_RAIL_TRACK;
    CMD_BUILD_RAIL_WAYPOINT; CMD_BUILD_ROAD_WAYPOINT; CMD_RENAME_WAYPOINT;
    CMD_SET_WAYPOINT_LABEL_HIDDEN; CMD_REMOVE_FROM_RAIL_WAYPOINT; CMD_BUILD_ROAD_STOP;
    CMD_REMOVE_ROAD_STOP; CMD_BUILD_LONG_ROAD; CMD_REMOVE_LONG_ROAD; CMD_BUILD_ROAD;
    CMD_BUILD_ROAD_DEPOT; CMD_CONVERT_ROAD; CMD_BUILD_AIRPORT; CMD_BUILD_DOCK;
    CMD_BUILD_SHIP_DEPOT; CMD_BUILD_BUOY; CMD_PLANT_TREE; CMD_BUILD_VEHICLE; CMD_SELL_VEHICLE;
    CMD_REFIT_VEHICLE; CMD_SEND_VEHICLE_TO_DEPOT; CMD_SET_VEHICLE_VISIBILITY;
    CMD_MOVE_RAIL_VEHICLE; CMD_FORCE_TRAIN_PROCEED; CMD_REVERSE_TRAIN_DIRECTION;
    CMD_CLEAR_ORDER_BACKUP; CMD_MODIFY_ORDER; CMD_SKIP_TO_ORDER; CMD_DELETE_ORDER;
    CMD_INSERT_ORDER; CMD_DUPLICATE_ORDER; CMD_MASS_CHANGE_ORDER; CMD_CHANGE_SERVICE_INT;
    CMD_BUILD_INDUSTRY; CMD_INDUSTRY_SET_FLAGS; CMD_INDUSTRY_SET_EXCLUSIVITY;
    CMD_INDUSTRY_SET_TEXT; CMD_SET_COMPANY_MANAGER_FACE; CMD_SET_COMPANY_COLOUR;
    CMD_INCREASE_LOAN; CMD_DECREASE_LOAN; CMD_WANT_ENGINE_PREVIEW; CMD_ENGINE_CTRL;
    CMD_SET_VEHICLE_UNIT_NUMBER; CMD_RENAME_VEHICLE; CMD_RENAME_ENGINE; CMD_RENAME_COMPANY;
    CMD_RENAME_PRESIDENT; CMD_RENAME_STATION; CMD_RENAME_DEPOT; CMD_EXCHANGE_STATION_NAMES;
    CMD_SET_STATION_CARGO_ALLOWED_SUPPLY; CMD_PLACE_SIGN; CMD_RENAME_SIGN; CMD_TURN_ROADVEH;
    CMD_PAUSE; CMD_BUY_SHARE_IN_COMPANY; CMD_SELL_SHARE_IN_COMPANY; CMD_BUY_COMPANY;
    CMD_DECLINE_BUY_COMPANY; CMD_FOUND_TOWN; CMD_RENAME_TOWN; CMD_RENAME_TOWN_NON_ADMIN;
    CMD_DO_TOWN_ACTION; CMD_TOWN_SETTING_OVERRIDE; CMD_TOWN_SETTING_OVERRIDE_NON_ADMIN;
    CMD_TOWN_CARGO_GOAL; CMD_TOWN_GROWTH_RATE; CMD_TOWN_RATING; CMD_TOWN_SET_TEXT;
    CMD_EXPAND_TOWN; CMD_DELETE_TOWN; CMD_ORDER_REFIT; CMD_CLONE_ORDER; CMD_CLEAR_AREA;
    CMD_MONEY_CHEAT; CMD_MONEY_CHEAT_ADMIN; CMD_CHANGE_BANK_BALANCE; CMD_CHEAT_SETTING;
    CMD_BUILD_CANAL; CMD_CREATE_SUBSIDY; CMD_COMPANY_CTRL; CMD_CUSTOM_NEWS_ITEM;
    CMD_CREATE_GOAL; CMD_REMOVE_GOAL; CMD_SET_GOAL_TEXT; CMD_SET_GOAL_PROGRESS;
    CMD_SET_GOAL_COMPLETED; CMD_GOAL_QUESTION; CMD_GOAL_QUESTION_ANSWER; CMD_CREATE_STORY_PAGE;
    CMD_CREATE_STORY_PAGE_ELEMENT; CMD_UPDATE_STORY_PAGE_ELEMENT; CMD_SET_STORY_PAGE_TITLE;
    CMD_SET_STORY_PAGE_DATE; CMD_SHOW_STORY_PAGE; CMD_REMOVE_STORY_PAGE;
    CMD_REMOVE_STORY_PAGE_ELEMENT; CMD_SCROLL_VIEWPORT; CMD_STORY_PAGE_BUTTON; CMD_LEVEL_LAND;
    CMD_BUILD_LOCK; CMD_BUILD_SIGNAL_TRACK; CMD_REMOVE_SIGNAL_TRACK; CMD_GIVE_MONEY;
    CMD_CHANGE_SETTING; CMD_CHANGE_COMPANY_SETTING; CMD_SET_AUTOREPLACE;
    CMD_TOGGLE_REUSE_DEPOT_VEHICLES; CMD_TOGGLE_KEEP_REMAINING_VEHICLES;
    CMD_TOGGLE_REFIT_AS_TEMPLATE; CMD_TOGGLE_TMPL_REPLACE_OLD_ONLY; CMD_RENAME_TMPL_REPLACE;
    CMD_VIRTUAL_TRAIN_FROM_TEMPLATE_VEHICLE; CMD_VIRTUAL_TRAIN_FROM_TRAIN;
    CMD_DELETE_VIRTUAL_TRAIN; CMD_BUILD_VIRTUAL_RAIL_VEHICLE; CMD_REPLACE_TEMPLATE_VEHICLE;
    CMD_MOVE_VIRTUAL_RAIL_VEHICLE; CMD_SELL_VIRTUAL_VEHICLE;
    CMD_CLONE_TEMPLATE_VEHICLE_FROM_TRAIN; CMD_DELETE_TEMPLATE_VEHICLE;
    CMD_ISSUE_TEMPLATE_REPLACEMENT; CMD_DELETE_TEMPLATE_REPLACEMENT; CMD_CLONE_VEHICLE;
    CMD_CLONE_VEHICLE_FROM_TEMPLATE; CMD_START_STOP_VEHICLE; CMD_MASS_START_STOP;
    CMD_AUTOREPLACE_VEHICLE; CMD_TEMPLATE_REPLACE_VEHICLE; CMD_DEPOT_SELL_ALL_VEHICLES;
    CMD_DEPOT_MASS_AUTOREPLACE; CMD_CREATE_GROUP; CMD_DELETE_GROUP; CMD_ALTER_GROUP;
    CMD_CREATE_GROUP_FROM_LIST; CMD_ADD_VEHICLE_GROUP; CMD_ADD_SHARED_VEHICLE_GROUP;
    CMD_REMOVE_ALL_VEHICLES_GROUP; CMD_SET_GROUP_FLAG; CMD_SET_GROUP_LIVERY; CMD_MOVE_ORDER;
    CMD_REVERSE_ORDER_LIST; CMD_CHANGE_TIMETABLE; CMD_BULK_CHANGE_TIMETABLE;
    CMD_SET_VEHICLE_ON_TIME; CMD_AUTOFILL_TIMETABLE; CMD_AUTOMATE_TIMETABLE;
    CMD_TIMETABLE_SEPARATION; CMD_SET_TIMETABLE_START; CMD_OPEN_CLOSE_AIRPORT;
    CMD_CREATE_LEAGUE_TABLE; CMD_CREATE_LEAGUE_TABLE_ELEMENT;
    CMD_UPDATE_LEAGUE_TABLE_ELEMENT_DATA; CMD_UPDATE_LEAGUE_TABLE_ELEMENT_SCORE;
    CMD_REMOVE_LEAGUE_TABLE_ELEMENT; CMD_PROGRAM_TRACERESTRICT_SIGNAL;
    CMD_CREATE_TRACERESTRICT_SLOT; CMD_ALTER_TRACERESTRICT_SLOT; CMD_DELETE_TRACERESTRICT_SLOT;
    CMD_ADD_VEHICLE_TRACERESTRICT_SLOT; CMD_REMOVE_VEHICLE_TRACERESTRICT_SLOT;
    CMD_CREATE_TRACERESTRICT_COUNTER; CMD_ALTER_TRACERESTRICT_COUNTER;
    CMD_DELETE_TRACERESTRICT_COUNTER; CMD_INSERT_SIGNAL_INSTRUCTION;
    CMD_MODIFY_SIGNAL_INSTRUCTION; CMD_REMOVE_SIGNAL_INSTRUCTION; CMD_SIGNAL_PROGRAM_MGMT;
    CMD_SCHEDULED_DISPATCH; CMD_SCHEDULED_DISPATCH_ADD; CMD_SCHEDULED_DISPATCH_REMOVE;
    CMD_SCHEDULED_DISPATCH_SET_DURATION; CMD_SCHEDULED_DISPATCH_SET_START_DATE;
    CMD_SCHEDULED_DISPATCH_SET_DELAY; CMD_SCHEDULED_DISPATCH_RESET_LAST_DISPATCH;
    CMD_SCHEDULED_DISPATCH_CLEAR; CMD_SCHEDULED_DISPATCH_ADD_NEW_SCHEDULE;
    CMD_SCHEDULED_DISPATCH_REMOVE_SCHEDULE; CMD_SCHEDULED_DISPATCH_RENAME_SCHEDULE;
    CMD_SCHEDULED_DISPATCH_DUPLICATE_SCHEDULE; CMD_SCHEDULED_DISPATCH_APPEND_VEHICLE_SCHEDULE;
    CMD_SCHEDULED_DISPATCH_ADJUST; CMD_ADD_PLAN; CMD_ADD_PLAN_LINE; CMD_REMOVE_PLAN;
    CMD_REMOVE_PLAN_LINE; CMD_CHANGE_PLAN_VISIBILITY; CMD_CHANGE_PLAN_COLOUR; CMD_RENAME_PLAN;
    CMD_DESYNC_CHECK; CMD_END ].

(** ** enum FlaggedCommands and the command word *)

Definition CMD_NETWORK_COMMAND : Z := 0x0100.
Definition CMD_NO_SHIFT_ESTIMATE : Z := 0x0200.
Definition CMD_FLAGS_MASK : Z := 0xFF00.
Definition CMD_ID_MASK : Z := 0x00FF.

(** [#define CMD_MSG(x) ((x) << 16)], for [x] an error string: the shift is
    taken in 32 bits, the bits moved past bit 31 are lost. *)
Definition CMD_MSG (x : Z) : uint32 := to_uint32 (Z.shiftl x 16).

(** [static_assert(CMD_END <= CMD_ID_MASK + 1)], as a decidable check. *)
Definition static_assert_CMD_END : bool :=
  Commands_value CMD_END <=? CMD_ID_MASK + 1.

(** A command word as callers build it: the command, or-ed with flags of
    [FlaggedCommands] and with [CMD_MSG] of an error string, in the
    [uint32] that holds it. *)
Definition command_word (c : Commands) (fl : Z) (msg : StringID) : uint32 :=
  to_uint32 (Z.lor (Z.lor (Commands_value c) fl) (CMD_MSG msg)).

(** ** enum CommandFlags, enum CommandType *)

Definition CommandFlags := Z.
Definition CMD_SERVER : CommandFlags := 0x001.
Definition CMD_SPECTATOR : CommandFlags := 0x002.
Definition CMD_OFFLINE : CommandFlags := 0x004.
Definition CMD_AUTO : CommandFlags := 0x008.
Definition CMD_ALL_TILES : CommandFlags := 0x010.
Definition CMD_NO_TEST : CommandFlags := 0x020.
Definition CMD_NO_WATER : CommandFlags := 0x040.
Definition CMD_CLIENT_ID : CommandFlags := 0x080.
Definition CMD_DEITY : CommandFlags := 0x100.
Definition CMD_STR_CTRL : CommandFlags := 0x200.
Definition CMD_NO_EST : CommandFlags := 0x400.
Definition CMD_PROCEX : CommandFlags := 0x800.
Definition CMD_SERVER_NS : CommandFlags := 0x1000.
Definition CMD_LOG_AUX : CommandFlags := 0x2000.
Definition CMD_P1_TILE : CommandFlags := 0x4000.

(** DECLARE_ENUM_AS_BIT_SET(CommandFlags); the underlying type is 32 bits
    wide. *)
Definition cmdflags_or (a b : CommandFlags) : CommandFlags := Z.lor a b.
Definition cmdflags_and (a b : CommandFlags) : CommandFlags := Z.land a b.
Definition cmdflags_not (a : CommandFlags) : CommandFlags := to_uint32 (Z.lnot a).

Inductive CommandType : Set :=
  | CMDT_LANDSCAPE_CONSTRUCTION | CMDT_VEHICLE_CONSTRUCTION | CMDT_MONEY_MANAGEMENT
  | CMDT_VEHICLE_MANAGEMENT | CMDT_ROUTE_MANAGEMENT | CMDT_OTHER_MANAGEMENT
  | CMDT_COMPANY_SETTING | CMDT_SERVER_SETTING | CMDT_CHEAT | CMDT_END.

Definition DoCommandFlag := Z.

(** ** struct Command *)

(** An address of an object on the free store. *)
Definition loc := positive.

Section Command.
Context `{E : ExternTypes}.

(** [const char *text] is an optional string, [const CommandAuxiliaryBase *]
    an optional address.  A handler is the function it computes. *)
Definition CommandProc : Type :=
  TileIndex -> DoCommandFlag -> uint32 -> uint32 -> option string -> CommandCost.
Definition CommandProcEx : Type :=
  TileIndex -> DoCommandFlag -> uint32 -> uint32 -> uint64 -> option string ->
  option loc -> CommandCost.

(** The anonymous union of [Command]: the value records which member was
    stored last (the active member).  Reading the other member has no
    defined result. *)
Inductive Command_union : Type :=
  | union_proc (proc : CommandProc)
  | union_procex (procex : CommandProcEx).

Definition read_proc (u : Command_union) : option CommandProc :=
  match u with union_proc p => Some p | union_procex _ => None end.

Definition read_procex (u : Command_union) : option CommandProcEx :=
  match u with union_procex p => Some p | union_proc _ => None end.

Record Command := {
  handler : Command_union;
  name : string;
  cmd_flags : CommandFlags;
  type : CommandType
}.

(** [Command(CommandProc *proc, const char *name, CommandFlags flags, CommandType type)] *)
Definition Command_of_proc (proc : CommandProc) (nm : string) (fl : CommandFlags)
    (ty : CommandType) : Command :=
  {| handler := union_proc proc; name := nm;
     cmd_flags := cmdflags_and fl (cmdflags_not CMD_PROCEX); type := ty |}.

(** [Command(CommandProcEx *procex, const char *name, CommandFlags flags, CommandType type)] *)
Definition Command_of_procex (procex : CommandProcEx) (nm : string) (fl : CommandFlags)
    (ty : CommandType) : Command :=
  {| handler := union_procex procex; name := nm;
     cmd_flags := cmdflags_or fl CMD_PROCEX; type := ty |}.

(** [CommandCost Execute(...) const]: [None] when the member that is read
    is not the active one. *)
Definition Execute (this : Command) (tile : TileIndex) (flags : DoCommandFlag)
    (p1 p2 : uint32) (p3 : uint64) (text : option string) (aux : option loc)
  : option CommandCost :=
  if nonzero (cmdflags_and (cmd_flags this) CMD_PROCEX) then
    procex ← read_procex (handler this);
    Some (procex tile flags p1 p2 p3 text aux)
  else
    proc ← read_proc (handler this);
    Some (proc tile flags p1 p2 text).

(** The handler [Execute] selects, named rather than called. *)
Inductive Selected : Set := SelectsProc | SelectsProcEx.

Definition selected (this : Command) : Selected :=
  if nonzero (cmdflags_and (cmd_flags this) CMD_PROCEX) then SelectsProcEx else SelectsProc.

Definition active (this : Command) : Selected :=
  match handler this with union_proc _ => SelectsProc | union_procex _ => SelectsProcEx end.

End Command.

(** ** struct CommandAuxiliaryBase, struct CommandAuxiliaryPtr *)

Section CommandAuxiliary.

(** [Object] is what an object of a class derived from
    [CommandAuxiliaryBase] holds; the free store maps the addresses of the
    live objects to it. *)
Context {Object : Type}.

(** [virtual CommandAuxiliaryBase *Clone() const = 0], called on the object
    at an address: it returns a pointer and the free store it leaves.  It is
    pure virtual, the derived classes define it. *)
Variable Clone : loc -> gmap loc Object -> option loc * gmap loc Object.

(** [std::unique_ptr<CommandAuxiliaryBase>]: the owned address, or null. *)
Definition CommandAuxiliaryPtr := option loc.

(** [static CommandAuxiliaryBase *Clone(const CommandAuxiliaryPtr &other)] *)
Definition CommandAuxiliaryPtr_Clone (other : CommandAuxiliaryPtr) (h : gmap loc Object)
  : option loc * gmap loc Object :=
  match other with
  | Some l => Clone l h
  | None => (None, h)
  end.

(** [CommandAuxiliaryPtr(const CommandAuxiliaryPtr &other)]: the new
    pointer owns what [Clone(other)] returns. *)
Definition CommandAuxiliaryPtr_copy (other : CommandAuxiliaryPtr) (h : gmap loc Object)
  : CommandAuxiliaryPtr * gmap loc Object :=
  CommandAuxiliaryPtr_Clone other h.

(** [std::unique_ptr::reset(p)]: take [p], then delete the object owned
    before. *)
Definition unique_ptr_reset (this : CommandAuxiliaryPtr) (p : option loc)
    (h : gmap loc Object) : CommandAuxiliaryPtr * gmap loc Object :=
  (p, match this with
      | Some old => delete old h
      | None => h
      end).

(** [CommandAuxiliaryPtr& operator=(const CommandAuxiliaryPtr &other)]: the
    new value of [*this] and the free store. *)
Definition CommandAuxiliaryPtr_assign (this other : CommandAuxiliaryPtr)
    (h : gmap loc Object) : CommandAuxiliaryPtr * gmap loc Object :=
  let '(p, h1) := CommandAuxiliaryPtr_Clone other h in
  unique_ptr_reset this p h1.

(** [struct CommandContainer]; the callback is an optional identifier of a
    function. *)
Record CommandContainer := {
  cc_tile : TileIndex;
  cc_p1 : uint32;
  cc_p2 : uint32;
  cc_cmd : uint32;
  cc_p3 : uint64;
  cc_callback : option positive;
  cc_text : string;
  cc_aux_data : CommandAuxiliaryPtr
}.

(** The implicit copy constructor of [CommandContainer]: member by member,
    [aux_data] with the copy constructor of [CommandAuxiliaryPtr]. *)
Definition CommandContainer_copy (other : CommandContainer) (h : gmap loc Object)
  : CommandContainer * gmap loc Object :=
  let '(a, h1) := CommandAuxiliaryPtr_copy (cc_aux_data other) h in
  ({| cc_tile := cc_tile other; cc_p1 := cc_p1 other; cc_p2 := cc_p2 other;
      cc_cmd := cc_cmd other; cc_p3 := cc_p3 other; cc_callback := cc_callback other;
      cc_text := cc_text other; cc_aux_data := a |}, h1).

(** [NewCommandContainerBasic] *)
Definition NewCommandContainerBasic (tile : TileIndex) (p1 p2 cmd : uint32)
    (callback : option positive) : CommandContainer :=
  {| cc_tile := tile; cc_p1 := p1; cc_p2 := p2; cc_cmd := cmd; cc_p3 := 0;
     cc_callback := callback; cc_text := ""; cc_aux_data := None |}.

(** [inline CommandCost DoCommand(const CommandContainer *container,
    DoCommandFlag flags)] of [command_func.h], over the [DoCommandEx] it
    forwards to. *)
Definition DoCommand_container {R : Type}
    (DoCommandEx : TileIndex -> uint32 -> uint32 -> uint64 -> DoCommandFlag -> uint32 ->
                   option string -> option loc -> R)
    (container : CommandContainer) (flags : DoCommandFlag) : R :=
  DoCommandEx (cc_tile container) (cc_p1 container) (cc_p2 container) (cc_p3 container)
              flags (Z.land (cc_cmd container) CMD_ID_MASK)
              (Some (cc_text container)) (cc_aux_data container).

End CommandAuxiliary.

(** A [unique_ptr] is null or owns a live object. *)
Definition owns {Object : Type} (h : gmap loc Object) (p : option loc) : Prop :=
  match p with
  | Some l => is_Some (h !! l)
  | None => True
  end.

(** A [Clone] that keeps the contract of deep cloning: called on a live
    object, it allocates an address that was not in use, stores a copy of
    the object there, returns that address and changes nothing else. *)
Definition deep_clone {Object : Type}
    (Clone : loc -> gmap loc Object -> option loc * gmap loc Object) : Prop :=
  ∀ (l : loc) (h : gmap loc Object) (o : Object),
    h !! l = Some o →
    ∃ l' : loc, h !! l' = None ∧ Clone l h = (Some l', <[l' := o]> h).

(** A [Clone] that allocates a copy of the object with [new]. *)
Definition Clone_by_new {Object : Type} (l : loc) (h : gmap loc Object)
  : option loc * gmap loc Object :=
  match h !! l with
  | Some o => let l' := fresh (dom h) in (Some l', <[l' := o]> h)
  | None => (None, h)
  end.

(** ** ScriptCompany::SetName *)

(** The members of [ScriptError] that [SetName] can record. *)
Inductive ScriptErrorCode : Set :=
  | ERR_PRECONDITION_FAILED
  | ERR_PRECONDITION_STRING_TOO_LONG
  | ERR_PRECONDITION_INVALID_COMPANY.

(** What a function of the script API does to its surroundings, in order:
    it records an error with [ScriptObject::SetLastError], or it hands a
    command to [ScriptObject::DoCommand]. *)
Inductive ScriptEvent : Type :=
  | EvSetLastError (e : ScriptErrorCode)
  | EvDoCommand (tile : TileIndex) (p1 p2 : uint32) (cmd : Commands) (text : string).

(** A computation of the script API: the events it caused and its value. *)
Definition Script (A : Type) : Type := list ScriptEvent * A.

Definition script_ret {A : Type} (a : A) : Script A := ([], a).

Definition script_bind {A B : Type} (m : Script A) (k : A -> Script B) : Script B :=
  let '(ev1, a) := m in let '(ev2, b) := k a in (ev1 ++ ev2, b).

Definition SetLastError (e : ScriptErrorCode) : Script unit := ([EvSetLastError e], tt).

(** Modelled from the spec: the macros [EnforcePreconditionCustomError],
    [EnforcePrecondition] and [EnforceCompanyModeValid] are defined in
    [script_error.hpp], which is not among the sources.  A failed
    precondition makes the call fail before dispatch: the error is
    recorded and the function returns [returnval]; otherwise the rest of
    the body runs. *)
Definition EnforcePreconditionCustomError {A : Type} (returnval : A) (condition : bool)
    (error_code : ScriptErrorCode) (rest : Script A) : Script A :=
  if condition then rest
  else script_bind (SetLastError error_code) (fun _ => script_ret returnval).

Definition EnforcePrecondition {A : Type} (returnval : A) (condition : bool)
    (rest : Script A) : Script A :=
  EnforcePreconditionCustomError returnval condition ERR_PRECONDITION_FAILED rest.

(** [class Text]: the part [SetName] uses. *)
Record Text := { GetDecodedText : string }.

Section ScriptCompany.

(** [ScriptCompanyMode::IsValid()] at the time of the call. *)
Variable ScriptCompanyMode_IsValid : bool.
(** The condition [EnforcePreconditionEncodedText] requires of the decoded
    text. *)
Variable EncodedText_ok : string -> bool.
(** [::Utf8StringLength] and [MAX_LENGTH_COMPANY_NAME_CHARS]. *)
Variable Utf8StringLength : string -> Z.
Variable MAX_LENGTH_COMPANY_NAME_CHARS : Z.
(** What [ScriptObject::DoCommand] returns for a command it is given. *)
Variable DoCommand_returns : TileIndex -> uint32 -> uint32 -> Commands -> string -> bool.

Definition EnforceCompanyModeValid {A : Type} (returnval : A) (rest : Script A) : Script A :=
  EnforcePreconditionCustomError returnval ScriptCompanyMode_IsValid
    ERR_PRECONDITION_INVALID_COMPANY rest.

Definition EnforcePreconditionEncodedText {A : Type} (returnval : A) (text : string)
    (rest : Script A) : Script A :=
  EnforcePrecondition returnval (EncodedText_ok text) rest.

(** [ScriptObject::DoCommand(tile, p1, p2, cmd, text)] *)
Definition ScriptObject_DoCommand (tile : TileIndex) (p1 p2 : uint32) (cmd : Commands)
    (text : string) : Script bool :=
  ([EvDoCommand tile p1 p2 cmd text], DoCommand_returns tile p1 p2 cmd text).

(** [bool ScriptCompany::SetName(Text *name)]; [None] is the null
    pointer. *)
Definition SetName (name : option Text) : Script bool :=
  EnforceCompanyModeValid false (
  EnforcePrecondition false (bool_decide (name ≠ None)) (
  match name with
  | None => script_ret false (* not reached: the precondition above returned *)
  | Some nm =>
    let text := GetDecodedText nm in
    EnforcePreconditionEncodedText false text (
    EnforcePreconditionCustomError false
      (Utf8StringLength text <? MAX_LENGTH_COMPANY_NAME_CHARS)
      ERR_PRECONDITION_STRING_TOO_LONG (
    ScriptObject_DoCommand 0 0 0 CMD_RENAME_COMPANY text))
  end)).

(** Whether a trace hands a command to [ScriptObject::DoCommand]. *)
Definition is_DoCommand (e : ScriptEvent) : bool :=
  match e with EvDoCommand _ _ _ _ _ => true | EvSetLastError _ => false end.

Definition calls_DoCommand {A : Type} (m : Script A) : bool :=
  existsb is_DoCommand (fst m).

(** The error the call leaves in [ScriptObject]'s last-error slot, if it
    recorded one. *)
Definition last_error {A : Type} (m : Script A) : option ScriptErrorCode :=
  last (omap (fun e => match e with EvSetLastError c => Some c | _ => None end) (fst m)).

End ScriptCompany.

(** ** command_func.h: CMD_ERROR and CommandFlagsToDCFlags *)

(** [enum DoCommandFlag] *)
Definition DC_NONE : DoCommandFlag := 0x000.
Definition DC_EXEC : DoCommandFlag := 0x001.
Definition DC_AUTO : DoCommandFlag := 0x002.
Definition DC_QUERY_COST : DoCommandFlag := 0x004.
Definition DC_NO_WATER : DoCommandFlag := 0x008.
Definition DC_NO_TEST_TOWN_RATING : DoCommandFlag := 0x020.
Definition DC_BANKRUPT : DoCommandFlag := 0x040.
Definition DC_AUTOREPLACE : DoCommandFlag := 0x080.
Definition DC_NO_CARGO_CAP_CHECK : DoCommandFlag := 0x100.
Definition DC_ALL_TILES : DoCommandFlag := 0x200.
Definition DC_NO_MODIFY_TOWN_RATING : DoCommandFlag := 0x400.
Definition DC_FORCE_CLEAR_TILE : DoCommandFlag := 0x800.
Definition DC_ALLOW_REMOVE_WATER : DoCommandFlag := 0x1000.
Definition DC_TOWN : DoCommandFlag := 0x2000.

(** [static const CommandCost CMD_ERROR = CommandCost(INVALID_STRING_ID);] *)
Definition CMD_ERROR `{E : ExternTypes} : CommandCost := CommandCost_msg INVALID_STRING_ID.

(** [static inline DoCommandFlag CommandFlagsToDCFlags(CommandFlags cmd_flags)] *)
Definition CommandFlagsToDCFlags (cmd_flags : CommandFlags) : DoCommandFlag :=
  let flags := DC_NONE in
  let flags := if nonzero (cmdflags_and cmd_flags CMD_NO_WATER)
               then Z.lor flags DC_NO_WATER else flags in
  let flags := if nonzero (cmdflags_and cmd_flags CMD_AUTO)
               then Z.lor flags DC_AUTO else flags in
  let flags := if nonzero (cmdflags_and cmd_flags CMD_ALL_TILES)
               then Z.lor flags DC_ALL_TILES else flags in
  flags.

(** ** gfx.cpp: clipping *)

(** [int] values are integers; the arithmetic of the functions below is the
    arithmetic of [int] as long as no intermediate value leaves its range.
    Division is C's, which truncates ([Z.quot]). *)

Section GfxClip.

(** [ZoomLevel] is a number, [ZOOM_LVL_NORMAL] one of its values
    ([zoom_type.h]). *)
Variable ZOOM_LVL_NORMAL : Z.

(** A destination pointer into a video buffer, and [Blitter::MoveTo], which
    moves one by a number of pixels right and down ([blitter/base.hpp]). *)
Context {VideoPtr : Type}.
Variable MoveTo : VideoPtr → Z → Z → VideoPtr.

(** [GB(x, s, n)] of [core/bitmath_func.hpp] and [PALETTE_WIDTH]. *)
Variable GB : Z → Z → Z → Z.
Variable PALETTE_WIDTH : Z.

(** [struct DrawPixelInfo] ([gfx_type.h]), with the members [gfx.cpp]
    uses. *)
Record DrawPixelInfo := {
  dst_ptr : VideoPtr;
  dpi_left : Z;
  dpi_top : Z;
  dpi_width : Z;
  dpi_height : Z;
  dpi_pitch : Z;
  dpi_zoom : Z
}.

(** [enum FillRectMode] *)
Inductive FillRectMode : Set :=
  | FILLRECT_OPAQUE | FILLRECT_CHECKER | FILLRECT_RECOLOUR | FILLRECT_FUNCTOR.

(** The calls [GfxFillRect] makes on the blitter. *)
Inductive BlitterCall : Type :=
  | DrawRect (dst : VideoPtr) (width height : Z) (colour : Z)
  | DrawColourMappingRect (dst : VideoPtr) (width height : Z) (pal : Z)
  | SetPixel (dst : VideoPtr) (x y : Z) (colour : Z).

(** [for (int i = start; i < right; i += 2)]: the values [i] takes.  The
    first argument bounds the number of iterations. *)
Fixpoint every_second (fuel : nat) (i right : Z) : list Z :=
  match fuel with
  | O => []
  | S fuel' => if i <? right then i :: every_second fuel' (i + 2) right else []
  end.

(** The [do ... while (--bottom > 0)] loop of the checker mode, for
    [bottom] lines: each line toggles [bo], sets every second pixel from
    [bo] on and moves [dst] one line down. *)
Fixpoint checker_lines (bottom : nat) (bo : Z) (dst : VideoPtr) (right colour : Z)
  : list BlitterCall :=
  match bottom with
  | O => []
  | S bottom' =>
    let bo := Z.lxor bo 1 in
    ((λ i, SetPixel dst i 0 colour) <$> every_second (Z.to_nat right) bo right)
    ++ checker_lines bottom' bo (MoveTo dst 0 1) right colour
  end.

(** [void GfxFillRect(const DrawPixelInfo *dpi, int left, int top, int right,
    int bottom, int colour, FillRectMode mode)]: the blitter calls it
    makes, or [None] when an assertion fails. *)
Definition GfxFillRect (dpi : DrawPixelInfo) (left top right bottom colour : Z)
    (mode : FillRectMode) : option (list BlitterCall) :=
  let otop := top in
  let oleft := left in
  if negb (dpi_zoom dpi =? ZOOM_LVL_NORMAL) then Some []
  else if (left >? right) || (top >? bottom) then Some []
  else if (right <? dpi_left dpi) || (left >=? dpi_left dpi + dpi_width dpi) then Some []
  else if (bottom <? dpi_top dpi) || (top >=? dpi_top dpi + dpi_height dpi) then Some []
  else
    let left := left - dpi_left dpi in
    let left := if left <? 0 then 0 else left in
    let right := right - dpi_left dpi + 1 in
    let right := if right >? dpi_width dpi then dpi_width dpi else right in
    let right := right - left in
    if negb (right >? 0) then None
    else
      let top := top - dpi_top dpi in
      let top := if top <? 0 then 0 else top in
      let bottom := bottom - dpi_top dpi + 1 in
      let bottom := if bottom >? dpi_height dpi then dpi_height dpi else bottom in
      let bottom := bottom - top in
      if negb (bottom >? 0) then None
      else
        let dst := MoveTo (dst_ptr dpi) left top in
        Some match mode with
             | FILLRECT_RECOLOUR =>
               [DrawColourMappingRect dst right bottom (GB colour 0 PALETTE_WIDTH)]
             | FILLRECT_CHECKER =>
               let bo := Z.land (oleft - left + dpi_left dpi + otop - top + dpi_top dpi) 1 in
               checker_lines (Z.to_nat bottom) bo dst right (to_uint8 colour)
             | _ => [DrawRect dst right bottom (to_uint8 colour)]
             end.

(** [bool FillDrawPixelInfo(DrawPixelInfo *n, int left, int top, int width,
    int height)], with [o] the value of [*_cur_dpi]: the result and what
    [*n] holds afterwards, or [None] when an assertion fails. *)
Definition FillDrawPixelInfo (o n : DrawPixelInfo) (left top width height : Z)
  : option (bool * DrawPixelInfo) :=
  let n := {| dst_ptr := dst_ptr n; dpi_left := dpi_left n; dpi_top := dpi_top n;
              dpi_width := dpi_width n; dpi_height := dpi_height n;
              dpi_pitch := dpi_pitch n; dpi_zoom := ZOOM_LVL_NORMAL |} in
  if negb (width >? 0) then None
  else if negb (height >? 0) then None
  else
    let left := left - dpi_left o in
    let width1 := if left <? 0 then width + left else width in
    if (left <? 0) && (width1 <=? 0) then Some (false, n)
    else
      let n := {| dst_ptr := dst_ptr n; dpi_left := if left <? 0 then - left else 0;
                  dpi_top := dpi_top n; dpi_width := dpi_width n;
                  dpi_height := dpi_height n; dpi_pitch := dpi_pitch n;
                  dpi_zoom := dpi_zoom n |} in
      let left := if left <? 0 then 0 else left in
      let width2 := if width1 >? dpi_width o - left then dpi_width o - left else width1 in
      if (width1 >? dpi_width o - left) && (width2 <=? 0) then Some (false, n)
      else
        let n := {| dst_ptr := dst_ptr n; dpi_left := dpi_left n; dpi_top := dpi_top n;
                    dpi_width := width2; dpi_height := dpi_height n;
                    dpi_pitch := dpi_pitch n; dpi_zoom := dpi_zoom n |} in
        let top := top - dpi_top o in
        let height1 := if top <? 0 then height + top else height in
        if (top <? 0) && (height1 <=? 0) then Some (false, n)
        else
          let n := {| dst_ptr := dst_ptr n; dpi_left := dpi_left n;
                      dpi_top := if top <? 0 then - top else 0;
                      dpi_width := dpi_width n; dpi_height := dpi_height n;
                      dpi_pitch := dpi_pitch n; dpi_zoom := dpi_zoom n |} in
          let top := if top <? 0 then 0 else top in
          let n := {| dst_ptr := MoveTo (dst_ptr o) left top; dpi_left := dpi_left n;
                      dpi_top := dpi_top n; dpi_width := dpi_width n;
                      dpi_height := dpi_height n; dpi_pitch := dpi_pitch o;
                      dpi_zoom := dpi_zoom n |} in
          let height2 :=
            if height1 >? dpi_height o - top then dpi_height o - top else height1 in
          if (height1 >? dpi_height o - top) && (height2 <=? 0) then Some (false, n)
          else
            Some (true, {| dst_ptr := dst_ptr n; dpi_left := dpi_left n;
                           dpi_top := dpi_top n; dpi_width := dpi_width n;
                           dpi_height := height2; dpi_pitch := dpi_pitch n;
                           dpi_zoom := dpi_zoom n |}).

(** [static inline bool GfxPreprocessLine(const DrawPixelInfo *dpi, int &x,
    int &y, int &x2, int &y2, int width)]: the result and the new values
    of [x], [y], [x2], [y2]. *)
Definition GfxPreprocessLine (dpi : DrawPixelInfo) (x y x2 y2 width : Z)
  : bool * (Z * Z * Z * Z) :=
  let x := x - dpi_left dpi in
  let x2 := x2 - dpi_left dpi in
  let y := y - dpi_top dpi in
  let y2 := y2 - dpi_top dpi in
  let r :=
    if (x + width ÷ 2 <? 0) && (x2 + width ÷ 2 <? 0) then false
    else if (y + width ÷ 2 <? 0) && (y2 + width ÷ 2 <? 0) then false
    else if (x - width ÷ 2 >? dpi_width dpi) && (x2 - width ÷ 2 >? dpi_width dpi) then false
    else if (y - width ÷ 2 >? dpi_height dpi) && (y2 - width ÷ 2 >? dpi_height dpi) then false
    else true in
  (r, (x, y, x2, y2)).

End GfxClip.

(** ** gfx.cpp: polygon segments *)

(** [struct Point] *)
Record Point := { pt_x : Z; pt_y : Z }.

(** [typedef std::pair<Point, Point> LineSegment;] *)
Definition LineSegment : Type := Point * Point.

(** The body of the loop of [MakePolygonSegments] over the points that are
    left, with the previous point and the segments made so far. *)
Fixpoint MakePolygonSegments_loop (shape : list Point) (offset prev : Point)
    (segments : list LineSegment) : list LineSegment :=
  match shape with
  | [] => segments
  | pt :: rest =>
    let pt := {| pt_x := pt_x pt - pt_x offset; pt_y := pt_y pt - pt_y offset |} in
    let segments :=
      if pt_y prev >? pt_y pt then segments ++ [(pt, prev)]
      else if pt_y prev <? pt_y pt then segments ++ [(prev, pt)]
      else segments in
    MakePolygonSegments_loop rest offset pt segments
  end.

(** [static std::vector<LineSegment> MakePolygonSegments(const
    std::vector<Point> &shape, Point offset)] *)
Definition MakePolygonSegments (shape : list Point) (offset : Point) : list LineSegment :=
  if (length shape <? 3)%nat then []
  else
    match last shape with
    | None => []
    | Some prev =>
      let prev := {| pt_x := pt_x prev - pt_x offset; pt_y := pt_y prev - pt_y offset |} in
      MakePolygonSegments_loop shape offset prev []
    end.

(** A segment whose first point has the lower Y coordinate. *)
Definition segment_rising (s : LineSegment) : Prop := pt_y (fst s) < pt_y (snd s).

(** ** gfx.cpp: character widths *)

Section StringWidth.

(** [FontSize] is a number; [FS_BEGIN], [FS_MONO] and [FS_END] are
    enumerators of it ([gfx_type.h]).  [GetGlyphWidth] is the width the
    font cache gives for a character ([fontcache.h]). *)
Variable FS_BEGIN FS_MONO FS_END : Z.
Variable GetGlyphWidth : Z → Z → Z.

(** [static byte _stringwidth_table[FS_END][224]]: the byte at a font size
    and an index. *)
Definition stringwidth_table : Type := Z → Z → Z.

Definition stringwidth_table_set (t : stringwidth_table) (fs i v : Z) : stringwidth_table :=
  λ fs' i', if decide (fs' = fs ∧ i' = i) then v else t fs' i'.

(** [void LoadStringWidthTable(bool monospace)]: the table it leaves.  The
    loops run over [fs] from the first font size below the last, and over
    [i] from 0 below 224. *)
Definition LoadStringWidthTable (monospace : bool) (t : stringwidth_table)
  : stringwidth_table :=
  let first := if monospace then FS_MONO else FS_BEGIN in
  let last := if monospace then FS_END else FS_MONO in
  foldl (λ t fs,
           foldl (λ t i, stringwidth_table_set t fs i (to_uint8 (GetGlyphWidth fs (i + 32))))
                 t (seqZ 0 224))
        t (seqZ first (last - first)).

(** [byte GetCharacterWidth(FontSize size, WChar key)] *)
Definition GetCharacterWidth (t : stringwidth_table) (size key : Z) : Z :=
  if (key >=? 32) && (key <? 256) then t size (key - 32)
  else to_uint8 (GetGlyphWidth size key).

(** [byte GetDigitWidth(FontSize size)]: the loop runs over the characters
    from ['0'] to ['9']. *)
Definition GetDigitWidth (t : stringwidth_table) (size : Z) : Z :=
  foldl (λ width c, Z.max (GetCharacterWidth t size c) width) 0 (seqZ 48 10).

(** One round of the loop of [GetBroadestDigit], on the state [(width,
    front, next)]. *)
Definition GetBroadestDigit_step (t : stringwidth_table) (size : Z) (st : Z * Z * Z) (c : Z)
  : Z * Z * Z :=
  let '(width, front, next) := st in
  let w := GetCharacterWidth t size c in
  if w >? width then (w, (if negb (c =? 48) then c - 48 else front), c - 48)
  else st.

(** [void GetBroadestDigit(uint *front, uint *next, FontSize size)]: the
    values of [*front] and [*next] afterwards, from the values before.  The
    loop runs over the characters from ['9'] down to ['0']. *)
Definition GetBroadestDigit (t : stringwidth_table) (front next size : Z) : Z * Z :=
  let '(_, front, next) :=
    foldl (GetBroadestDigit_step t size) (-1, front, next) (reverse (seqZ 48 10)) in
  (front, next).

End StringWidth.

(** ** gfx.cpp: contrast colour *)

(** [struct Colour], the components [GetContrastColour] reads. *)
Record Colour := { col_r : Z; col_g : Z; col_b : Z }.

(** [TextColour GetContrastColour(uint8 background, uint8 threshold)], over
    the palette [_cur_palette.palette] and the enumerators [TC_WHITE] and
    [TC_BLACK] of [TextColour]. *)
Definition GetContrastColour (palette : Z → Colour) (TC_WHITE TC_BLACK : Z)
    (background threshold : Z) : Z :=
  let c := palette background in
  let sq1000_brightness :=
    col_r c * col_r c * 299 + col_g c * col_g c * 587 + col_b c * col_b c * 114 in
  if sq1000_brightness <? threshold * threshold * 1000 then TC_WHITE else TC_BLACK.

(** ** gfx.cpp: the cursor *)

(** [struct CursorVars], the members the functions below use. *)
Record CursorVars := {
  cv_pos : Point;
  cv_delta : Point;
  cv_last_position : Point;
  cv_fix_at : bool;
  cv_queued_warp : bool;
  cv_dirty : bool
}.

(** [void CursorVars::UpdateCursorPositionRelative(int delta_x, int
    delta_y)], over [Clamp] of [core/math_func.hpp] and the width and
    height of [_cur_resolution]. *)
Definition UpdateCursorPositionRelative (Clamp : Z → Z → Z → Z) (res_width res_height : Z)
    (this : CursorVars) (delta_x delta_y : Z) : CursorVars :=
  if cv_fix_at this then
    {| cv_pos := cv_pos this; cv_delta := {| pt_x := delta_x; pt_y := delta_y |};
       cv_last_position := cv_last_position this; cv_fix_at := cv_fix_at this;
       cv_queued_warp := cv_queued_warp this; cv_dirty := cv_dirty this |}
  else
    let last_position_x := pt_x (cv_pos this) in
    let last_position_y := pt_y (cv_pos this) in
    let pos := {| pt_x := Clamp (pt_x (cv_pos this) + delta_x) 0 (res_width - 1);
                  pt_y := Clamp (pt_y (cv_pos this) + delta_y) 0 (res_height - 1) |} in
    {| cv_pos := pos;
       cv_delta := {| pt_x := last_position_x - pt_x pos; pt_y := last_position_y - pt_y pos |};
       cv_last_position := cv_last_position this; cv_fix_at := cv_fix_at this;
       cv_queued_warp := cv_queued_warp this; cv_dirty := true |}.

(** [bool CursorVars::UpdateCursorPosition(int x, int y, bool queued_warp)]:
    the result and the new state. *)
Definition UpdateCursorPosition (this : CursorVars) (x y : Z) (queued_warp : bool)
  : bool * CursorVars :=
  let qw1 := if (x =? pt_x (cv_pos this)) && (y =? pt_y (cv_pos this))
             then false else cv_queued_warp this in
  let delta :=
    {| pt_x := x - (if qw1 then pt_x (cv_last_position this) else pt_x (cv_pos this));
       pt_y := y - (if qw1 then pt_y (cv_last_position this) else pt_y (cv_pos this)) |} in
  let last_position := {| pt_x := x; pt_y := y |} in
  if cv_fix_at this then
    if negb (pt_x delta =? 0) || negb (pt_y delta =? 0) then
      (true, {| cv_pos := cv_pos this; cv_delta := delta; cv_last_position := last_position;
                cv_fix_at := cv_fix_at this; cv_queued_warp := queued_warp;
                cv_dirty := cv_dirty this |})
    else
      (false, {| cv_pos := cv_pos this; cv_delta := delta; cv_last_position := last_position;
                 cv_fix_at := cv_fix_at this; cv_queued_warp := qw1;
                 cv_dirty := cv_dirty this |})
  else if negb (pt_x (cv_pos this) =? x) || negb (pt_y (cv_pos this) =? y) then
    (false, {| cv_pos := {| pt_x := x; pt_y := y |}; cv_delta := delta;
               cv_last_position := last_position; cv_fix_at := cv_fix_at this;
               cv_queued_warp := false; cv_dirty := true |})
  else
    (false, {| cv_pos := cv_pos this; cv_delta := delta; cv_last_position := last_position;
               cv_fix_at := cv_fix_at this; cv_queued_warp := qw1;
               cv_dirty := cv_dirty this |}).

(** The loop of [UpdateCursorSize] over the sprites of the cursor, each
    given by the [offs] and [size] the body computes for it; [first] tells
    whether the round is the one with [i == 0].  The state is
    [(_cursor.total_offs, _cursor.total_size)]. *)
Fixpoint UpdateCursorSize_loop (sprites : list (Point * Point)) (first : bool)
    (total : Point * Point) : Point * Point :=
  match sprites with
  | [] => total
  | (offs, size) :: rest =>
    let total' :=
      if first then (offs, size)
      else
        let '(total_offs, total_size) := total in
        let right := Z.max (pt_x total_offs + pt_x total_size) (pt_x offs + pt_x size) in
        let bottom := Z.max (pt_y total_offs + pt_y total_size) (pt_y offs + pt_y size) in
        let total_offs :=
          {| pt_x := if pt_x offs <? pt_x total_offs then pt_x offs else pt_x total_offs;
             pt_y := if pt_y offs <? pt_y total_offs then pt_y offs else pt_y total_offs |} in
        (total_offs, {| pt_x := right - pt_x total_offs; pt_y := bottom - pt_y total_offs |})
    in
    UpdateCursorSize_loop rest false total'
  end.

(** [void UpdateCursorSize()], given what [GetMaxSpriteID()] returns, the
    length of [_cursor.sprite_seq] and, for the [_cursor.sprite_count]
    sprites in order, the [offs] and [size] computed from the sprite and
    its position: the new [(total_offs, total_size)] and [dirty], or [None]
    when the assertion fails. *)
Definition UpdateCursorSize (GetMaxSpriteID : Z) (capacity : nat)
    (sprites : list (Point * Point)) (total : Point * Point) (dirty : bool)
  : option (Point * Point * bool) :=
  if GetMaxSpriteID =? 0 then Some (total, dirty)
  else if (capacity <? length sprites)%nat then None
  else Some (UpdateCursorSize_loop sprites true total, true).

(** ** script_company.cpp: the other setters that carry a text *)

Section ScriptCompanySetters.
Context `{E : ExternTypes}.

Variable ScriptCompanyMode_IsValid : bool.
Variable EncodedText_ok : string → bool.
Variable Utf8StringLength : string → Z.
Variable MAX_LENGTH_PRESIDENT_NAME_CHARS : Z.
Variable DoCommand_returns : TileIndex → uint32 → uint32 → Commands → string → bool.
(** [Clamp<SQInteger>] of [core/math_func.hpp]. *)
Variable Clamp : Z → Z → Z → Z.
(** The value of a [Money] as [int64]. *)
Variable Money_int64 : Money → Z.

Definition INT16_MIN : Z := -32768.
Definition INT16_MAX : Z := 32767.
Definition UINT32_MAX : Z := 4294967295.

(** [bool ScriptCompany::SetPresidentName(Text *name)] *)
Definition SetPresidentName (name : option Text) : Script bool :=
  EnforceCompanyModeValid ScriptCompanyMode_IsValid false (
  EnforcePrecondition false (bool_decide (name ≠ None)) (
  match name with
  | None => script_ret false (* not reached: the precondition above returned *)
  | Some nm =>
    let text := GetDecodedText nm in
    EnforcePreconditionEncodedText EncodedText_ok false text (
    EnforcePreconditionCustomError false
      (Utf8StringLength text <? MAX_LENGTH_PRESIDENT_NAME_CHARS)
      ERR_PRECONDITION_STRING_TOO_LONG (
    ScriptObject_DoCommand DoCommand_returns 0 0 0 CMD_RENAME_PRESIDENT text))
  end)).

(** [bool ScriptCompany::SetAutoRenewStatus(bool autorenew)] *)
Definition SetAutoRenewStatus (autorenew : bool) : Script bool :=
  EnforceCompanyModeValid ScriptCompanyMode_IsValid false (
  ScriptObject_DoCommand DoCommand_returns 0 0 (if autorenew then 1 else 0)
    CMD_CHANGE_COMPANY_SETTING "company.engine_renew").

(** [bool ScriptCompany::SetAutoRenewMonths(SQInteger months)]; the
    parameter [p2] of the command is a [uint32]. *)
Definition SetAutoRenewMonths (months : Z) : Script bool :=
  EnforceCompanyModeValid ScriptCompanyMode_IsValid false (
  let months := Clamp months INT16_MIN INT16_MAX in
  ScriptObject_DoCommand DoCommand_returns 0 0 (to_uint32 months)
    CMD_CHANGE_COMPANY_SETTING "company.engine_renew_months").

(** [bool ScriptCompany::SetAutoRenewMoney(Money money)] *)
Definition SetAutoRenewMoney (money : Money) : Script bool :=
  EnforceCompanyModeValid ScriptCompanyMode_IsValid false (
  EnforcePrecondition false (Money_int64 money >=? 0) (
  EnforcePrecondition false (Money_int64 money <=? UINT32_MAX) (
  ScriptObject_DoCommand DoCommand_returns 0 0 (to_uint32 (Money_int64 money))
    CMD_CHANGE_COMPANY_SETTING "company.engine_renew_money"))).

End ScriptCompanySetters.

(** A 32-bit unsigned value read as [int32]. *)
Definition to_int32 (x : Z) : Z := if x <? 2 ^ 31 then x else x - 2 ^ 32.

(** What is asked of a [Clamp]: with the bounds in order the result lies
    between them, and a value between them is returned as it is. *)
Definition clamps (Clamp : Z → Z → Z → Z) : Prop :=
  ∀ a lo hi, lo <= hi →
    lo <= Clamp a lo hi <= hi ∧ (lo <= a <= hi → Clamp a lo hi = a).

(** The [Clamp] of two comparisons. *)
Definition Clamp_cmp (a lo hi : Z) : Z :=
  if a <=? lo then lo else if a >=? hi then hi else a.

(** The rectangle from [offs] of the size [size] lies inside the one from
    [total_offs] of the size [total_size]. *)
Definition rect_inside (r total : Point * Point) : Prop :=
  pt_x (fst total) <= pt_x (fst r) ∧
  pt_x (fst r) + pt_x (snd r) <= pt_x (fst total) + pt_x (snd total) ∧
  pt_y (fst total) <= pt_y (fst r) ∧
  pt_y (fst r) + pt_y (snd r) <= pt_y (fst total) + pt_y (snd total).

(** The members of [CommandFlags] other than [CMD_PROCEX]. *)
Definition CommandFlags_but_PROCEX : list CommandFlags :=
  [CMD_SERVER; CMD_SPECTATOR; CMD_OFFLINE; CMD_AUTO; CMD_ALL_TILES; CMD_NO_TEST;
   CMD_NO_WATER; CMD_CLIENT_ID; CMD_DEITY; CMD_STR_CTRL; CMD_NO_EST; CMD_SERVER_NS;
   CMD_LOG_AUX; CMD_P1_TILE].

(** A call that fails before dispatch: it records one error, hands no
    command over and returns false. *)
Definition fails_before_dispatch (m : Script bool) : Prop :=
  ∃ e, m = ([EvSetLastError e], false).

(** A call that dispatches: it records no error, hands one command over
    and returns what [ScriptObject::DoCommand] returns for it. *)
Definition dispatches_once
    (DoCommand_returns : TileIndex → uint32 → uint32 → Commands → string → bool)
    (m : Script bool) : Prop :=
  ∃ tile p1 p2 cmd text,
    m = ([EvDoCommand tile p1 p2 cmd text], DoCommand_returns tile p1 p2 cmd text).

(** ** gfx.cpp: dirty blocks *)

(** [struct Rect], whose members are [left], [top], [right] and [bottom] in
    this order, the order in which [{ left, top, right, bottom }] fills
    them. *)
Record Rect := { rc_left : Z; rc_top : Z; rc_right : Z; rc_bottom : Z }.

(** [r = _dirty_blocks.back(); _dirty_blocks.pop_back();] where [r] is the
    element at the index [start]: the last element is stored there, then
    the last element is dropped. *)
Definition swap_remove (start : nat) (blocks : list Rect) : list Rect :=
  match last blocks with
  | None => blocks
  | Some b => take (length blocks - 1) (<[start := b]> blocks)
  end.

(** [static void AddDirtyBlocks(uint start, int left, int top, int right,
    int bottom)] on the vector [_dirty_blocks]: the vector it leaves.
    [AddDirtyBlocks_loop] is the [for] loop from the index [start] on.  The
    first argument bounds the number of calls and of rounds of the loop;
    [None] is returned when it does not suffice. *)
Fixpoint AddDirtyBlocks (fuel : nat) (start : nat) (left top right bottom : Z)
    (blocks : list Rect) {struct fuel} : option (list Rect) :=
  match fuel with
  | O => None
  | S fuel =>
    if (bottom <=? top) || (right <=? left) then Some blocks
    else AddDirtyBlocks_loop fuel start left top right bottom blocks
  end
with AddDirtyBlocks_loop (fuel : nat) (start : nat) (left top right bottom : Z)
    (blocks : list Rect) {struct fuel} : option (list Rect) :=
  match fuel with
  | O => None
  | S fuel =>
    match blocks !! start with
    | None =>
      Some (blocks ++ [{| rc_left := left; rc_top := top; rc_right := right;
                          rc_bottom := bottom |}])
    | Some r =>
      if (left <=? rc_right r) && (right >=? rc_left r) &&
         (top <=? rc_bottom r) && (bottom >=? rc_top r) then
        (* overlap or contact of some sort *)
        if (left >=? rc_left r) && (right <=? rc_right r) &&
           (top >=? rc_top r) && (bottom <=? rc_bottom r) then
          (* entirely contained by existing *)
          Some blocks
        else if (left <=? rc_left r) && (right >=? rc_right r) &&
                (top <=? rc_top r) && (bottom >=? rc_bottom r) then
          (* entirely contains existing *)
          AddDirtyBlocks_loop fuel start left top right bottom (swap_remove start blocks)
        else if (left <? rc_left r) && (right >? rc_left r) then
          let middle := rc_left r in
          blocks ← AddDirtyBlocks fuel start left top middle bottom blocks;
          AddDirtyBlocks fuel start middle top right bottom blocks
        else if (right >? rc_right r) && (left <? rc_right r) then
          let middle := rc_right r in
          blocks ← AddDirtyBlocks fuel start left top middle bottom blocks;
          AddDirtyBlocks fuel start middle top right bottom blocks
        else if (top <? rc_top r) && (bottom >? rc_top r) then
          let middle := rc_top r in
          blocks ← AddDirtyBlocks fuel start left top right middle blocks;
          AddDirtyBlocks fuel start left middle right bottom blocks
        else if (bottom >? rc_bottom r) && (top <? rc_bottom r) then
          let middle := rc_bottom r in
          blocks ← AddDirtyBlocks fuel start left top right middle blocks;
          AddDirtyBlocks fuel start left middle right bottom blocks
        else AddDirtyBlocks_loop fuel (S start) left top right bottom blocks
      else AddDirtyBlocks_loop fuel (S start) left top right bottom blocks
    end
  end.

(** [void SetDirtyBlocks(int left, int top, int right, int bottom)], over
    [_whole_screen_dirty] and the width and height of [_screen]. *)
Definition SetDirtyBlocks (fuel : nat) (whole_screen_dirty : bool)
    (screen_width screen_height : Z) (left top right bottom : Z) (blocks : list Rect)
  : option (list Rect) :=
  if whole_screen_dirty then Some blocks
  else
    let left := if left <? 0 then 0 else left in
    let top := if top <? 0 then 0 else top in
    let right := if right >? screen_width then screen_width else right in
    let bottom := if bottom >? screen_height then screen_height else bottom in
    AddDirtyBlocks fuel 0 left top right bottom blocks.

(** A pixel lies in a rectangle: the left and top edges belong to it, the
    right and bottom edges do not. *)
Definition in_rect (x y : Z) (r : Rect) : bool :=
  (rc_left r <=? x) && (x <? rc_right r) && (rc_top r <=? y) && (y <? rc_bottom r).

(** The number of rectangles of a list that a pixel lies in. *)
Definition covering (x y : Z) (blocks : list Rect) : nat :=
  length (List.filter (in_rect x y) blocks).

(** The rectangle [{ left, top, right, bottom }]. *)
Definition mk_rect (left top right bottom : Z) : Rect :=
  {| rc_left := left; rc_top := top; rc_right := right; rc_bottom := bottom |}.

(** No two rectangles of the list have a pixel in common. *)
Definition no_overlap (blocks : list Rect) : Prop :=
  ∀ x y, (covering x y blocks ≤ 1)%nat.

(** The [for] loop of [UnsetDirtyBlocks] from the index [i] on, on the
    vector [_dirty_blocks]: the vector it leaves.  [i--; continue;] runs
    the next round at the same index.  The first argument bounds the number
    of rounds; [None] is returned when it does not suffice. *)
Fixpoint UnsetDirtyBlocks_loop (fuel : nat) (i : nat) (left top right bottom : Z)
    (blocks : list Rect) {struct fuel} : option (list Rect) :=
  match fuel with
  | O => None
  | S fuel =>
    match blocks !! i with
    | None => Some blocks
    | Some r =>
      if (left <? rc_right r) && (right >? rc_left r) &&
         (top <? rc_bottom r) && (bottom >? rc_top r) then
        (* overlap of some sort *)
        if (left <=? rc_left r) && (right >=? rc_right r) &&
           (top <=? rc_top r) && (bottom >=? rc_bottom r) then
          (* dirty rect entirely in subtraction area *)
          UnsetDirtyBlocks_loop fuel i left top right bottom (swap_remove i blocks)
        else if rc_left r <? left then
          let n := {| rc_left := left; rc_top := rc_top r; rc_right := rc_right r;
                      rc_bottom := rc_bottom r |} in
          let r := {| rc_left := rc_left r; rc_top := rc_top r; rc_right := left;
                      rc_bottom := rc_bottom r |} in
          UnsetDirtyBlocks_loop fuel (S i) left top right bottom (<[i := r]> blocks ++ [n])
        else if rc_right r >? right then
          let n := {| rc_left := rc_left r; rc_top := rc_top r; rc_right := right;
                      rc_bottom := rc_bottom r |} in
          let r := {| rc_left := right; rc_top := rc_top r; rc_right := rc_right r;
                      rc_bottom := rc_bottom r |} in
          UnsetDirtyBlocks_loop fuel (S i) left top right bottom (<[i := r]> blocks ++ [n])
        else if rc_top r <? top then
          let n := {| rc_left := rc_left r; rc_top := top; rc_right := rc_right r;
                      rc_bottom := rc_bottom r |} in
          let r := {| rc_left := rc_left r; rc_top := rc_top r; rc_right := rc_right r;
                      rc_bottom := top |} in
          UnsetDirtyBlocks_loop fuel (S i) left top right bottom (<[i := r]> blocks ++ [n])
        else if rc_bottom r >? bottom then
          let n := {| rc_left := rc_left r; rc_top := rc_top r; rc_right := rc_right r;
                      rc_bottom := bottom |} in
          let r := {| rc_left := rc_left r; rc_top := bottom; rc_right := rc_right r;
                      rc_bottom := rc_bottom r |} in
          UnsetDirtyBlocks_loop fuel (S i) left top right bottom (<[i := r]> blocks ++ [n])
        else UnsetDirtyBlocks_loop fuel (S i) left top right bottom blocks
      else UnsetDirtyBlocks_loop fuel (S i) left top right bottom blocks
    end
  end.

(** [void UnsetDirtyBlocks(int left, int top, int right, int bottom)], over
    [_whole_screen_dirty]. *)
Definition UnsetDirtyBlocks (fuel : nat) (whole_screen_dirty : bool)
    (left top right bottom : Z) (blocks : list Rect) : option (list Rect) :=
  if whole_screen_dirty then Some blocks
  else UnsetDirtyBlocks_loop fuel 0 left top right bottom blocks.

(** The sides of a rectangle that stick out of the area, and one: the
    number of rounds of the loop of [UnsetDirtyBlocks] that a rectangle
    can cause. *)
Definition sides_outside (left top right bottom : Z) (r : Rect) : nat :=
  (1 + (if (rc_left r <? left)%Z then 1 else 0) +
   (if (rc_right r >? right)%Z then 1 else 0) +
   (if (rc_top r <? top)%Z then 1 else 0) +
   (if (rc_bottom r >? bottom)%Z then 1 else 0))%nat.

(** ** gfx.cpp: the animated cursor *)

(** [struct AnimCursor]: the members [sprite] and [display_time] of an entry
    of an animation. *)
Record AnimCursor := { ac_sprite : Z; ac_display_time : Z }.

(** The members of [_cursor] that the functions of the animated cursor use:
    [sprite_count], the first elements of [sprite_seq] and [sprite_pos],
    [total_offs] and [total_size], [dirty], and the animation.  The array
    that [animate_list] points to is a list, [animate_cur] an index into
    it, [None] for [nullptr]. *)
Record CursorSprites := {
  cs_sprite_count : nat;
  cs_sprite : Z;
  cs_pal : Z;
  cs_sprite_pos : Point;
  cs_total : Point * Point;
  cs_dirty : bool;
  cs_animate_list : list AnimCursor;
  cs_animate_cur : option nat;
  cs_animate_timeout : Z
}.

Definition set_animate_timeout (c : CursorSprites) (v : Z) : CursorSprites :=
  {| cs_sprite_count := cs_sprite_count c; cs_sprite := cs_sprite c; cs_pal := cs_pal c;
     cs_sprite_pos := cs_sprite_pos c; cs_total := cs_total c; cs_dirty := cs_dirty c;
     cs_animate_list := cs_animate_list c; cs_animate_cur := cs_animate_cur c;
     cs_animate_timeout := v |}.

Definition set_animate_cur (c : CursorSprites) (v : option nat) : CursorSprites :=
  {| cs_sprite_count := cs_sprite_count c; cs_sprite := cs_sprite c; cs_pal := cs_pal c;
     cs_sprite_pos := cs_sprite_pos c; cs_total := cs_total c; cs_dirty := cs_dirty c;
     cs_animate_list := cs_animate_list c; cs_animate_cur := v;
     cs_animate_timeout := cs_animate_timeout c |}.

Section AnimatedCursor.

(** [AnimCursor::LAST], [PAL_NONE], what [GetMaxSpriteID()] returns, the
    length of [_cursor.sprite_seq], and the [offs] and [size] that the body
    of the loop of [UpdateCursorSize] computes for a sprite at a position. *)
Variable LAST : Z.
Variable PAL_NONE : Z.
Variable GetMaxSpriteID : Z.
Variable capacity : nat.
Variable sprite_rect : Z → Point → Point * Point.

(** [static void SetCursorSprite(CursorID cursor, PaletteID pal)]; [None]
    when the assertion of [UpdateCursorSize] fails. *)
Definition SetCursorSprite (c : CursorSprites) (cursor pal : Z) : option CursorSprites :=
  if (cs_sprite_count c =? 1)%nat && (cs_sprite c =? cursor) && (cs_pal c =? pal)
  then Some c
  else
    let pos := {| pt_x := 0; pt_y := 0 |} in
    '(total, dirty) ← UpdateCursorSize GetMaxSpriteID capacity [sprite_rect cursor pos]
                        (cs_total c) (cs_dirty c);
    Some {| cs_sprite_count := 1; cs_sprite := cursor; cs_pal := pal;
            cs_sprite_pos := pos; cs_total := total; cs_dirty := dirty;
            cs_animate_list := cs_animate_list c; cs_animate_cur := cs_animate_cur c;
            cs_animate_timeout := cs_animate_timeout c |}.

(** [static void SwitchAnimatedCursor()]; [None] also when [cur] is read
    outside the array. *)
Definition SwitchAnimatedCursor (c : CursorSprites) : option CursorSprites :=
  cur ← match cs_animate_cur c with
        | None => Some 0%nat
        | Some i =>
          e ← cs_animate_list c !! i;
          Some (if ac_sprite e =? LAST then 0%nat else i)
        end;
  e ← cs_animate_list c !! cur;
  c ← SetCursorSprite c (ac_sprite e) (cs_pal c);
  Some (set_animate_cur (set_animate_timeout c (ac_display_time e)) (Some (S cur))).

(** [void CursorTick()] *)
Definition CursorTick (c : CursorSprites) : option CursorSprites :=
  if negb (cs_animate_timeout c =? 0) then
    let c := set_animate_timeout c (cs_animate_timeout c - 1) in
    if cs_animate_timeout c =? 0 then SwitchAnimatedCursor c else Some c
  else Some c.

(** [void SetMouseCursor(CursorID sprite, PaletteID pal)] *)
Definition SetMouseCursor (c : CursorSprites) (sprite pal : Z) : option CursorSprites :=
  SetCursorSprite (set_animate_timeout c 0) sprite pal.

(** [void SetAnimatedMouseCursor(const AnimCursor *table)] *)
Definition SetAnimatedMouseCursor (c : CursorSprites) (table : list AnimCursor)
  : option CursorSprites :=
  SwitchAnimatedCursor
    {| cs_sprite_count := cs_sprite_count c; cs_sprite := cs_sprite c; cs_pal := PAL_NONE;
       cs_sprite_pos := cs_sprite_pos c; cs_total := cs_total c; cs_dirty := cs_dirty c;
       cs_animate_list := table; cs_animate_cur := None;
       cs_animate_timeout := cs_animate_timeout c |}.

(** [n] calls of [CursorTick] in a row. *)
Fixpoint CursorTicks (n : nat) (c : CursorSprites) : option CursorSprites :=
  match n with
  | O => Some c
  | S n => c ← CursorTick c; CursorTicks n c
  end.

(** An animation: one entry or more, none with the sprite [LAST] or the
    display time 0, then the entry with the sprite [LAST] that ends it. *)
Definition animation (entries : list AnimCursor) (table : list AnimCursor) : Prop :=
  entries ≠ [] ∧
  Forall (λ e, ac_sprite e ≠ LAST ∧ 0 < ac_display_time e) entries ∧
  ∃ last rest, ac_sprite last = LAST ∧ table = entries ++ last :: rest.

(** The cursor shows the entry [i] of the animation for [t] more calls of
    [CursorTick]. *)
Definition showing (entries table : list AnimCursor) (c : CursorSprites) (i : nat) (t : Z)
  : Prop :=
  cs_animate_list c = table ∧ cs_animate_cur c = Some (S i) ∧
  cs_animate_timeout c = t ∧ cs_sprite_count c = 1%nat ∧ cs_pal c = PAL_NONE ∧
  ∃ e, entries !! i = Some e ∧ cs_sprite c = ac_sprite e ∧ 1 <= t <= ac_display_time e.

End AnimatedCursor.

(** ** A concrete instance, to run the definitions on examples *)

(** Unbounded integers for [Money], numbers for the expense types, and the
    usual values of the sentinels. *)
Definition Z_types : ExternTypes :=
  {| Money := Z; Money_zero := 0; Money_add := Z.add; Money_mul := Z.mul;
     ExpensesType := Z; INVALID_EXPENSES := 0xFF;
     INVALID_STRING_ID := 0xFFFF; INVALID_TILE := 0xFFFFFFFF |}.

(** ** Inputs for the examples *)

Section ExampleInputs.

Local Existing Instance Z_types.

(** Operands: two successes with costs 100 and 20, two failures with
    errors 7 and 9, a failure with two messages and an auxiliary block,
    and the success with message made from the first failure. *)
Definition ex_cost_100 : CommandCost := CommandCost_expense_cost 3 100.
Definition ex_cost_20 : CommandCost := CommandCost_expense_cost 4 20.
Definition ex_error_7 : CommandCost := CommandCost_msg 7.
Definition ex_error_9 : CommandCost := CommandCost_msg 9.
Definition ex_dual : CommandCost :=
  set_aux_data (DualErrorMessage 5 6)
    (Some {| textref_stack := replicate 16 0; textref_stack_grffile := None;
             textref_stack_size := 0; aux_extra_message := 8;
             aux_tile := 0xFFFFFFFF; aux_result := 42 |}).
Definition ex_warning_7 : CommandCost := set_flags ex_error_7 CCIF_SUCCESS.

(** A name of 32 letters against a limit of 32, with the length counted in
    bytes, which for letters is the number of characters. *)
Definition ex_long_name : Text :=
  {| GetDecodedText := "ABCDEFGHIJKLMNOPQRSTUVWXYZABCDEF" |}.
Definition ex_length (s : string) : Z := Z.of_nat (String.length s).
Definition ex_nonempty (s : string) : bool := negb (String.eqb s "").

(** A free store with one payload, at address 1. *)
Definition ex_heap : gmap loc string := {[ 1%positive := "payload" ]}.

Definition ex_result_42 : CommandCost :=
  set_inl (set_flags ex_cost_100 (ccif_or CCIF_SUCCESS CCIF_INLINE_RESULT)) 42.

(** A success of cost 100 whose auxiliary block holds the result 42, the
    tile 5 and the extra message 8. *)
Definition ex_aux_payload : CommandCost :=
  set_aux_data ex_cost_100
    (Some {| textref_stack := replicate 16 0; textref_stack_grffile := None;
             textref_stack_size := 0; aux_extra_message := 8;
             aux_tile := 5; aux_result := 42 |}).

Definition ex_proc : CommandProc := λ tile flags p1 p2 text, CommandCost_default.
Definition ex_procex : CommandProcEx := λ tile flags p1 p2 p3 text aux, CommandCost_default.

End ExampleInputs.

(** A container with the command word of [CMD_RENAME_COMPANY], two flags
    and an error string. *)
Definition ex_container : CommandContainer :=
  {| cc_tile := 7; cc_p1 := 1; cc_p2 := 2; cc_cmd := 0x12340341; cc_p3 := 3;
     cc_callback := None; cc_text := "name"; cc_aux_data := None |}.

(** A short name, and an amount of money as the number it is. *)
Definition ex_short_name : Text := {| GetDecodedText := "Chairman" |}.

(** ** Inputs for the examples of gfx.cpp *)

(** A video pointer as a position, moved by adding. *)
Definition ex_MoveTo (p : Z * Z) (x y : Z) : Z * Z := (fst p + x, snd p + y).

Definition ex_GB (x s n : Z) : Z := Z.land (Z.shiftr x s) (Z.ones n).

(** A clipping area of 100 by 50 pixels at (10, 20). *)
Definition ex_dpi : @DrawPixelInfo (Z * Z) :=
  {| dst_ptr := (0, 0); dpi_left := 10; dpi_top := 20; dpi_width := 100; dpi_height := 50;
     dpi_pitch := 640; dpi_zoom := 0 |}.

(** A triangle. *)
Definition ex_triangle : list Point :=
  [ {| pt_x := 0; pt_y := 0 |}; {| pt_x := 4; pt_y := 0 |}; {| pt_x := 2; pt_y := 3 |} ].

(** A table in which the digit [d] is [5 + d mod 3] pixels wide: 2, 5 and
    8 are the widest digits. *)
Definition ex_widths : stringwidth_table := λ _ i, 5 + (i - 16) mod 3.

(** A palette of greys. *)
Definition ex_palette (i : Z) : Colour := {| col_r := i; col_g := i; col_b := i |}.

Definition ex_cursor : CursorVars :=
  {| cv_pos := {| pt_x := 630; pt_y := 10 |}; cv_delta := {| pt_x := 0; pt_y := 0 |};
     cv_last_position := {| pt_x := 630; pt_y := 10 |}; cv_fix_at := false;
     cv_queued_warp := false; cv_dirty := false |}.

Definition ex_cursor_fixed : CursorVars :=
  {| cv_pos := {| pt_x := 630; pt_y := 10 |}; cv_delta := {| pt_x := 0; pt_y := 0 |};
     cv_last_position := {| pt_x := 630; pt_y := 10 |}; cv_fix_at := true;
     cv_queued_warp := false; cv_dirty := false |}.

(** Two sprites of a cursor, as offset and size. *)
Definition ex_sprites : list (Point * Point) :=
  [ ({| pt_x := -3; pt_y := -2 |}, {| pt_x := 10; pt_y := 12 |});
    ({| pt_x := 4; pt_y := -5 |}, {| pt_x := 8; pt_y := 6 |}) ].

(** An answer of [ScriptObject::DoCommand]: every command is accepted. *)
Definition ex_returns (tile : TileIndex) (p1 p2 : uint32) (cmd : Commands) (text : string)
  : bool := true.

(** Two dirty rectangles side by side, with a gap between them. *)
Definition ex_blocks : list Rect := [mk_rect 0 0 10 10; mk_rect 20 0 30 10].

(** An animation of two sprites, the first shown for two ticks, and the
    cursor before and after it is started. *)
Definition ex_LAST : Z := 0xFFFFFFFF.

Definition ex_anim_entries : list AnimCursor :=
  [{| ac_sprite := 10; ac_display_time := 2 |}; {| ac_sprite := 11; ac_display_time := 1 |}].

Definition ex_anim_table : list AnimCursor :=
  ex_anim_entries ++ [{| ac_sprite := ex_LAST; ac_display_time := 0 |}].

Definition ex_sprite_rect (sprite : Z) (pos : Point) : Point * Point :=
  (pos, {| pt_x := 32; pt_y := 32 |}).

Definition ex_cursor_sprites : CursorSprites :=
  {| cs_sprite_count := 1; cs_sprite := 1; cs_pal := 0;
     cs_sprite_pos := {| pt_x := 0; pt_y := 0 |};
     cs_total := ({| pt_x := 0; pt_y := 0 |}, {| pt_x := 0; pt_y := 0 |});
     cs_dirty := false; cs_animate_list := []; cs_animate_cur := None;
     cs_animate_timeout := 0 |}.

Definition ex_cursor_animated : CursorSprites :=
  {| cs_sprite_count := 1; cs_sprite := 10; cs_pal := 0;
     cs_sprite_pos := {| pt_x := 0; pt_y := 0 |};
     cs_total := ({| pt_x := 0; pt_y := 0 |}, {| pt_x := 32; pt_y := 32 |});
     cs_dirty := true; cs_animate_list := ex_anim_table; cs_animate_cur := Some 1%nat;
     cs_animate_timeout := 2 |}.

(** * Properties *)

(** ** Bit masks *)

Lemma land_land_cancel (f a b : Z) : Z.land a b = 0 → Z.land (Z.land f a) b = 0.
Proof. intros H. rewrite <- Z.land_assoc, H. apply Z.land_0_r. Qed.

Lemma land_land_keep (f a b : Z) : Z.land a b = b → Z.land (Z.land f a) b = Z.land f b.
Proof. intros H. by rewrite <- Z.land_assoc, H. Qed.

Lemma land_lor_set (f b : Z) : b ≠ 0 → Z.land (Z.lor f b) b ≠ 0.
Proof.
  intros Hb H. rewrite Z.land_lor_distr_l, Z.land_diag in H.
  apply Z.lor_eq_0_iff in H. tauto.
Qed.

Lemma nonzero_false (x : Z) : nonzero x = false ↔ x = 0.
Proof. unfold nonzero. destruct (Z.eqb_spec x 0); simpl; split; congruence. Qed.

Lemma nonzero_true (x : Z) : nonzero x = true ↔ x ≠ 0.
Proof. unfold nonzero. destruct (Z.eqb_spec x 0); simpl; split; congruence. Qed.

(** ** CommandCost *)

Section CommandCostFacts.
Context `{E : ExternTypes}.

Lemma Failed_negb_Succeeded (c : CommandCost) : Failed c = negb (Succeeded c).
Proof. reflexivity. Qed.

Lemma Succeeded_clear_success (c : CommandCost) :
  Succeeded (set_flags c (ccif_and (flags c) (ccif_not CCIF_SUCCESS))) = false.
Proof.
  unfold Succeeded; simpl. apply nonzero_false.
  unfold ccif_and. by apply land_land_cancel.
Qed.

Lemma Succeeded_set_message (c : CommandCost) (m : StringID) :
  Succeeded (set_message c m) = Succeeded c.
Proof. reflexivity. Qed.

Lemma Succeeded_set_cost (c : CommandCost) (m : Money) :
  Succeeded (set_cost c m) = Succeeded c.
Proof. reflexivity. Qed.

Lemma GetErrorMessage_failed (c : CommandCost) :
  Failed c = true → GetErrorMessage c = message c.
Proof.
  rewrite Failed_negb_Succeeded. unfold GetErrorMessage.
  by destruct (Succeeded c).
Qed.

(** C2. Every [CommandCost] answers exactly one of [Succeeded()] and
    [Failed()] with true, whatever its members hold. *)
Theorem Succeeded_Failed_exclusive (c : CommandCost) :
  (Succeeded c = true ∧ Failed c = false) ∨ (Succeeded c = false ∧ Failed c = true).
Proof.
  rewrite Failed_negb_Succeeded.
  destruct (Succeeded c); [left | right]; done.
Qed.

(** C4 (amended). [MakeError(code)] with a code other than
    [INVALID_STRING_ID] leaves a failed value whose error message is [code]
    and whose extra message is cleared, in the inline slot (its flag is
    reset) and in the auxiliary block.  Nothing else of what is stored is
    cleared: the result data, the tile, the cost, the expense type, the
    inline cell and the other members of the auxiliary block are as before.
    With [INVALID_STRING_ID] the assertion fails. *)
Theorem MakeError_forces_failure (c : CommandCost) (code : StringID) :
  (code ≠ INVALID_STRING_ID →
   ∃ c', MakeError c code = Some c' ∧
         Failed c' = true ∧ Succeeded c' = false ∧
         GetErrorMessage c' = code ∧
         GetExtraErrorMessage c' = INVALID_STRING_ID ∧
         ccif_and (flags c') CCIF_INLINE_EXTRA_MSG = 0 ∧
         (∀ a, aux_data c' = Some a → aux_extra_message a = INVALID_STRING_ID) ∧
         GetResultData c' = GetResultData c ∧ GetTile c' = GetTile c ∧
         GetCost c' = GetCost c ∧ GetExpensesType c' = GetExpensesType c ∧
         inl c' = inl c ∧
         aux_data c' = (λ a, set_aux_extra_message a INVALID_STRING_ID) <$> aux_data c ∧
         message c' = code ∧
         flags c' = ccif_and (flags c)
                      (ccif_not (ccif_or CCIF_SUCCESS CCIF_INLINE_EXTRA_MSG)) ∧
         ccif_and (flags c') CCIF_INLINE_RESULT = ccif_and (flags c) CCIF_INLINE_RESULT ∧
         ccif_and (flags c') CCIF_INLINE_TILE = ccif_and (flags c) CCIF_INLINE_TILE) ∧
  MakeError c INVALID_STRING_ID = None.
Proof.
  split.
  - intros Hcode. unfold MakeError. rewrite decide_False by done.
    set (f := ccif_and (flags c) (ccif_not (ccif_or CCIF_SUCCESS CCIF_INLINE_EXTRA_MSG))).
    assert (Hs : ccif_and f CCIF_SUCCESS = 0) by (by apply land_land_cancel).
    assert (Hx : ccif_and f CCIF_INLINE_EXTRA_MSG = 0) by (by apply land_land_cancel).
    assert (Hr : ccif_and f CCIF_INLINE_RESULT = ccif_and (flags c) CCIF_INLINE_RESULT)
      by (by apply land_land_keep).
    assert (Ht : ccif_and f CCIF_INLINE_TILE = ccif_and (flags c) CCIF_INLINE_TILE)
      by (by apply land_land_keep).
    eexists; split; [reflexivity |].
    destruct c as [cst ex fl msg il [a|]]; simpl in *;
      unfold Failed, Succeeded, GetErrorMessage, GetExtraErrorMessage, Succeeded,
        GetResultData, GetTile; simpl;
      fold f; rewrite Hs, Hx, Hr, Ht; simpl; repeat split; try done.
    intros a' [= <-]. done.
  - unfold MakeError. by rewrite decide_True.
Qed.

(** X22. The result payload and the tile are not touched by [MakeError]. *)
Lemma MakeError_keeps_result_and_tile (c c' : CommandCost) (code : StringID) :
  MakeError c code = Some c' →
  GetResultData c' = GetResultData c ∧ GetTile c' = GetTile c ∧
  GetCost c' = GetCost c ∧ GetExpensesType c' = GetExpensesType c.
Proof.
  unfold MakeError. case_decide; [done |]. intros [= <-].
  assert (Hr : ∀ f, ccif_and (ccif_and f (ccif_not (ccif_or CCIF_SUCCESS CCIF_INLINE_EXTRA_MSG)))
                      CCIF_INLINE_RESULT = ccif_and f CCIF_INLINE_RESULT)
    by (intros f; by apply land_land_keep).
  assert (Ht : ∀ f, ccif_and (ccif_and f (ccif_not (ccif_or CCIF_SUCCESS CCIF_INLINE_EXTRA_MSG)))
                      CCIF_INLINE_TILE = ccif_and f CCIF_INLINE_TILE)
    by (intros f; by apply land_land_keep).
  destruct c as [cst ex fl msg il [a|]]; simpl;
    unfold GetResultData, GetTile; simpl; rewrite Hr, Ht; done.
Qed.

(** C5 (amended). [AddCost(money)] on a failed value leaves it failed, with
    the same error messages, expense type, flags and payload; the stored
    cost is still increased by the amount. *)
Theorem AddCost_on_failed (c : CommandCost) (m : Money) :
  Failed c = true →
  Failed (AddCost c m) = true ∧
  GetErrorMessage (AddCost c m) = GetErrorMessage c ∧
  GetExtraErrorMessage (AddCost c m) = GetExtraErrorMessage c ∧
  GetExpensesType (AddCost c m) = GetExpensesType c ∧
  flags (AddCost c m) = flags c ∧ message (AddCost c m) = message c ∧
  inl (AddCost c m) = inl c ∧ aux_data (AddCost c m) = aux_data c ∧
  GetCost (AddCost c m) = Money_add (GetCost c) m.
Proof. intros Hf. repeat split; done. Qed.

Lemma IsSuccessWithMessage_inv (c : CommandCost) :
  IsSuccessWithMessage c = true → Succeeded c = true ∧ message c ≠ INVALID_STRING_ID.
Proof.
  unfold IsSuccessWithMessage. intros [Hs Hm]%andb_true_iff. split; [done |].
  by apply negb_true_iff, bool_decide_eq_false in Hm.
Qed.

Lemma UnwrapSuccessWithMessage_Some (c : CommandCost) :
  IsSuccessWithMessage c = true →
  UnwrapSuccessWithMessage c
  = Some (set_flags c (ccif_and (flags c) (ccif_not CCIF_SUCCESS))).
Proof. intros H. unfold UnwrapSuccessWithMessage. by rewrite H. Qed.

Lemma GetErrorMessage_unwrapped (c : CommandCost) :
  GetErrorMessage (set_flags c (ccif_and (flags c) (ccif_not CCIF_SUCCESS))) = message c.
Proof. unfold GetErrorMessage. by rewrite Succeeded_clear_success. Qed.

(** C3 (amended). On a value in the success-with-message substate,
    [UnwrapSuccessWithMessage()] returns a copy with the success flag
    cleared and nothing else changed: a failed value whose error message is
    the stored message, with the cost, the expense type, the message, the
    other flags and the payload (inline cell, auxiliary block, result data
    and tile) of the original.  On any other value the assertion fails. *)
Theorem UnwrapSuccessWithMessage_clears_success (c : CommandCost) :
  (IsSuccessWithMessage c = true →
   ∃ r, UnwrapSuccessWithMessage c = Some r ∧
        Failed r = true ∧ Succeeded r = false ∧ IsPlainSuccess r = false ∧
        message c ≠ INVALID_STRING_ID ∧ GetErrorMessage r = message c ∧
        GetCost r = GetCost c ∧ GetExpensesType r = GetExpensesType c ∧
        inl r = inl c ∧ aux_data r = aux_data c ∧
        message r = message c ∧
        flags r = ccif_and (flags c) (ccif_not CCIF_SUCCESS) ∧
        ccif_and (flags r) CCIF_INLINE_EXTRA_MSG = ccif_and (flags c) CCIF_INLINE_EXTRA_MSG ∧
        ccif_and (flags r) CCIF_INLINE_TILE = ccif_and (flags c) CCIF_INLINE_TILE ∧
        ccif_and (flags r) CCIF_INLINE_RESULT = ccif_and (flags c) CCIF_INLINE_RESULT ∧
        GetResultData r = GetResultData c ∧ GetTile r = GetTile c) ∧
  (IsSuccessWithMessage c = false → UnwrapSuccessWithMessage c = None).
Proof.
  split; intros H.
  - eexists; split; [by apply UnwrapSuccessWithMessage_Some |].
    pose proof (Succeeded_clear_success c) as Hs.
    destruct (IsSuccessWithMessage_inv c H) as [_ Hm].
    rewrite GetErrorMessage_unwrapped.
    unfold IsPlainSuccess. rewrite Failed_negb_Succeeded, Hs.
    assert (Hx : ccif_and (ccif_and (flags c) (ccif_not CCIF_SUCCESS)) CCIF_INLINE_EXTRA_MSG
                 = ccif_and (flags c) CCIF_INLINE_EXTRA_MSG) by (by apply land_land_keep).
    assert (Ht : ccif_and (ccif_and (flags c) (ccif_not CCIF_SUCCESS)) CCIF_INLINE_TILE
                 = ccif_and (flags c) CCIF_INLINE_TILE) by (by apply land_land_keep).
    assert (Hr : ccif_and (ccif_and (flags c) (ccif_not CCIF_SUCCESS)) CCIF_INLINE_RESULT
                 = ccif_and (flags c) CCIF_INLINE_RESULT) by (by apply land_land_keep).
    unfold GetResultData, GetTile. cbn [flags set_flags inl aux_data message].
    rewrite Hx, Ht, Hr. repeat split; done.
  - unfold UnwrapSuccessWithMessage. by rewrite H.
Qed.

(** C10. A value that succeeded answers [INVALID_STRING_ID] to both
    [GetErrorMessage()] and [GetExtraErrorMessage()], also in the
    success-with-message substate, where [message] holds something else;
    a failed value answers [GetErrorMessage()] with the stored message, and
    so does the result of unwrapping a success with message. *)
Theorem success_hides_messages (c : CommandCost) :
  (Succeeded c = true →
   GetErrorMessage c = INVALID_STRING_ID ∧ GetExtraErrorMessage c = INVALID_STRING_ID) ∧
  (IsSuccessWithMessage c = true →
   message c ≠ INVALID_STRING_ID ∧ GetErrorMessage c = INVALID_STRING_ID ∧
   GetExtraErrorMessage c = INVALID_STRING_ID ∧
   ∃ r, UnwrapSuccessWithMessage c = Some r ∧ GetErrorMessage r = message c) ∧
  (Failed c = true → GetErrorMessage c = message c).
Proof.
  assert (Hhide : Succeeded c = true →
    GetErrorMessage c = INVALID_STRING_ID ∧ GetExtraErrorMessage c = INVALID_STRING_ID).
  { intros Hs. unfold GetErrorMessage, GetExtraErrorMessage. by rewrite Hs. }
  split; [done | split].
  - intros H. destruct (IsSuccessWithMessage_inv c H) as [Hs Hm].
    destruct (Hhide Hs) as [He Hx]. repeat split; try done.
    eexists; split; [by apply UnwrapSuccessWithMessage_Some |].
    apply GetErrorMessage_unwrapped.
  - apply GetErrorMessage_failed.
Qed.

(** C1. With [AddCost(const CommandCost &)] as the specification describes
    it: when neither value failed, the cost of the accumulator becomes the
    sum of the two costs, its expense type stays and it still succeeds;
    when the accumulator had failed it stays failed with its own error;
    when only the added value failed the accumulator becomes failed with
    the error of the added value. *)
Theorem AddCost_cmd_cost_sums_or_fails (a b : CommandCost) :
  (Failed a = false → Failed b = false →
   GetCost (AddCost_cmd_cost a b) = Money_add (GetCost a) (GetCost b) ∧
   GetExpensesType (AddCost_cmd_cost a b) = GetExpensesType a ∧
   Failed (AddCost_cmd_cost a b) = false) ∧
  (Failed a = true →
   Failed (AddCost_cmd_cost a b) = true ∧
   GetErrorMessage (AddCost_cmd_cost a b) = GetErrorMessage a ∧
   GetExpensesType (AddCost_cmd_cost a b) = GetExpensesType a) ∧
  (Failed a = false → Failed b = true →
   Failed (AddCost_cmd_cost a b) = true ∧
   GetErrorMessage (AddCost_cmd_cost a b) = GetErrorMessage b ∧
   GetExpensesType (AddCost_cmd_cost a b) = GetExpensesType a).
Proof.
  unfold AddCost_cmd_cost. split; [| split].
  - intros Ha Hb. rewrite Hb. repeat split; done.
  - intros Ha. destruct (Failed b) eqn:Hb; rewrite ?Ha; repeat split; done.
  - intros Ha Hb. rewrite Hb, Ha.
    rewrite (GetErrorMessage_failed b Hb).
    unfold GetErrorMessage. rewrite Failed_negb_Succeeded, Succeeded_set_message.
    rewrite Succeeded_clear_success. repeat split; done.
Qed.

End CommandCostFacts.

(** ** Command identifiers and the command word *)

Lemma Commands_enumerators_dense :
  Commands_value <$> Commands_enumerators = seqZ 0 211.
Proof. reflexivity. Qed.

Lemma Commands_value_range (c : Commands) :
  0 <= Commands_value c <= Commands_value CMD_END.
Proof. destruct c; simpl; lia. Qed.

Lemma land_shiftl_low (x k m : Z) :
  0 <= k → 0 <= m < 2 ^ k → Z.land (Z.shiftl x k) m = 0.
Proof.
  intros Hk Hm.
  destruct (Z.eq_dec m 0) as [-> | Hm0]; [apply Z.land_0_r |].
  apply Z.bits_inj'. intros n Hn.
  rewrite Z.land_spec, Z.bits_0, Z.shiftl_spec by done.
  destruct (Z.lt_ge_cases n k) as [Hlt | Hge].
  - by rewrite Z.testbit_neg_r by lia.
  - rewrite (Z.bits_above_log2 m n); [apply andb_false_r | lia |].
    assert (Z.log2 m < k) by (apply Z.log2_lt_pow2; lia). lia.
Qed.

Lemma land_byte (x : Z) : 0 <= x < 256 → Z.land x 0xFF = x.
Proof.
  intros Hx. change 0xFF with (Z.ones 8).
  rewrite Z.land_ones by lia. by apply Z.mod_small.
Qed.

Lemma land_to_uint32 (x m : Z) : 0 <= m < 2 ^ 32 → Z.land (to_uint32 x) m = Z.land x m.
Proof.
  intros Hm. unfold to_uint32. rewrite <- Z.land_ones by lia.
  rewrite <- Z.land_assoc. f_equal.
  rewrite Z.land_comm, Z.land_ones by lia. by apply Z.mod_small.
Qed.

Lemma testbit_to_uint32 (x n : Z) :
  0 <= n → Z.testbit (to_uint32 x) n = (n <? 32) && Z.testbit x n.
Proof.
  intros Hn. unfold to_uint32. destruct (Z.ltb_spec n 32).
  - by rewrite Z.mod_pow2_bits_low by lia.
  - by rewrite Z.mod_pow2_bits_high by lia.
Qed.

Lemma testbit_low16 (x n : Z) : 0 <= x < 2 ^ 16 → 16 <= n → Z.testbit x n = false.
Proof.
  intros Hx Hn. destruct (Z.eq_dec x 0) as [-> | Hx0]; [apply Z.bits_0 |].
  apply Z.bits_above_log2; [lia |].
  assert (Z.log2 x < 16) by (apply Z.log2_lt_pow2; lia). lia.
Qed.

Lemma command_word_id (c : Commands) (fl : Z) (msg : StringID) :
  Z.land fl CMD_FLAGS_MASK = fl →
  Z.land (command_word c fl msg) CMD_ID_MASK = Commands_value c.
Proof.
  intros Hfl. unfold command_word, CMD_MSG.
  pose proof (Commands_value_range c) as Hc. simpl in Hc.
  rewrite land_to_uint32 by (unfold CMD_ID_MASK; lia).
  rewrite !Z.land_lor_distr_l.
  rewrite land_to_uint32 by (unfold CMD_ID_MASK; lia).
  rewrite (land_shiftl_low msg 16 CMD_ID_MASK) by (unfold CMD_ID_MASK; lia).
  rewrite <- Hfl, (land_land_cancel fl CMD_FLAGS_MASK CMD_ID_MASK) by done.
  unfold CMD_ID_MASK. rewrite land_byte by lia.
  by rewrite !Z.lor_0_r.
Qed.

Lemma command_word_flags (c : Commands) (fl : Z) (msg : StringID) :
  Z.land fl CMD_FLAGS_MASK = fl →
  Z.land (command_word c fl msg) CMD_FLAGS_MASK = fl.
Proof.
  intros Hfl. unfold command_word, CMD_MSG.
  pose proof (Commands_value_range c) as Hc. simpl in Hc.
  rewrite land_to_uint32 by (unfold CMD_FLAGS_MASK; lia).
  rewrite !Z.land_lor_distr_l.
  rewrite land_to_uint32 by (unfold CMD_FLAGS_MASK; lia).
  rewrite (land_shiftl_low msg 16 CMD_FLAGS_MASK) by (unfold CMD_FLAGS_MASK; lia).
  rewrite Hfl, <- (land_byte (Commands_value c)) by lia.
  rewrite (land_land_cancel (Commands_value c) 0xFF CMD_FLAGS_MASK) by done.
  by rewrite Z.lor_0_r, Z.lor_0_l.
Qed.

(** C6. [CMD_END] is at most [CMD_ID_MASK + 1], which is 256, so every
    command identifier lies in one byte; in a command word built from a
    command, flags inside [CMD_FLAGS_MASK] and an error string, the mask
    [CMD_ID_MASK] gives back the command and the mask [CMD_FLAGS_MASK]
    gives back exactly the flags; [CMD_NETWORK_COMMAND] and
    [CMD_NO_SHIFT_ESTIMATE] lie inside [CMD_FLAGS_MASK] and outside
    [CMD_ID_MASK]. *)
Theorem command_id_fits_one_byte :
  Commands_value CMD_END <= CMD_ID_MASK + 1 ∧
  CMD_ID_MASK + 1 = 256 ∧
  static_assert_CMD_END = true ∧
  (∀ c : Commands, 0 <= Commands_value c <= CMD_ID_MASK) ∧
  (∀ (c : Commands) (fl : Z) (msg : StringID),
     Z.land fl CMD_FLAGS_MASK = fl →
     Z.land (command_word c fl msg) CMD_ID_MASK = Commands_value c ∧
     Z.land (command_word c fl msg) CMD_FLAGS_MASK = fl) ∧
  Z.land CMD_FLAGS_MASK CMD_ID_MASK = 0 ∧
  Z.land CMD_NETWORK_COMMAND CMD_FLAGS_MASK = CMD_NETWORK_COMMAND ∧
  Z.land CMD_NETWORK_COMMAND CMD_ID_MASK = 0 ∧
  Z.land CMD_NO_SHIFT_ESTIMATE CMD_FLAGS_MASK = CMD_NO_SHIFT_ESTIMATE ∧
  Z.land CMD_NO_SHIFT_ESTIMATE CMD_ID_MASK = 0.
Proof.
  split; [by vm_compute |]. split; [done |]. split; [done |].
  split. { intros c. pose proof (Commands_value_range c) as Hc. simpl in Hc.
           unfold CMD_ID_MASK. lia. }
  split. { intros c fl msg Hfl. split.
           - by apply command_word_id.
           - by apply command_word_flags. }
  repeat split; done.
Qed.

(** X23. [DoCommand] on a container hands [DoCommandEx] the command identifier
    without the flags and the error string of the command word. *)
Lemma DoCommand_container_masks {R : Type} (DoCommandEx : TileIndex → uint32 → uint32 →
    uint64 → DoCommandFlag → uint32 → option string → option loc → R)
    (container : CommandContainer) (flags : DoCommandFlag)
    (c : Commands) (fl : Z) (msg : StringID) :
  Z.land fl CMD_FLAGS_MASK = fl →
  cc_cmd container = command_word c fl msg →
  DoCommand_container DoCommandEx container flags
  = DoCommandEx (cc_tile container) (cc_p1 container) (cc_p2 container) (cc_p3 container)
                flags (Commands_value c) (Some (cc_text container)) (cc_aux_data container).
Proof.
  intros Hfl Hcmd. unfold DoCommand_container. by rewrite Hcmd, command_word_id.
Qed.

(** ** Command descriptors *)

Section CommandFacts.
Context `{E : ExternTypes}.

Lemma cmd_flags_of_proc (proc : CommandProc) nm fl ty :
  cmdflags_and (cmd_flags (Command_of_proc proc nm fl ty)) CMD_PROCEX = 0.
Proof. simpl. unfold cmdflags_and. by apply land_land_cancel. Qed.

Lemma cmd_flags_of_procex (procex : CommandProcEx) nm fl ty :
  cmdflags_and (cmd_flags (Command_of_procex procex nm fl ty)) CMD_PROCEX ≠ 0.
Proof. simpl. unfold cmdflags_and, cmdflags_or. by apply land_lor_set. Qed.

(** C7. A descriptor built from a [CommandProc] has [CMD_PROCEX] clear,
    whatever flags were passed, and [Execute] calls [proc]; one built from
    a [CommandProcEx] has [CMD_PROCEX] set and [Execute] calls [procex]:
    the member of the union that [Execute] reads is the one the
    constructor stored. *)
Theorem Execute_reads_stored_member
    (proc : CommandProc) (procex : CommandProcEx) (nm : string) (fl : CommandFlags)
    (ty : CommandType) (tile : TileIndex) (flags : DoCommandFlag) (p1 p2 : uint32)
    (p3 : uint64) (text : option string) (aux : option loc) :
  let c1 := Command_of_proc proc nm fl ty in
  let c2 := Command_of_procex procex nm fl ty in
  (cmdflags_and (cmd_flags c1) CMD_PROCEX = 0 ∧
   selected c1 = SelectsProc ∧ active c1 = SelectsProc ∧
   Execute c1 tile flags p1 p2 p3 text aux = Some (proc tile flags p1 p2 text)) ∧
  (cmdflags_and (cmd_flags c2) CMD_PROCEX ≠ 0 ∧
   selected c2 = SelectsProcEx ∧ active c2 = SelectsProcEx ∧
   Execute c2 tile flags p1 p2 p3 text aux = Some (procex tile flags p1 p2 p3 text aux)).
Proof.
  intros c1 c2.
  pose proof (cmd_flags_of_proc proc nm fl ty) as H1.
  pose proof (cmd_flags_of_procex procex nm fl ty) as H2.
  fold c1 in H1. fold c2 in H2.
  split.
  - unfold selected, Execute. rewrite H1. done.
  - apply nonzero_true in H2 as H2'.
    unfold selected, Execute. rewrite H2'. done.
Qed.

(** A descriptor whose flag does not match the stored member, which no
    constructor builds, makes [Execute] read the inactive member. *)
Lemma Execute_mismatch (proc : CommandProc) (nm : string) (ty : CommandType) tile flags
    p1 p2 p3 text aux :
  Execute {| handler := union_proc proc; name := nm; cmd_flags := CMD_PROCEX; type := ty |}
          tile flags p1 p2 p3 text aux = None.
Proof. reflexivity. Qed.

End CommandFacts.

(** ** Copies of the auxiliary payload *)

Section CommandAuxiliaryFacts.
Context {Object : Type}.
Variable Clone : loc → gmap loc Object → option loc * gmap loc Object.
Hypothesis Clone_deep : deep_clone Clone.

Lemma CommandAuxiliaryPtr_Clone_null (h : gmap loc Object) :
  CommandAuxiliaryPtr_Clone Clone None h = (None, h).
Proof. reflexivity. Qed.

Lemma CommandAuxiliaryPtr_Clone_live (l : loc) (o : Object) (h : gmap loc Object) :
  h !! l = Some o →
  ∃ l', l' ≠ l ∧ h !! l' = None ∧
        CommandAuxiliaryPtr_Clone Clone (Some l) h = (Some l', <[l' := o]> h).
Proof.
  intros Hl. destruct (Clone_deep l h o Hl) as (l' & Hfresh & HC).
  exists l'. split; [| done]. intros ->. congruence.
Qed.

(** After a clone at a fresh address, the two objects are separate cells
    of the free store: each survives a write to, and the deletion of, the
    other. *)
Lemma fresh_cell_independent (h : gmap loc Object) (l l' : loc) (o : Object) :
  l' ≠ l → h !! l = Some o →
  let h' := <[l' := o]> h in
  h' !! l = Some o ∧ h' !! l' = Some o ∧
  (∀ o', <[l' := o']> h' !! l = Some o) ∧
  (∀ o', <[l := o']> h' !! l' = Some o) ∧
  delete l' h' !! l = Some o ∧
  delete l h' !! l' = Some o.
Proof.
  intros Hne Hl h'. unfold h'.
  repeat split; intros; by simplify_map_eq.
Qed.

(** C9. With a [Clone] that clones deeply: the copy constructor and the
    copy assignment of [CommandAuxiliaryPtr] give a pointer to a new object
    equal to the one pointed to, at an address that was not in use, and the
    original and the copy survive writes to and the deletion of each other;
    the assignment also deletes what the target owned before.  A null
    pointer is copied to a null pointer and allocates nothing.  The copy of
    a [CommandContainer] keeps the other members and clones [aux_data] in
    this way. *)
Theorem CommandAuxiliaryPtr_copy_is_deep (h : gmap loc Object) :
  (CommandAuxiliaryPtr_copy Clone None h = (None, h) ∧
   (∀ this, ∃ h', CommandAuxiliaryPtr_assign Clone this None h = (None, h') ∧
                  ∀ l, this ≠ Some l → h' !! l = h !! l) ∧
   (∀ cc, cc_aux_data cc = None → CommandContainer_copy Clone cc h = (cc, h))) ∧
  (∀ (l : loc) (o : Object), h !! l = Some o →
   ∃ l', l' ≠ l ∧ h !! l' = None ∧
     CommandAuxiliaryPtr_copy Clone (Some l) h = (Some l', <[l' := o]> h) ∧
     (let h' := <[l' := o]> h in
      h' !! l = Some o ∧ h' !! l' = Some o ∧
      (∀ o', <[l' := o']> h' !! l = Some o) ∧
      (∀ o', <[l := o']> h' !! l' = Some o) ∧
      delete l' h' !! l = Some o ∧
      delete l h' !! l' = Some o) ∧
     (∀ this, owns h this →
              ∃ h', CommandAuxiliaryPtr_assign Clone this (Some l) h = (Some l', h') ∧
                    h' !! l' = Some o ∧ (this ≠ Some l → h' !! l = Some o) ∧
                    (∀ old, this = Some old → h' !! old = None)) ∧
     (∀ cc, cc_aux_data cc = Some l →
            ∃ cc', CommandContainer_copy Clone cc h = (cc', <[l' := o]> h) ∧
                   cc_aux_data cc' = Some l' ∧
                   cc_tile cc' = cc_tile cc ∧ cc_p1 cc' = cc_p1 cc ∧
                   cc_p2 cc' = cc_p2 cc ∧ cc_cmd cc' = cc_cmd cc ∧
                   cc_p3 cc' = cc_p3 cc ∧ cc_callback cc' = cc_callback cc ∧
                   cc_text cc' = cc_text cc)).
Proof.
  split.
  - split; [done |]. split.
    + intros this. unfold CommandAuxiliaryPtr_assign, unique_ptr_reset. simpl.
      eexists; split; [reflexivity |].
      intros l Hl. destruct this as [old |]; [| done].
      apply lookup_delete_ne. congruence.
    + intros [t p1 p2 c p3 cb tx a]; simpl. intros ->. done.
  - intros l o Hl.
    destruct (CommandAuxiliaryPtr_Clone_live l o h Hl) as (l' & Hne & Hfresh & HC).
    exists l'. split; [done |]. split; [done |]. split; [done |].
    split; [by apply fresh_cell_independent |]. split.
    + intros this Hthis. unfold CommandAuxiliaryPtr_assign, unique_ptr_reset. rewrite HC.
      eexists; split; [reflexivity |].
      destruct this as [old |]; simpl in Hthis.
      * assert (old ≠ l') as Hold by (intros ->; rewrite Hfresh in Hthis; by destruct Hthis).
        split; [by simplify_map_eq |]. split.
        -- intros Hol. assert (old ≠ l) by congruence. by simplify_map_eq.
        -- intros ? [= <-]. by simplify_map_eq.
      * split; [by simplify_map_eq |]. split; [intros _; by simplify_map_eq | done].
    + intros [t p1 p2 c p3 cb tx a]; simpl. intros ->.
      unfold CommandContainer_copy, CommandAuxiliaryPtr_copy.
      cbn [cc_aux_data]. rewrite HC.
      eexists; split; [reflexivity |]. done.
Qed.

End CommandAuxiliaryFacts.

Lemma Clone_by_new_deep {Object : Type} : deep_clone (@Clone_by_new Object).
Proof.
  intros l h o Hl. exists (fresh (dom h)). split.
  - apply not_elem_of_dom, is_fresh.
  - unfold Clone_by_new. by rewrite Hl.
Qed.

(** ** ScriptCompany::SetName *)

Section ScriptCompanyFacts.
Variable ScriptCompanyMode_IsValid : bool.
Variable EncodedText_ok : string → bool.
Variable Utf8StringLength : string → Z.
Variable MAX_LENGTH_COMPANY_NAME_CHARS : Z.
Variable DoCommand_returns : TileIndex → uint32 → uint32 → Commands → string → bool.

Local Abbreviation SetName' :=
  (SetName ScriptCompanyMode_IsValid EncodedText_ok Utf8StringLength
           MAX_LENGTH_COMPANY_NAME_CHARS DoCommand_returns).

(** A failed precondition records its error, returns the value it was
    given and runs nothing of the rest. *)
Lemma EnforcePreconditionCustomError_false {A : Type} (returnval : A) (e : ScriptErrorCode)
    (rest : Script A) :
  EnforcePreconditionCustomError returnval false e rest = ([EvSetLastError e], returnval).
Proof. reflexivity. Qed.

(** C8. When the decoded name has [MAX_LENGTH_COMPANY_NAME_CHARS] or more
    characters, [SetName] returns false and does not call
    [ScriptObject::DoCommand]; when the checks before the length check pass
    (valid company mode, accepted text), all it does is record
    [ERR_PRECONDITION_STRING_TOO_LONG]. *)
Theorem SetName_too_long_fails_before_dispatch (name : Text) :
  MAX_LENGTH_COMPANY_NAME_CHARS <= Utf8StringLength (GetDecodedText name) →
  snd (SetName' (Some name)) = false ∧
  calls_DoCommand (SetName' (Some name)) = false ∧
  (ScriptCompanyMode_IsValid = true → EncodedText_ok (GetDecodedText name) = true →
   SetName' (Some name) = ([EvSetLastError ERR_PRECONDITION_STRING_TOO_LONG], false) ∧
   last_error (SetName' (Some name)) = Some ERR_PRECONDITION_STRING_TOO_LONG).
Proof.
  intros Hlen.
  assert (Hlt : (Utf8StringLength (GetDecodedText name) <? MAX_LENGTH_COMPANY_NAME_CHARS)
                = false) by (apply Z.ltb_ge; lia).
  unfold SetName, EnforceCompanyModeValid, EnforcePreconditionEncodedText,
    EnforcePrecondition.
  rewrite Hlt.
  destruct ScriptCompanyMode_IsValid, (EncodedText_ok (GetDecodedText name));
    repeat split; try done.
Qed.

(** With every precondition met, [SetName] hands [CMD_RENAME_COMPANY] with
    the decoded text to [ScriptObject::DoCommand] and returns its answer. *)
Lemma SetName_dispatches (name : Text) :
  ScriptCompanyMode_IsValid = true → EncodedText_ok (GetDecodedText name) = true →
  Utf8StringLength (GetDecodedText name) < MAX_LENGTH_COMPANY_NAME_CHARS →
  SetName' (Some name)
  = ([EvDoCommand 0 0 0 CMD_RENAME_COMPANY (GetDecodedText name)],
     DoCommand_returns 0 0 0 CMD_RENAME_COMPANY (GetDecodedText name)).
Proof.
  intros Hv Hok Hlen. apply Z.ltb_lt in Hlen.
  unfold SetName, EnforceCompanyModeValid, EnforcePreconditionEncodedText,
    EnforcePrecondition. by rewrite Hv, Hok, Hlen.
Qed.

(** A null name fails before dispatch too. *)
Lemma SetName_null : calls_DoCommand (SetName' None) = false ∧ snd (SetName' None) = false.
Proof.
  unfold SetName, EnforceCompanyModeValid. by destruct ScriptCompanyMode_IsValid.
Qed.

End ScriptCompanyFacts.

(** ** Clipping in gfx.cpp *)

(** Case analysis on the integer comparisons of a goal, closing the cases
    whose hypotheses contradict each other. *)
Ltac no_if t :=
  lazymatch t with
  | context [if _ then _ else _] => fail
  | _ => idtac
  end.

Ltac cases_cmp :=
  repeat first
    [ progress rewrite Z.gtb_ltb
    | progress rewrite Z.geb_leb
    | match goal with
      | |- context [?a <? ?b] => no_if a; no_if b; destruct (Z.ltb_spec a b); try lia
      | |- context [?a <=? ?b] => no_if a; no_if b; destruct (Z.leb_spec a b); try lia
      | |- context [?a =? ?b] => no_if a; no_if b; destruct (Z.eqb_spec a b); try lia
      end; cbn [negb andb orb] ];
  simpl.

Section GfxClipFacts.
Variable ZOOM_LVL_NORMAL : Z.
Context {VideoPtr : Type}.
Variable MoveTo : VideoPtr → Z → Z → VideoPtr.
Variable GB : Z → Z → Z → Z.
Variable PALETTE_WIDTH : Z.

Local Abbreviation FillDrawPixelInfo' := (FillDrawPixelInfo ZOOM_LVL_NORMAL MoveTo).
Local Abbreviation GfxFillRect' := (GfxFillRect ZOOM_LVL_NORMAL MoveTo GB PALETTE_WIDTH).

(** X1. [FillDrawPixelInfo] intersects the requested rectangle with the
    current clipping rectangle: it returns true exactly when the two
    overlap, and then the new [DrawPixelInfo] describes the overlap
    ([left], [top] are where it starts inside the request, [dst_ptr] where
    it starts inside the old buffer).  Without positive [width] and
    [height] the assertion fails. *)
Theorem FillDrawPixelInfo_intersects (o n : DrawPixelInfo) (left top width height : Z) :
  let x1 := Z.max left (dpi_left o) in
  let x2 := Z.min (left + width) (dpi_left o + dpi_width o) in
  let y1 := Z.max top (dpi_top o) in
  let y2 := Z.min (top + height) (dpi_top o + dpi_height o) in
  (0 < width → 0 < height →
   (x1 < x2 → y1 < y2 →
    FillDrawPixelInfo' o n left top width height
    = Some (true, {| dst_ptr := MoveTo (dst_ptr o) (x1 - dpi_left o) (y1 - dpi_top o);
                     dpi_left := x1 - left; dpi_top := y1 - top;
                     dpi_width := x2 - x1; dpi_height := y2 - y1;
                     dpi_pitch := dpi_pitch o; dpi_zoom := ZOOM_LVL_NORMAL |})) ∧
   (¬ (x1 < x2 ∧ y1 < y2) →
    ∃ n', FillDrawPixelInfo' o n left top width height = Some (false, n'))) ∧
  (width <= 0 ∨ height <= 0 → FillDrawPixelInfo' o n left top width height = None).
Proof.
  intros x1 x2 y1 y2. subst x1 x2 y1 y2. split; [intros Hw Hh; split |].
  - intros Hx Hy. unfold FillDrawPixelInfo. cbn [dst_ptr dpi_left dpi_top dpi_width
      dpi_height dpi_pitch dpi_zoom]. cases_cmp.
    all: f_equal; f_equal; f_equal; [f_equal | ..]; lia.
  - intros Hno. unfold FillDrawPixelInfo. cbn [dst_ptr dpi_left dpi_top dpi_width
      dpi_height dpi_pitch dpi_zoom].
    assert (Hc : ¬ (Z.max left (dpi_left o) < Z.min (left + width) (dpi_left o + dpi_width o))
              ∨ ¬ (Z.max top (dpi_top o) < Z.min (top + height) (dpi_top o + dpi_height o)))
      by lia.
    clear Hno. destruct Hc; cases_cmp.
    all: try (eexists; reflexivity).
    all: exfalso; lia.
  - intros Hbad. unfold FillDrawPixelInfo. rewrite !Z.gtb_ltb.
    destruct (Z.ltb_spec 0 width); [| done].
    destruct (Z.ltb_spec 0 height); [lia | done].
Qed.

End GfxClipFacts.

Section GfxFillRectFacts.
Variable ZOOM_LVL_NORMAL : Z.
Context {VideoPtr : Type}.
Variable MoveTo : VideoPtr → Z → Z → VideoPtr.
Variable GB : Z → Z → Z → Z.
Variable PALETTE_WIDTH : Z.

Local Abbreviation GfxFillRect' := (GfxFillRect ZOOM_LVL_NORMAL MoveTo GB PALETTE_WIDTH).

(** The loop [for (i = start; i < right; i += 2)] visits the numbers from
    [start] up to [right] that differ from [start] by an even amount, when
    given enough iterations. *)
Lemma every_second_filter (fuel : nat) (i right : Z) :
  (Z.to_nat (right - i) ≤ fuel)%nat →
  every_second fuel i right
  = List.filter (λ j, Z.even (j - i)) (seqZ i (right - i)).
Proof.
  revert i. induction fuel as [| fuel IH]; intros i Hfuel.
  - simpl. rewrite seqZ_nil by lia. done.
  - simpl. destruct (Z.ltb_spec i right) as [Hlt | Hge].
    + rewrite (seqZ_cons i) by lia. simpl. rewrite Z.sub_diag. simpl. f_equal.
      rewrite IH by lia.
      destruct (Z.le_gt_cases (right - i) 1) as [Hone | Hmore].
      * rewrite !seqZ_nil by lia. done.
      * rewrite (seqZ_cons (Z.succ i)) by lia. simpl.
        replace (Z.succ i - i) with 1 by lia. simpl.
        replace (Z.succ (Z.succ i)) with (i + 2) by lia.
        replace (Z.pred (Z.pred (right - i))) with (right - (i + 2)) by lia.
        apply List.filter_ext. intros j.
        replace (j - i) with (j - (i + 2) + 2) by lia.
        rewrite Z.even_add. simpl. by destruct (Z.even (j - (i + 2))).
    + rewrite seqZ_nil by lia. done.
Qed.

Lemma every_second_from_bit (b right : Z) :
  b = 0 ∨ b = 1 → 0 <= right →
  every_second (Z.to_nat right) b right
  = List.filter (λ j, Z.even (j + b)) (seqZ 0 right).
Proof.
  intros Hb Hr. rewrite every_second_filter by lia.
  destruct Hb as [-> | ->].
  - rewrite Z.sub_0_r. apply List.filter_ext. intros j. by rewrite Z.sub_0_r, Z.add_0_r.
  - destruct (Z.le_gt_cases right 0) as [Hz | Hpos].
    + rewrite !seqZ_nil by lia. done.
    + rewrite (seqZ_cons 0) by lia. simpl.
      replace (Z.pred right) with (right - 1) by lia.
      apply List.filter_ext. intros j.
      replace (j + 1) with (j - 1 + 2) by lia.
      rewrite Z.even_add. simpl. by destruct (Z.even (j - 1)).
Qed.

Lemma odd_add_1 (a : Z) : Z.odd (a + 1) = negb (Z.odd a).
Proof. rewrite Z.odd_add. simpl. by destruct (Z.odd a). Qed.

Lemma odd_add_2 (a : Z) : Z.odd (a + 2) = Z.odd a.
Proof. rewrite Z.odd_add. simpl. by destruct (Z.odd a). Qed.

(** The lines of the checker loop: line [r] is drawn through the pointer
    moved [r] lines down, and sets the pixels [i] for which [i + bo + r] is
    odd. *)
Lemma checker_lines_pattern (n : nat) (bo : Z) (dst : VideoPtr) (right colour : Z) :
  bo = 0 ∨ bo = 1 → 0 <= right →
  checker_lines MoveTo n bo dst right colour
  = flat_map (λ r : nat,
      (λ i, SetPixel (Nat.iter r (λ p, MoveTo p 0 1) dst) i 0 colour)
        <$> List.filter (λ i, Z.odd (i + bo + Z.of_nat r)) (seqZ 0 right))
      (seq 0 n).
Proof.
  intros Hbo Hr. revert bo dst Hbo.
  induction n as [| n IH]; intros bo dst Hbo; [done |].
  cbn [checker_lines seq flat_map].
  assert (Hx : Z.lxor bo 1 = 0 ∨ Z.lxor bo 1 = 1) by (destruct Hbo as [-> | ->]; auto).
  rewrite every_second_from_bit by done.
  rewrite (IH (Z.lxor bo 1) (MoveTo dst 0 1) Hx).
  f_equal.
  - f_equal. apply List.filter_ext. intros i.
    rewrite <- Z.negb_odd.
    destruct Hbo as [-> | ->];
      [change (Z.lxor 0 1) with 1 | change (Z.lxor 1 1) with 0]; cbn [Z.of_nat].
    + rewrite odd_add_1, !Z.add_0_r. by destruct (Z.odd i).
    + rewrite !Z.add_0_r, odd_add_1. done.
  - rewrite <- fmap_S_seq, !flat_map_concat_map. f_equal.
    change (map ?f (S <$> ?l)) with (f <$> (S <$> l)).
    rewrite <- list_fmap_compose. apply list_fmap_ext. intros _ r _. unfold compose. cbn beta.
    rewrite Nat.iter_succ_r. f_equal. apply List.filter_ext. intros i.
    destruct Hbo as [-> | ->];
      [change (Z.lxor 0 1) with 1 | change (Z.lxor 1 1) with 0].
    + replace (i + 0 + Z.of_nat (S r)) with (i + 0 + (Z.of_nat r) + 1) by lia.
      replace (i + 1 + Z.of_nat r) with (i + 0 + Z.of_nat r + 1) by lia. done.
    + replace (i + 1 + Z.of_nat (S r)) with (i + 0 + Z.of_nat r + 2) by lia.
      by rewrite odd_add_2.
Qed.
Lemma odd_shift (a b : Z) : Z.even (a - b) = true → Z.odd a = Z.odd b.
Proof.
  intros H. replace a with (a - b + b) at 1 by lia.
  rewrite Z.odd_add, <- Z.negb_even, H. done.
Qed.

Lemma odd_same_parity (a b k : Z) : a - b = 2 * k → Z.odd a = Z.odd b.
Proof. intros H. apply odd_shift. rewrite H, Z.even_mul. done. Qed.

(** What [GfxFillRect] does with a rectangle that meets the clipping area:
    the position and the size it hands to the blitter. *)
Lemma GfxFillRect_clipped (dpi : DrawPixelInfo) (left top right bottom colour : Z)
    (mode : FillRectMode) :
  0 < dpi_width dpi → 0 < dpi_height dpi →
  dpi_zoom dpi = ZOOM_LVL_NORMAL →
  Z.max left (dpi_left dpi) <= Z.min right (dpi_left dpi + dpi_width dpi - 1) →
  Z.max top (dpi_top dpi) <= Z.min bottom (dpi_top dpi + dpi_height dpi - 1) →
  ∃ l t w h,
    l = Z.max left (dpi_left dpi) - dpi_left dpi ∧
    t = Z.max top (dpi_top dpi) - dpi_top dpi ∧
    w = Z.min right (dpi_left dpi + dpi_width dpi - 1) - Z.max left (dpi_left dpi) + 1 ∧
    h = Z.min bottom (dpi_top dpi + dpi_height dpi - 1) - Z.max top (dpi_top dpi) + 1 ∧
    GfxFillRect' dpi left top right bottom colour mode
    = Some match mode with
           | FILLRECT_RECOLOUR =>
             [DrawColourMappingRect (MoveTo (dst_ptr dpi) l t) w h
                (GB colour 0 PALETTE_WIDTH)]
           | FILLRECT_CHECKER =>
             checker_lines MoveTo (Z.to_nat h)
               (Z.land (left - l + dpi_left dpi + top - t + dpi_top dpi) 1)
               (MoveTo (dst_ptr dpi) l t) w (to_uint8 colour)
           | _ => [DrawRect (MoveTo (dst_ptr dpi) l t) w h (to_uint8 colour)]
           end.
Proof.
  intros Hw Hh Hz Hx Hy. unfold GfxFillRect. rewrite Hz, Z.eqb_refl. cbn [negb].
  cases_cmp.
  all: eexists _, _, _, _; split; [| split; [| split; [| split; [| reflexivity]]]]; lia.
Qed.

(** X2. On a [DrawPixelInfo] of positive width and height no assertion of
    [GfxFillRect] fails.  Nothing is drawn at another zoom level than
    [ZOOM_LVL_NORMAL] or when the rectangle, whose bounds are inclusive,
    misses the clipping area; otherwise one rectangle is drawn, the part of
    the requested one inside the clipping area, opaque or recoloured. *)
Theorem GfxFillRect_draws_the_overlap (dpi : DrawPixelInfo) (left top right bottom colour : Z)
    (mode : FillRectMode) :
  0 < dpi_width dpi → 0 < dpi_height dpi →
  let x1 := Z.max left (dpi_left dpi) in
  let x2 := Z.min right (dpi_left dpi + dpi_width dpi - 1) in
  let y1 := Z.max top (dpi_top dpi) in
  let y2 := Z.min bottom (dpi_top dpi + dpi_height dpi - 1) in
  let dst := MoveTo (dst_ptr dpi) (x1 - dpi_left dpi) (y1 - dpi_top dpi) in
  is_Some (GfxFillRect' dpi left top right bottom colour mode) ∧
  (dpi_zoom dpi ≠ ZOOM_LVL_NORMAL ∨ x2 < x1 ∨ y2 < y1 →
   GfxFillRect' dpi left top right bottom colour mode = Some []) ∧
  (dpi_zoom dpi = ZOOM_LVL_NORMAL → x1 <= x2 → y1 <= y2 →
   (mode = FILLRECT_OPAQUE ∨ mode = FILLRECT_FUNCTOR →
    GfxFillRect' dpi left top right bottom colour mode
    = Some [DrawRect dst (x2 - x1 + 1) (y2 - y1 + 1) (to_uint8 colour)]) ∧
   (mode = FILLRECT_RECOLOUR →
    GfxFillRect' dpi left top right bottom colour mode
    = Some [DrawColourMappingRect dst (x2 - x1 + 1) (y2 - y1 + 1)
              (GB colour 0 PALETTE_WIDTH)])).
Proof.
  intros Hw Hh x1 x2 y1 y2 dst. subst x1 x2 y1 y2 dst.
  assert (Hnone : dpi_zoom dpi ≠ ZOOM_LVL_NORMAL
                  ∨ Z.min right (dpi_left dpi + dpi_width dpi - 1) < Z.max left (dpi_left dpi)
                  ∨ Z.min bottom (dpi_top dpi + dpi_height dpi - 1) < Z.max top (dpi_top dpi) →
                  GfxFillRect' dpi left top right bottom colour mode = Some []).
  { intros Hc. unfold GfxFillRect.
    destruct (Z.eqb_spec (dpi_zoom dpi) ZOOM_LVL_NORMAL) as [Hz | Hz]; [| done].
    cbn [negb]. destruct Hc as [Hc | [Hc | Hc]]; [done | |]; cases_cmp; try done; lia. }
  pose proof (GfxFillRect_clipped dpi left top right bottom colour mode Hw Hh) as Hsome.
  split; [| split; [exact Hnone |]].
  - destruct (Z.eq_dec (dpi_zoom dpi) ZOOM_LVL_NORMAL) as [Hz | Hz];
      [| rewrite Hnone by auto; done].
    destruct (Z.lt_ge_cases (Z.min right (dpi_left dpi + dpi_width dpi - 1))
                (Z.max left (dpi_left dpi))); [rewrite Hnone by auto; done |].
    destruct (Z.lt_ge_cases (Z.min bottom (dpi_top dpi + dpi_height dpi - 1))
                (Z.max top (dpi_top dpi))); [rewrite Hnone by auto; done |].
    destruct (Hsome Hz) as (l & t & w & h & _ & _ & _ & _ & ->); done.
  - intros Hz Hx Hy.
    destruct (Hsome Hz Hx Hy) as (l & t & w & h & -> & -> & -> & -> & ->).
    split; [intros [-> | ->]; done | intros ->; done].
Qed.

(** X3. In the checker mode [GfxFillRect] sets, line by line, the pixels
    of the part of the rectangle inside the clipping area whose distance
    from the corner [(left, top)] of the whole rectangle, horizontal plus
    vertical, is odd: the pattern does not move when the clipping area
    does.  Line [r] is addressed through the destination pointer moved [r]
    times one line down. *)
Theorem GfxFillRect_checker_pattern (dpi : DrawPixelInfo) (left top right bottom colour : Z) :
  0 < dpi_width dpi → 0 < dpi_height dpi →
  dpi_zoom dpi = ZOOM_LVL_NORMAL →
  let x1 := Z.max left (dpi_left dpi) in
  let x2 := Z.min right (dpi_left dpi + dpi_width dpi - 1) in
  let y1 := Z.max top (dpi_top dpi) in
  let y2 := Z.min bottom (dpi_top dpi + dpi_height dpi - 1) in
  let dst := MoveTo (dst_ptr dpi) (x1 - dpi_left dpi) (y1 - dpi_top dpi) in
  x1 <= x2 → y1 <= y2 →
  GfxFillRect' dpi left top right bottom colour FILLRECT_CHECKER
  = Some (flat_map (λ r : nat,
            (λ i, SetPixel (Nat.iter r (λ p, MoveTo p 0 1) dst) i 0 (to_uint8 colour))
              <$> List.filter (λ i, Z.odd ((x1 + i - left) + (y1 + Z.of_nat r - top)))
                    (seqZ 0 (x2 - x1 + 1)))
            (seq 0 (Z.to_nat (y2 - y1 + 1)))).
Proof.
  intros Hw Hh Hz x1 x2 y1 y2 dst Hx Hy. subst x1 x2 y1 y2 dst.
  destruct (GfxFillRect_clipped dpi left top right bottom colour FILLRECT_CHECKER
              Hw Hh Hz Hx Hy) as (l & t & w & h & Hl & Ht & Hwd & Hht & ->).
  f_equal.
  set (a := left - l + dpi_left dpi + top - t + dpi_top dpi).
  assert (Hbit : Z.land a 1 = a mod 2) by (change 1 with (Z.ones 1); by rewrite Z.land_ones).
  assert (Hbo : Z.land a 1 = 0 ∨ Z.land a 1 = 1)
    by (rewrite Hbit; pose proof (Z.mod_pos_bound a 2); lia).
  rewrite checker_lines_pattern by (done || lia).
  rewrite <- Hl, <- Ht, <- Hwd, <- Hht.
  apply flat_map_ext. intros r. f_equal. apply List.filter_ext. intros i.
  apply (odd_same_parity _ _ (- (a / 2) - (Z.max left (dpi_left dpi) - left)
                              - (Z.max top (dpi_top dpi) - top)
                              + dpi_left dpi + dpi_top dpi)).
  pose proof (Z.div_mod a 2). rewrite Hbit. subst a. lia.
Qed.
End GfxFillRectFacts.

Section GfxLineFacts.
Context {VideoPtr : Type}.

(** X4. [GfxPreprocessLine] moves the end points into the coordinates of
    the clipping area, and rejects a line exactly when both end points,
    moved by half the width ([width / 2], rounded towards zero), lie beyond
    the same edge of the area.  For a width that is not negative: a
    rejected line has both end points beyond the same edge of the area
    itself, for the widths 0 and 1 exactly those lines are rejected, and a
    line with an end point inside the area is never rejected.  For a
    negative width a line inside the area can be rejected. *)
Theorem GfxPreprocessLine_rejects_outside (dpi : @DrawPixelInfo VideoPtr)
    (x y x2 y2 width : Z) :
  let x' := x - dpi_left dpi in
  let y' := y - dpi_top dpi in
  let x2' := x2 - dpi_left dpi in
  let y2' := y2 - dpi_top dpi in
  let half := width ÷ 2 in
  let beyond := (x' + half < 0 ∧ x2' + half < 0) ∨ (y' + half < 0 ∧ y2' + half < 0) ∨
                (x' - half > dpi_width dpi ∧ x2' - half > dpi_width dpi) ∨
                (y' - half > dpi_height dpi ∧ y2' - half > dpi_height dpi) in
  let outside := (x' < 0 ∧ x2' < 0) ∨ (y' < 0 ∧ y2' < 0) ∨
                 (x' > dpi_width dpi ∧ x2' > dpi_width dpi) ∨
                 (y' > dpi_height dpi ∧ y2' > dpi_height dpi) in
  snd (GfxPreprocessLine dpi x y x2 y2 width) = (x', y', x2', y2') ∧
  (fst (GfxPreprocessLine dpi x y x2 y2 width) = false ↔ beyond) ∧
  (0 <= width → fst (GfxPreprocessLine dpi x y x2 y2 width) = false → outside) ∧
  (0 <= width <= 1 → outside → fst (GfxPreprocessLine dpi x y x2 y2 width) = false) ∧
  (0 <= width →
   (0 <= x' <= dpi_width dpi ∧ 0 <= y' <= dpi_height dpi) ∨
   (0 <= x2' <= dpi_width dpi ∧ 0 <= y2' <= dpi_height dpi) →
   fst (GfxPreprocessLine dpi x y x2 y2 width) = true).
Proof.
  intros x' y' x2' y2' half beyond outside. subst x' y' x2' y2' half beyond outside.
  assert (Hq : 0 <= width → 0 <= width ÷ 2) by (intros; apply Z.quot_pos; lia).
  assert (Hq1 : 0 <= width <= 1 → width ÷ 2 = 0).
  { intros H1. assert (width = 0 ∨ width = 1) as [-> | ->] by lia; done. }
  unfold GfxPreprocessLine. cbn [fst snd].
  generalize dependent (width ÷ 2). intros q Hq Hq1.
  split; [done |]. split; [| split; [| split]].
  - clear Hq Hq1. cases_cmp; split; intros; try done; lia.
  - intros Hw. specialize (Hq Hw). clear Hq1. cases_cmp; intros; try done; lia.
  - intros H1 Hout. rewrite (Hq1 H1). clear Hq1 Hq.
    cases_cmp; try done; lia.
  - intros Hw Hin. specialize (Hq Hw). clear Hq1. cases_cmp; try done; lia.
Qed.

End GfxLineFacts.

Lemma MakePolygonSegments_loop_rising (shape : list Point) (offset prev : Point)
    (segments : list LineSegment) :
  Forall segment_rising segments →
  Forall segment_rising (MakePolygonSegments_loop shape offset prev segments).
Proof.
  revert prev segments. induction shape as [| pt rest IH]; intros prev segments Hs; [done |].
  simpl. apply IH. cases_cmp; try done.
  all: apply Forall_app; split; [done |]; apply Forall_singleton; unfold segment_rising;
    simpl; lia.
Qed.

Lemma MakePolygonSegments_loop_length (shape : list Point) (offset prev : Point)
    (segments : list LineSegment) :
  (length (MakePolygonSegments_loop shape offset prev segments)
   ≤ length segments + length shape)%nat.
Proof.
  revert prev segments. induction shape as [| pt rest IH]; intros prev segments;
    [simpl; lia |].
  simpl. etrans; [apply IH |]. cases_cmp; rewrite ?length_app; simpl; lia.
Qed.

Lemma MakePolygonSegments_loop_flat (shape : list Point) (offset prev : Point)
    (segments : list LineSegment) (y0 : Z) :
  pt_y prev = y0 - pt_y offset → Forall (λ p, pt_y p = y0) shape →
  MakePolygonSegments_loop shape offset prev segments = segments.
Proof.
  revert prev segments. induction shape as [| pt rest IH]; intros prev segments Hp Hall;
    [done |].
  apply Forall_cons in Hall as [Hpt Hrest]. simpl.
  rewrite IH; [| simpl; lia | done].
  rewrite Hp, Hpt. cases_cmp; done.
Qed.

Lemma MakePolygonSegments_loop_translate (shape : list Point) (offset prev : Point)
    (segments : list LineSegment) (dx dy : Z) :
  MakePolygonSegments_loop
    ((λ p, {| pt_x := pt_x p + dx; pt_y := pt_y p + dy |}) <$> shape)
    {| pt_x := pt_x offset + dx; pt_y := pt_y offset + dy |} prev segments
  = MakePolygonSegments_loop shape offset prev segments.
Proof.
  revert prev segments. induction shape as [| pt rest IH]; intros prev segments; [done |].
  cbn [fmap list_fmap MakePolygonSegments_loop pt_x pt_y].
  replace (pt_x pt + dx - (pt_x offset + dx)) with (pt_x pt - pt_x offset) by lia.
  replace (pt_y pt + dy - (pt_y offset + dy)) with (pt_y pt - pt_y offset) by lia.
  apply IH.
Qed.

(** X5. The segments [MakePolygonSegments] makes all have their point with
    the lower Y coordinate first and are never horizontal; there are at
    most as many as the polygon has points; a polygon of fewer than three
    points, or with all points on one horizontal line, gives none. *)
Theorem MakePolygonSegments_lowest_first (shape : list Point) (offset : Point) :
  Forall (λ s, pt_y (fst s) < pt_y (snd s)) (MakePolygonSegments shape offset) ∧
  (length (MakePolygonSegments shape offset) ≤ length shape)%nat ∧
  ((length shape < 3)%nat → MakePolygonSegments shape offset = []) ∧
  (∀ y0, Forall (λ p, pt_y p = y0) shape → MakePolygonSegments shape offset = []).
Proof.
  unfold MakePolygonSegments.
  destruct (Nat.ltb_spec (length shape) 3) as [Hlt | Hge].
  { split; [done |]. split; [simpl; lia |]. done. }
  destruct (last shape) as [prev |] eqn:Hlast.
  2: { split; [done |]. split; [simpl; lia |]. done. }
  split; [| split; [| split]].
  - by apply MakePolygonSegments_loop_rising.
  - etrans; [apply MakePolygonSegments_loop_length |]. simpl. lia.
  - intros Hlt. lia.
  - intros y0 Hall. apply (MakePolygonSegments_loop_flat _ _ _ _ y0); [| done].
    apply last_Some in Hlast as [l' ->]. apply Forall_app in Hall as [_ Hall].
    apply Forall_inv in Hall. simpl in *. lia.
Qed.

(** X6. Moving the polygon and the offset by the same vector does not
    change the segments. *)
Theorem MakePolygonSegments_translate (shape : list Point) (offset : Point) (dx dy : Z) :
  MakePolygonSegments
    ((λ p, {| pt_x := pt_x p + dx; pt_y := pt_y p + dy |}) <$> shape)
    {| pt_x := pt_x offset + dx; pt_y := pt_y offset + dy |}
  = MakePolygonSegments shape offset.
Proof.
  unfold MakePolygonSegments. rewrite length_fmap, fmap_last.
  destruct (length shape <? 3)%nat; [done |].
  destruct (last shape) as [prev |]; [| done]. cbn [fmap option_fmap option_map pt_x pt_y].
  rewrite MakePolygonSegments_loop_translate.
  replace (pt_x prev + dx - (pt_x offset + dx)) with (pt_x prev - pt_x offset) by lia.
  replace (pt_y prev + dy - (pt_y offset + dy)) with (pt_y prev - pt_y offset) by lia.
  done.
Qed.

(** ** Character widths *)

Section StringWidthFacts.
Variable FS_BEGIN FS_MONO FS_END : Z.
Variable GetGlyphWidth : Z → Z → Z.

Local Abbreviation LoadStringWidthTable' :=
  (LoadStringWidthTable FS_BEGIN FS_MONO FS_END GetGlyphWidth).
Local Abbreviation GetCharacterWidth' := (GetCharacterWidth GetGlyphWidth).

Lemma load_line (fs : Z) (l : list Z) (t : stringwidth_table) (fs' i' : Z) :
  foldl (λ t i, stringwidth_table_set t fs i (to_uint8 (GetGlyphWidth fs (i + 32)))) t l fs' i'
  = if decide (fs' = fs ∧ i' ∈ l) then to_uint8 (GetGlyphWidth fs (i' + 32)) else t fs' i'.
Proof.
  revert t. induction l as [| i l IH]; intros t; cbn [foldl].
  - rewrite decide_False; [done |]. intros [_ H]. by apply elem_of_nil in H.
  - rewrite IH. unfold stringwidth_table_set.
    destruct (decide (fs' = fs ∧ i' ∈ l)) as [[-> Hin] | Hn].
    + rewrite decide_True; [done |]. split; [done |]. by apply elem_of_cons; right.
    + destruct (decide (fs' = fs ∧ i' = i)) as [[-> ->] | Hn2].
      * rewrite decide_True; [done |]. split; [done |]. by apply elem_of_cons; left.
      * rewrite decide_False; [done |]. intros [-> [-> | Hin]%elem_of_cons]; tauto.
Qed.

Lemma load_lines (L l : list Z) (t : stringwidth_table) (fs' i' : Z) :
  foldl (λ t fs,
           foldl (λ t i, stringwidth_table_set t fs i (to_uint8 (GetGlyphWidth fs (i + 32))))
                 t l) t L fs' i'
  = if decide (fs' ∈ L ∧ i' ∈ l) then to_uint8 (GetGlyphWidth fs' (i' + 32)) else t fs' i'.
Proof.
  revert t. induction L as [| fs L IH]; intros t; cbn [foldl].
  - rewrite decide_False; [done |]. intros [H _]. by apply elem_of_nil in H.
  - rewrite IH, load_line.
    destruct (decide (fs' ∈ L ∧ i' ∈ l)) as [[HL Hl] | Hn].
    + rewrite decide_True; [done |]. split; [| done]. by apply elem_of_cons; right.
    + destruct (decide (fs' = fs ∧ i' ∈ l)) as [[-> Hl] | Hn2].
      * rewrite decide_True; [done |]. split; [| done]. by apply elem_of_cons; left.
      * rewrite decide_False; [done |]. intros [[-> | HL]%elem_of_cons Hl]; tauto.
Qed.

(** X7. After [LoadStringWidthTable], [GetCharacterWidth] gives, for every
    font size the call loads (the monospace one, or the others) and every
    character, the low byte of the width of the glyph; the entries of the
    other font sizes are as before. *)
Theorem LoadStringWidthTable_caches_glyph_widths (monospace : bool) (t : stringwidth_table)
    (size : Z) :
  let first := if monospace then FS_MONO else FS_BEGIN in
  let last := if monospace then FS_END else FS_MONO in
  (first <= size < last →
   ∀ key, GetCharacterWidth' (LoadStringWidthTable' monospace t) size key
          = to_uint8 (GetGlyphWidth size key)) ∧
  (¬ (first <= size < last) →
   ∀ i, LoadStringWidthTable' monospace t size i = t size i).
Proof.
  intros first last. unfold LoadStringWidthTable. fold first last. split.
  - intros Hsize key. unfold GetCharacterWidth.
    destruct ((key >=? 32) && (key <? 256)) eqn:Hkey; [| done].
    rewrite load_lines. rewrite decide_True.
    + f_equal. f_equal. lia.
    + rewrite !elem_of_seqZ. lia.
  - intros Hsize i. rewrite load_lines. rewrite decide_False; [done |].
    rewrite !elem_of_seqZ. lia.
Qed.

End StringWidthFacts.

Section DigitFacts.
Variable GetGlyphWidth : Z → Z → Z.
Variable t : stringwidth_table.
Variable size : Z.

Local Abbreviation cw := (GetCharacterWidth GetGlyphWidth t size).
Local Abbreviation step := (GetBroadestDigit_step GetGlyphWidth t size).

(** The loop of [GetBroadestDigit] over characters other than ['0']: the
    state is unchanged when no character is wider than [width], else it
    holds the first of the widest characters. *)
Lemma GetBroadestDigit_fold (l : list Z) (w0 f0 n0 : Z) :
  (∀ c, c ∈ l → c ≠ 48) →
  ∃ w f n, foldl step (w0, f0, n0) l = (w, f, n) ∧
    ((w = w0 ∧ f = f0 ∧ n = n0 ∧ ∀ c, c ∈ l → cw c <= w0) ∨
     (∃ l1 c l2, l = l1 ++ c :: l2 ∧ w = cw c ∧ f = c - 48 ∧ n = c - 48 ∧ w0 < w ∧
                 (∀ d, d ∈ l1 → cw d < cw c) ∧ (∀ d, d ∈ l2 → cw d <= cw c))).
Proof.
  induction l as [| x l IH] using rev_ind; intros Hnz.
  - exists w0, f0, n0. split; [done |]. left. repeat split; try done.
    intros c Hc. by apply elem_of_nil in Hc.
  - destruct IH as (w & f & n & Hfold & Hst).
    { intros c Hc. apply Hnz, elem_of_app. by left. }
    assert (Hx : x ≠ 48) by (apply Hnz, elem_of_app; right; by apply list_elem_of_singleton).
    rewrite foldl_app, Hfold. cbn [foldl GetBroadestDigit_step].
    destruct (Z.ltb_spec w (cw x)) as [Hgt | Hle]; rewrite Z.gtb_ltb.
    + destruct (Z.ltb_spec w (cw x)); [| lia].
      destruct (Z.eqb_spec x 48); [done |]. cbn [negb].
      eexists _, _, _. split; [reflexivity |]. right.
      exists l, x, []. repeat split; try done.
      * destruct Hst as [(-> & _) | (l1 & c & l2 & _ & -> & _ & _ & Hlt & _)]; lia.
      * intros d Hd.
        destruct Hst as [(-> & _ & _ & Hall) | (l1 & c & l2 & -> & -> & _ & _ & _ & H1 & H2)].
        -- specialize (Hall d Hd). lia.
        -- apply elem_of_app in Hd as [Hd | Hd%elem_of_cons].
           ++ specialize (H1 d Hd). lia.
           ++ destruct Hd as [-> | Hd]; [lia |]. specialize (H2 d Hd). lia.
      * intros d Hd. by apply elem_of_nil in Hd.
    + destruct (Z.ltb_spec w (cw x)); [lia |].
      exists w, f, n. split; [done |].
      destruct Hst as [(-> & -> & -> & Hall) | (l1 & c & l2 & -> & -> & -> & -> & Hlt & H1 & H2)].
      * left. repeat split; try done.
        intros c [Hc | ->%list_elem_of_singleton]%elem_of_app; [by apply Hall | lia].
      * right. exists l1, c, (l2 ++ [x]). rewrite <- app_assoc. repeat split; try done.
        intros d [Hd | ->%list_elem_of_singleton]%elem_of_app; [by apply H2 | lia].
Qed.

Lemma GetDigitWidth_fold (l : list Z) (w0 : Z) :
  ∃ w, foldl (λ width c, Z.max (cw c) width) w0 l = w ∧
    w0 <= w ∧ (∀ c, c ∈ l → cw c <= w) ∧ (w = w0 ∨ ∃ c, c ∈ l ∧ w = cw c).
Proof.
  revert w0. induction l as [| x l IH]; intros w0; cbn [foldl].
  - exists w0. split; [done |]. split; [lia |]. split; [| by left].
    intros c Hc. by apply elem_of_nil in Hc.
  - destruct (IH (Z.max (cw x) w0)) as (w & Hw & H1 & H2 & H3).
    exists w. split; [done |]. split; [lia |]. split.
    + intros c [-> | Hc]%elem_of_cons; [lia | by apply H2].
    + destruct H3 as [H3 | (c & Hc & H3)].
      * destruct (Z.max_spec (cw x) w0) as [[_ Hm] | [_ Hm]]; rewrite Hm in H3.
        -- by left.
        -- right. exists x. split; [by apply elem_of_cons; left | done].
      * right. exists c. split; [by apply elem_of_cons; right | done].
Qed.

(** X8. With a table of bytes: [GetBroadestDigit] leaves in [*front] the
    widest of the digits 1 to 9, the largest digit among equally wide ones,
    and in [*next] the digit 0 when that is wider still, else the same
    digit; the digit in [*next] is as wide as any digit, and its width is
    what [GetDigitWidth] returns. *)
Theorem GetBroadestDigit_widest (front0 next0 : Z) :
  (∀ i, 0 <= t size i < 256) →
  let w d := cw (48 + d) in
  let front := fst (GetBroadestDigit GetGlyphWidth t front0 next0 size) in
  let next := snd (GetBroadestDigit GetGlyphWidth t front0 next0 size) in
  1 <= front <= 9 ∧
  (∀ d, 1 <= d <= 9 → w d <= w front) ∧
  (∀ d, front < d <= 9 → w d < w front) ∧
  next = (if w 0 >? w front then 0 else front) ∧
  (∀ d, 0 <= d <= 9 → w d <= w next) ∧
  w next = GetDigitWidth GetGlyphWidth t size.
Proof.
  intros Hbyte w front next.
  assert (Hcw : ∀ c, 32 <= c < 256 → 0 <= cw c < 256).
  { intros c Hc. unfold GetCharacterWidth.
    destruct (Z.geb_spec c 32); [| lia]. destruct (Z.ltb_spec c 256); [| lia].
    apply Hbyte. }
  assert (Hrev : reverse (seqZ 48 10) = [57; 56; 55; 54; 53; 52; 51; 50; 49] ++ [48])
    by reflexivity.
  destruct (GetBroadestDigit_fold [57; 56; 55; 54; 53; 52; 51; 50; 49] (-1) front0 next0)
    as (w9 & f9 & n9 & Hfold & Hst).
  { intros c Hc ->.
    repeat (apply elem_of_cons in Hc as [Hc | Hc]; [discriminate |]).
    by apply elem_of_nil in Hc. }
  assert (Hfront : ∃ l1 l2, [57; 56; 55; 54; 53; 52; 51; 50; 49] = l1 ++ (48 + f9) :: l2 ∧
                            w9 = w f9 ∧ n9 = f9 ∧
                            (∀ d, d ∈ l1 → cw d < w f9) ∧ (∀ d, d ∈ l2 → cw d <= w f9)).
  { destruct Hst as [(-> & _ & _ & Hall) | (l1 & c & l2 & Hl & -> & -> & -> & _ & H1 & H2)].
    - assert (57 ∈ [57; 56; 55; 54; 53; 52; 51; 50; 49]) as H57
        by (apply elem_of_cons; by left).
      specialize (Hall 57 H57). pose proof (Hcw 57). lia.
    - exists l1, l2. unfold w. replace (48 + (c - 48)) with c by lia. done. }
  destruct Hfront as (l1 & l2 & Hl & -> & -> & H1 & H2).
  assert (Hin : ∀ c, 49 <= c <= 57 ↔ c ∈ [57; 56; 55; 54; 53; 52; 51; 50; 49]).
  { intros c. rewrite !elem_of_cons, elem_of_nil. lia. }
  assert (Hf9 : 1 <= f9 <= 9).
  { assert (48 + f9 ∈ [57; 56; 55; 54; 53; 52; 51; 50; 49]) as Hm
      by (rewrite Hl, elem_of_app, elem_of_cons; auto).
    apply Hin in Hm. lia. }
  assert (Hall : ∀ d, 1 <= d <= 9 → w d <= w f9).
  { intros d Hd. assert (48 + d ∈ l1 ++ (48 + f9) :: l2) as Hm by (rewrite <- Hl; apply Hin; lia).
    apply elem_of_app in Hm as [Hm | Hm%elem_of_cons].
    - specialize (H1 _ Hm). unfold w in *. lia.
    - destruct Hm as [Hm | Hm]; [replace d with f9 by lia; lia |].
      by apply H2. }
  assert (Hties : ∀ d, f9 < d <= 9 → w d < w f9).
  { intros d Hd.
    assert (48 + d ∈ l1) as Hm; [| by apply H1].
    (* the list is decreasing, so what is larger stands before *)
    assert (Hdec : ∀ la lb (x y : Z), [57; 56; 55; 54; 53; 52; 51; 50; 49] = la ++ x :: lb →
                   y ∈ lb → y < x).
    { intros la lb x y Hsplit Hy.
      do 9 (destruct la as [| ? la]; [injection Hsplit as <- <-;
        repeat (apply elem_of_cons in Hy as [-> | Hy]; [lia |]); by apply elem_of_nil in Hy |
        injection Hsplit as <- Hsplit]).
      by destruct la. }
    assert (48 + d ∈ l1 ++ (48 + f9) :: l2) as Hm by (rewrite <- Hl; apply Hin; lia).
    apply elem_of_app in Hm as [Hm | Hm%elem_of_cons]; [done |].
    destruct Hm as [Hm | Hm]; [lia |].
    pose proof (Hdec l1 l2 (48 + f9) (48 + d) Hl Hm). lia. }
  assert (Hres : GetBroadestDigit GetGlyphWidth t front0 next0 size
                 = (f9, if w 0 >? w f9 then 0 else f9)).
  { unfold GetBroadestDigit. rewrite Hrev, foldl_app, Hfold.
    cbn [foldl GetBroadestDigit_step]. change (cw 48) with (w 0).
    destruct (w 0 >? w f9); done. }
  subst front next. rewrite Hres. cbn [fst snd].
  split; [done |]. split; [done |]. split; [done |]. split; [done |].
  assert (Hnext : ∀ d, 0 <= d <= 9 → w d <= w (if w 0 >? w f9 then 0 else f9)).
  { intros d Hd. destruct (Z.gtb_spec (w 0) (w f9)).
    - destruct (Z.eq_dec d 0) as [-> | Hd0]; [lia |]. specialize (Hall d). lia.
    - destruct (Z.eq_dec d 0) as [-> | Hd0]; [lia |]. specialize (Hall d). lia. }
  split; [done |].
  unfold GetDigitWidth.
  destruct (GetDigitWidth_fold (seqZ 48 10) 0) as (g & -> & Hge & Hmax & Heq).
  set (nx := if w 0 >? w f9 then 0 else f9) in *.
  assert (Hnx : 0 <= nx <= 9) by (subst nx; destruct (w 0 >? w f9); lia).
  assert (Hle : w nx <= g) by (apply Hmax, elem_of_seqZ; lia).
  destruct Heq as [Heq | (c & Hc%elem_of_seqZ & Heq)].
  - pose proof (Hcw (48 + nx)). unfold w in *. lia.
  - specialize (Hnext (c - 48)). unfold w in *.
    replace (48 + (c - 48)) with c in Hnext by lia. lia.
Qed.

End DigitFacts.

(** ** The cursor *)

(** X9. [UpdateCursorPositionRelative] with a fixed cursor stores the
    movement in [delta] and leaves the position; otherwise, on a screen of
    at least one pixel, the new position lies on the screen, is the old one
    moved when that is on the screen, [delta] is the old position minus the
    new one, and the cursor is marked dirty. *)
Theorem UpdateCursorPositionRelative_stays_on_screen (Clamp : Z → Z → Z → Z)
    (res_width res_height : Z) (this : CursorVars) (delta_x delta_y : Z) :
  clamps Clamp → 1 <= res_width → 1 <= res_height →
  let c := UpdateCursorPositionRelative Clamp res_width res_height this delta_x delta_y in
  (cv_fix_at this = true →
   cv_pos c = cv_pos this ∧ cv_delta c = {| pt_x := delta_x; pt_y := delta_y |} ∧
   cv_dirty c = cv_dirty this) ∧
  (cv_fix_at this = false →
   0 <= pt_x (cv_pos c) <= res_width - 1 ∧ 0 <= pt_y (cv_pos c) <= res_height - 1 ∧
   pt_x (cv_delta c) = pt_x (cv_pos this) - pt_x (cv_pos c) ∧
   pt_y (cv_delta c) = pt_y (cv_pos this) - pt_y (cv_pos c) ∧
   cv_dirty c = true ∧
   (0 <= pt_x (cv_pos this) + delta_x <= res_width - 1 →
    pt_x (cv_pos c) = pt_x (cv_pos this) + delta_x ∧ pt_x (cv_delta c) = - delta_x) ∧
   (0 <= pt_y (cv_pos this) + delta_y <= res_height - 1 →
    pt_y (cv_pos c) = pt_y (cv_pos this) + delta_y ∧ pt_y (cv_delta c) = - delta_y)).
Proof.
  intros HC Hw Hh c. subst c. unfold UpdateCursorPositionRelative.
  split; intros Hfix; rewrite Hfix; [done |]. cbn [cv_pos cv_delta cv_dirty pt_x pt_y].
  destruct (HC (pt_x (cv_pos this) + delta_x) 0 (res_width - 1)) as [Hx Hx']; [lia |].
  destruct (HC (pt_y (cv_pos this) + delta_y) 0 (res_height - 1)) as [Hy Hy']; [lia |].
  repeat split; try done; try lia.
Qed.

Lemma Clamp_cmp_clamps : clamps Clamp_cmp.
Proof. intros a lo hi H. unfold Clamp_cmp. split; [| intros Ha]; cases_cmp; lia. Qed.

(** X10. [UpdateCursorPosition] always records the position it was given
    in [last_position].  It asks for a warp exactly when the cursor is
    fixed and the computed [delta] is not zero, and then takes over the
    [queued_warp] it was given; a fixed cursor keeps its position.  A
    cursor that is not fixed moves to the position given, with no warp
    pending.  An event at the current position gives a zero [delta], no
    warp, and ends a pending one. *)
Theorem UpdateCursorPosition_warps_when_fixed (this : CursorVars) (x y : Z)
    (queued_warp : bool) :
  let r := UpdateCursorPosition this x y queued_warp in
  cv_last_position (snd r) = {| pt_x := x; pt_y := y |} ∧
  cv_fix_at (snd r) = cv_fix_at this ∧
  (fst r = true ↔
   cv_fix_at this = true ∧ (pt_x (cv_delta (snd r)) ≠ 0 ∨ pt_y (cv_delta (snd r)) ≠ 0)) ∧
  (fst r = true → cv_queued_warp (snd r) = queued_warp) ∧
  (cv_fix_at this = true → cv_pos (snd r) = cv_pos this ∧ cv_dirty (snd r) = cv_dirty this) ∧
  (cv_fix_at this = false →
   cv_pos (snd r) = {| pt_x := x; pt_y := y |} ∧ cv_queued_warp (snd r) = false ∧
   fst r = false) ∧
  (x = pt_x (cv_pos this) → y = pt_y (cv_pos this) →
   cv_delta (snd r) = {| pt_x := 0; pt_y := 0 |} ∧ fst r = false ∧
   cv_queued_warp (snd r) = false ∧ cv_pos (snd r) = cv_pos this).
Proof.
  intros r. subst r. unfold UpdateCursorPosition.
  destruct this as [[px py] dl [lx ly] fix_at qw dirty]. cbn [cv_pos cv_delta
    cv_last_position cv_fix_at cv_queued_warp cv_dirty pt_x pt_y].
  destruct fix_at, qw; cases_cmp; repeat split;
    try done; try (intros; subst; f_equal; lia); try (intros [? [? | ?]]; done);
    try (intros; split; [done | lia]); try (intros [[=] _]).
Qed.

(** X11. [GetContrastColour] returns [TC_WHITE] or [TC_BLACK].  With the
    threshold 0 it returns [TC_BLACK]; for a given background, raising the
    threshold never turns [TC_WHITE] into [TC_BLACK]; a background that is
    black gets [TC_WHITE] for every threshold above 0 and one that is white
    gets [TC_BLACK] for every threshold up to 255. *)
Theorem GetContrastColour_threshold (palette : Z → Colour) (TC_WHITE TC_BLACK : Z)
    (background threshold threshold' : Z) :
  TC_WHITE ≠ TC_BLACK →
  0 <= threshold <= threshold' →
  let contrast := GetContrastColour palette TC_WHITE TC_BLACK background in
  (contrast threshold = TC_WHITE ∨ contrast threshold = TC_BLACK) ∧
  contrast 0 = TC_BLACK ∧
  (contrast threshold = TC_WHITE → contrast threshold' = TC_WHITE) ∧
  (palette background = {| col_r := 0; col_g := 0; col_b := 0 |} → 0 < threshold →
   contrast threshold = TC_WHITE) ∧
  (palette background = {| col_r := 255; col_g := 255; col_b := 255 |} → threshold <= 255 →
   contrast threshold = TC_BLACK).
Proof.
  intros Hne Ht contrast. subst contrast. unfold GetContrastColour.
  set (sq := col_r (palette background) * col_r (palette background) * 299 +
             col_g (palette background) * col_g (palette background) * 587 +
             col_b (palette background) * col_b (palette background) * 114).
  assert (Hsq : 0 <= sq) by (subst sq; nia).
  assert (Hmono : threshold * threshold * 1000 <= threshold' * threshold' * 1000) by nia.
  split; [| split; [| split; [| split]]].
  - destruct (sq <? threshold * threshold * 1000); [by left | by right].
  - change (0 * 0 * 1000) with 0. destruct (Z.ltb_spec sq 0); [lia | done].
  - destruct (Z.ltb_spec sq (threshold * threshold * 1000)); [| done].
    intros _. destruct (Z.ltb_spec sq (threshold' * threshold' * 1000)); [done | lia].
  - intros Hp Hpos. subst sq. rewrite Hp. cbn [col_r col_g col_b].
    destruct (Z.ltb_spec (0 * 0 * 299 + 0 * 0 * 587 + 0 * 0 * 114)
                (threshold * threshold * 1000)); [done | nia].
  - intros Hp Hmax. subst sq. rewrite Hp. cbn [col_r col_g col_b].
    destruct (Z.ltb_spec (255 * 255 * 299 + 255 * 255 * 587 + 255 * 255 * 114)
                (threshold * threshold * 1000)); [nia | done].
Qed.

Lemma UpdateCursorSize_loop_covers (sprites : list (Point * Point)) (total : Point * Point)
    (seen : list (Point * Point)) :
  Forall (λ r, rect_inside r total) seen →
  Forall (λ r, rect_inside r (UpdateCursorSize_loop sprites false total)) (seen ++ sprites).
Proof.
  revert total seen. induction sprites as [| [offs size] rest IH]; intros total seen Hseen.
  - by rewrite app_nil_r.
  - cbn [UpdateCursorSize_loop]. destruct total as [toffs tsize].
    replace (seen ++ (offs, size) :: rest) with ((seen ++ [(offs, size)]) ++ rest)
      by (by rewrite <- app_assoc).
    apply IH. apply Forall_app. split.
    + eapply Forall_impl; [exact Hseen |]. intros [o s]. unfold rect_inside. simpl.
      cases_cmp; lia.
    + apply Forall_singleton. unfold rect_inside. simpl. cases_cmp; lia.
Qed.

(** X12. When sprites are loaded and the cursor has at least one sprite,
    [UpdateCursorSize] leaves in [total_offs] and [total_size] a rectangle
    that contains the rectangle of every sprite of the cursor, and marks
    the cursor dirty; before sprites are loaded it changes nothing; with
    more sprites than [sprite_seq] holds the assertion fails. *)
Theorem UpdateCursorSize_covers_sprites (GetMaxSpriteID : Z) (capacity : nat)
    (sprites : list (Point * Point)) (total : Point * Point) (dirty : bool) :
  (GetMaxSpriteID = 0 →
   UpdateCursorSize GetMaxSpriteID capacity sprites total dirty = Some (total, dirty)) ∧
  (GetMaxSpriteID ≠ 0 → (capacity < length sprites)%nat →
   UpdateCursorSize GetMaxSpriteID capacity sprites total dirty = None) ∧
  (GetMaxSpriteID ≠ 0 → (length sprites ≤ capacity)%nat →
   ∃ total', UpdateCursorSize GetMaxSpriteID capacity sprites total dirty
             = Some (total', true) ∧
             (sprites = [] → total' = total) ∧
             Forall (λ r, rect_inside r total') sprites).
Proof.
  unfold UpdateCursorSize. split; [| split].
  - intros ->. done.
  - intros Hid Hcap. destruct (Z.eqb_spec GetMaxSpriteID 0); [done |].
    destruct (Nat.ltb_spec capacity (length sprites)); [done | lia].
  - intros Hid Hcap. destruct (Z.eqb_spec GetMaxSpriteID 0); [done |].
    destruct (Nat.ltb_spec capacity (length sprites)); [lia |].
    eexists; split; [reflexivity |]. split; [by intros -> |].
    destruct sprites as [| [offs size] rest]; [done |].
    cbn [UpdateCursorSize_loop].
    apply (UpdateCursorSize_loop_covers rest (offs, size) [(offs, size)]).
    apply Forall_singleton. unfold rect_inside. simpl. lia.
Qed.

(** ** More of CommandCost *)

Section CommandCostMore.
Context `{E : ExternTypes}.

Lemma land_bit0 (f : Z) : Z.land f 1 = 0 ∨ Z.land f 1 = 1.
Proof.
  replace (Z.land f 1) with (f mod 2).
  - pose proof (Z.mod_pos_bound f 2). lia.
  - change 1 with (Z.ones 1). rewrite Z.land_ones by lia. done.
Qed.

Lemma uint8_split_bit0 (f : Z) :
  0 <= f < 256 → Z.lor (Z.land f 254) (Z.land f 1) = f.
Proof.
  intros Hf. rewrite <- Z.land_lor_distr_r. change (Z.lor 254 1) with 0xFF.
  by apply land_byte.
Qed.

(** [DualErrorMessage(msg, extra_msg)] is a failed value with no
    cost, whose two messages are the ones given. *)
Theorem DualErrorMessage_messages (msg extra_msg : StringID) :
  Failed (DualErrorMessage msg extra_msg) = true ∧
  GetErrorMessage (DualErrorMessage msg extra_msg) = msg ∧
  GetExtraErrorMessage (DualErrorMessage msg extra_msg) = extra_msg ∧
  GetCost (DualErrorMessage msg extra_msg) = Money_zero ∧
  IsSuccessWithMessage (DualErrorMessage msg extra_msg) = false.
Proof. repeat split. Qed.

(** X13. On values whose flags are a [uint8], [MakeSuccessWithMessage] and
    [UnwrapSuccessWithMessage] undo each other: a failed value with an
    error message becomes a success with message that unwraps to the
    value itself, and a success with message unwraps to a failed value
    from which [MakeSuccessWithMessage] makes it again.  On a failed value
    without a message the assertion of [MakeSuccessWithMessage] fails. *)
Theorem MakeSuccessWithMessage_Unwrap_inverse (c : CommandCost) :
  0 <= flags c < 256 →
  (Failed c = true → message c ≠ INVALID_STRING_ID →
   ∃ s, MakeSuccessWithMessage c = Some s ∧ IsSuccessWithMessage s = true ∧
        GetCost s = GetCost c ∧ UnwrapSuccessWithMessage s = Some c) ∧
  (IsSuccessWithMessage c = true →
   ∃ r, UnwrapSuccessWithMessage c = Some r ∧ MakeSuccessWithMessage r = Some c) ∧
  (message c = INVALID_STRING_ID → MakeSuccessWithMessage c = None).
Proof.
  intros Hf. split; [| split].
  - intros Hfail Hmsg. unfold MakeSuccessWithMessage. rewrite decide_False by done.
    eexists; split; [reflexivity |].
    assert (Hs : Succeeded (set_flags c (ccif_or (flags c) CCIF_SUCCESS)) = true).
    { unfold Succeeded. apply nonzero_true. by apply land_lor_set. }
    assert (Hi : IsSuccessWithMessage (set_flags c (ccif_or (flags c) CCIF_SUCCESS)) = true).
    { unfold IsSuccessWithMessage. rewrite Hs. simpl.
      by rewrite bool_decide_eq_false_2. }
    split; [done |]. split; [done |].
    unfold UnwrapSuccessWithMessage. rewrite Hi. f_equal.
    destruct c as [cst ex fl msg il aux]. unfold set_flags. simpl in *. f_equal.
    unfold ccif_and, ccif_or.
    change (ccif_not CCIF_SUCCESS) with 254. change CCIF_SUCCESS with 1.
    rewrite Z.land_lor_distr_l. change (Z.land 1 254) with 0. rewrite Z.lor_0_r.
    rewrite <- (uint8_split_bit0 fl) at 2 by done.
    unfold Failed, Succeeded in Hfail. simpl in Hfail.
    apply negb_true_iff, nonzero_false in Hfail. unfold ccif_and in Hfail.
    change CCIF_SUCCESS with 1 in Hfail. by rewrite Hfail, Z.lor_0_r.
  - intros Hi. unfold UnwrapSuccessWithMessage. rewrite Hi.
    eexists; split; [reflexivity |].
    apply andb_true_iff in Hi as [Hs Hm].
    apply negb_true_iff, bool_decide_eq_false in Hm.
    unfold MakeSuccessWithMessage. simpl. rewrite decide_False by done. f_equal.
    destruct c as [cst ex fl msg il aux]. unfold set_flags. simpl in *. f_equal.
    unfold ccif_and, ccif_or.
    change (ccif_not CCIF_SUCCESS) with 254. change CCIF_SUCCESS with 1.
    unfold Succeeded in Hs. simpl in Hs. apply nonzero_true in Hs.
    unfold ccif_and in Hs. change CCIF_SUCCESS with 1 in Hs.
    destruct (land_bit0 fl) as [H0 | H1]; [done |].
    rewrite <- H1 at 1. by apply uint8_split_bit0.
  - intros Hm. unfold MakeSuccessWithMessage. by rewrite decide_True.
Qed.

End CommandCostMore.

(** ** More of the command word and the command flags *)

(** X14. [CommandFlagsToDCFlags] sets [DC_NO_WATER], [DC_AUTO] and
    [DC_ALL_TILES] exactly when the command flags have [CMD_NO_WATER],
    [CMD_AUTO] and [CMD_ALL_TILES], and sets nothing else; in particular
    never [DC_EXEC]. *)
Theorem CommandFlagsToDCFlags_three_flags (cmd_flags : CommandFlags) :
  let flags := CommandFlagsToDCFlags cmd_flags in
  nonzero (Z.land flags DC_NO_WATER) = nonzero (cmdflags_and cmd_flags CMD_NO_WATER) ∧
  nonzero (Z.land flags DC_AUTO) = nonzero (cmdflags_and cmd_flags CMD_AUTO) ∧
  nonzero (Z.land flags DC_ALL_TILES) = nonzero (cmdflags_and cmd_flags CMD_ALL_TILES) ∧
  Z.land flags (Z.lor (Z.lor DC_NO_WATER DC_AUTO) DC_ALL_TILES) = flags ∧
  Z.land flags DC_EXEC = 0.
Proof.
  intros flags. subst flags. unfold CommandFlagsToDCFlags.
  destruct (nonzero (cmdflags_and cmd_flags CMD_NO_WATER)),
    (nonzero (cmdflags_and cmd_flags CMD_AUTO)),
    (nonzero (cmdflags_and cmd_flags CMD_ALL_TILES)); done.
Qed.

(** X15. In a command word, which has 32 bits, the error string put in
    with [CMD_MSG] lies outside the identifier and the flags, and shifting
    the word right by 16 gives the low 16 bits of the error string: the
    error string itself when it is below [0x10000], as every string
    identifier up to [INVALID_STRING_ID] is; its higher bits are lost. *)
Theorem command_word_message (c : Commands) (fl : Z) (msg : StringID) :
  Z.land fl CMD_FLAGS_MASK = fl →
  Z.land (CMD_MSG msg) (Z.lor CMD_ID_MASK CMD_FLAGS_MASK) = 0 ∧
  0 <= command_word c fl msg < 2 ^ 32 ∧
  Z.shiftr (command_word c fl msg) 16 = msg mod 2 ^ 16 ∧
  (0 <= msg < 2 ^ 16 → Z.shiftr (command_word c fl msg) 16 = msg).
Proof.
  intros Hfl.
  assert (Hshift : Z.shiftr (command_word c fl msg) 16 = msg mod 2 ^ 16).
  { apply Z.bits_inj'. intros n Hn.
    rewrite Z.shiftr_spec by done. unfold command_word, CMD_MSG.
    rewrite testbit_to_uint32, !Z.lor_spec, testbit_to_uint32 by lia.
    rewrite Z.shiftl_spec by lia. replace (n + 16 - 16) with n by lia.
    pose proof (Commands_value_range c) as Hc. simpl in Hc.
    rewrite (testbit_low16 (Commands_value c)) by lia.
    rewrite <- Hfl, Z.land_spec, (testbit_low16 CMD_FLAGS_MASK) by (unfold CMD_FLAGS_MASK; lia).
    rewrite andb_false_r. simpl.
    destruct (Z.ltb_spec n 16).
    - rewrite Z.mod_pow2_bits_low by lia.
      destruct (Z.ltb_spec (n + 16) 32); [done | lia].
    - rewrite Z.mod_pow2_bits_high by lia.
      destruct (Z.ltb_spec (n + 16) 32); [lia | done]. }
  split; [| split; [| split]].
  - unfold CMD_MSG. change (Z.lor CMD_ID_MASK CMD_FLAGS_MASK) with 0xFFFF.
    rewrite land_to_uint32 by lia. by apply land_shiftl_low.
  - unfold command_word, to_uint32. apply Z.mod_pos_bound. lia.
  - exact Hshift.
  - intros Hmsg. rewrite Hshift. by apply Z.mod_small.
Qed.

Section CommandMore.
Context `{E : ExternTypes}.

(** X16. The constructors of [Command] change no flag but [CMD_PROCEX]:
    every other member of [CommandFlags] is set in the descriptor exactly
    when it is set in the flags given, and the name and the type are the
    ones given. *)
Theorem Command_constructors_keep_flags (proc : CommandProc) (procex : CommandProcEx)
    (nm : string) (fl : CommandFlags) (ty : CommandType) (flag : CommandFlags) :
  flag ∈ CommandFlags_but_PROCEX →
  cmdflags_and (cmd_flags (Command_of_proc proc nm fl ty)) flag = cmdflags_and fl flag ∧
  cmdflags_and (cmd_flags (Command_of_procex procex nm fl ty)) flag = cmdflags_and fl flag ∧
  name (Command_of_proc proc nm fl ty) = nm ∧ type (Command_of_proc proc nm fl ty) = ty ∧
  name (Command_of_procex procex nm fl ty) = nm ∧
  type (Command_of_procex procex nm fl ty) = ty.
Proof.
  intros Hflag. simpl. unfold cmdflags_and, cmdflags_or.
  assert (Hkeep : Z.land (cmdflags_not CMD_PROCEX) flag = flag ∧ Z.land CMD_PROCEX flag = 0).
  { unfold CommandFlags_but_PROCEX in Hflag.
    repeat (apply elem_of_cons in Hflag as [-> | Hflag]; [done |]).
    by apply elem_of_nil in Hflag. }
  destruct Hkeep as [Hk1 Hk2].
  split; [by apply land_land_keep |]. split; [| done].
  by rewrite Z.land_lor_distr_l, Hk2, Z.lor_0_r.
Qed.

End CommandMore.

(** ** The setters of ScriptCompany *)

Section ScriptCompanySettersFacts.
Context `{E : ExternTypes}.
Variable ScriptCompanyMode_IsValid : bool.
Variable EncodedText_ok : string → bool.
Variable Utf8StringLength : string → Z.
Variable MAX_LENGTH_COMPANY_NAME_CHARS MAX_LENGTH_PRESIDENT_NAME_CHARS : Z.
Variable DoCommand_returns : TileIndex → uint32 → uint32 → Commands → string → bool.
Variable Clamp : Z → Z → Z → Z.
Variable Money_int64 : Money → Z.

Local Abbreviation SetName' :=
  (SetName ScriptCompanyMode_IsValid EncodedText_ok Utf8StringLength
           MAX_LENGTH_COMPANY_NAME_CHARS DoCommand_returns).
Local Abbreviation SetPresidentName' :=
  (SetPresidentName ScriptCompanyMode_IsValid EncodedText_ok Utf8StringLength
                    MAX_LENGTH_PRESIDENT_NAME_CHARS DoCommand_returns).
Local Abbreviation SetAutoRenewStatus' :=
  (SetAutoRenewStatus ScriptCompanyMode_IsValid DoCommand_returns).
Local Abbreviation SetAutoRenewMonths' :=
  (SetAutoRenewMonths ScriptCompanyMode_IsValid DoCommand_returns Clamp).
Local Abbreviation SetAutoRenewMoney' :=
  (SetAutoRenewMoney ScriptCompanyMode_IsValid DoCommand_returns Money_int64).

Ltac script_cases :=
  unfold SetName, SetPresidentName, SetAutoRenewStatus, SetAutoRenewMonths,
    SetAutoRenewMoney, EnforceCompanyModeValid, EnforcePreconditionEncodedText,
    EnforcePrecondition, EnforcePreconditionCustomError, ScriptObject_DoCommand;
  repeat match goal with
         | |- context [bool_decide (Some ?n ≠ None)] =>
           rewrite (bool_decide_eq_true_2 (Some n ≠ None)) by done
         | |- context [bool_decide (None ≠ None)] =>
           rewrite (bool_decide_eq_false_2 (@None Text ≠ None)) by (intros H; by apply H)
         | |- context [if ?b then _ else _] => destruct b eqn:?
         end.

(** X17. Each of [SetName], [SetPresidentName], [SetAutoRenewStatus],
    [SetAutoRenewMonths] and [SetAutoRenewMoney] has one of two outcomes,
    whatever it is given: it records one error, hands no command to
    [ScriptObject::DoCommand] and returns false, or it records no error,
    hands over one command and returns the answer to it. *)
Theorem ScriptCompany_setters_fail_or_dispatch (name : option Text) (autorenew : bool)
    (months : Z) (money : Money) :
  let outcome m := fails_before_dispatch m ∨ dispatches_once DoCommand_returns m in
  outcome (SetName' name) ∧ outcome (SetPresidentName' name) ∧
  outcome (SetAutoRenewStatus' autorenew) ∧ outcome (SetAutoRenewMonths' months) ∧
  outcome (SetAutoRenewMoney' money).
Proof.
  intros outcome. subst outcome. unfold fails_before_dispatch, dispatches_once.
  destruct name as [nm |]; repeat split; script_cases;
    first [ left; eexists; reflexivity | right; eexists _, _, _, _, _; reflexivity ].
Qed.

(** X18. Outside a valid company mode each of the five fails before
    dispatch with [ERR_PRECONDITION_INVALID_COMPANY], whatever else it is
    given. *)
Theorem ScriptCompany_setters_need_company_mode (name : option Text) (autorenew : bool)
    (months : Z) (money : Money) :
  ScriptCompanyMode_IsValid = false →
  let failed := ([EvSetLastError ERR_PRECONDITION_INVALID_COMPANY], false) in
  SetName' name = failed ∧ SetPresidentName' name = failed ∧
  SetAutoRenewStatus' autorenew = failed ∧ SetAutoRenewMonths' months = failed ∧
  SetAutoRenewMoney' money = failed.
Proof.
  intros Hv failed. subst failed.
  unfold SetName, SetPresidentName, SetAutoRenewStatus, SetAutoRenewMonths,
    SetAutoRenewMoney, EnforceCompanyModeValid. rewrite Hv. done.
Qed.

(** X19. In a valid company mode [SetAutoRenewMonths] always hands over
    the command for the setting [company.engine_renew_months]; its second
    parameter, read as [int32], lies between [INT16_MIN] and [INT16_MAX]
    and is the number of months given when that lies in this range. *)
Theorem SetAutoRenewMonths_clamps (months : Z) :
  clamps Clamp → ScriptCompanyMode_IsValid = true →
  ∃ p2, SetAutoRenewMonths' months
        = ([EvDoCommand 0 0 p2 CMD_CHANGE_COMPANY_SETTING "company.engine_renew_months"],
           DoCommand_returns 0 0 p2 CMD_CHANGE_COMPANY_SETTING
             "company.engine_renew_months") ∧
        0 <= p2 < 2 ^ 32 ∧
        INT16_MIN <= to_int32 p2 <= INT16_MAX ∧
        (INT16_MIN <= months <= INT16_MAX → to_int32 p2 = months).
Proof.
  intros HC Hv. unfold SetAutoRenewMonths, EnforceCompanyModeValid,
    EnforcePreconditionCustomError, ScriptObject_DoCommand. rewrite Hv.
  eexists; split; [reflexivity |].
  destruct (HC months INT16_MIN INT16_MAX) as [Hr Hid]; [done |].
  set (m := Clamp months INT16_MIN INT16_MAX) in *.
  unfold INT16_MIN, INT16_MAX in *.
  assert (Hu : 0 <= to_uint32 m < 2 ^ 32) by (apply Z.mod_pos_bound; lia).
  assert (Hi : to_int32 (to_uint32 m) = m).
  { unfold to_int32, to_uint32 in *.
    destruct (Z.le_gt_cases 0 m) as [Hpos | Hneg].
    - rewrite Z.mod_small by lia. destruct (Z.ltb_spec m (2 ^ 31)); lia.
    - replace (m mod 2 ^ 32) with (m + 2 ^ 32).
      + destruct (Z.ltb_spec (m + 2 ^ 32) (2 ^ 31)); lia.
      + apply (Z.mod_unique_pos _ _ (-1)); lia. }
  rewrite Hi. split; [done |]. split; [done |]. done.
Qed.

(** X20. In a valid company mode [SetAutoRenewMoney] hands over the
    command for [company.engine_renew_money] with the amount itself as
    second parameter when the amount is between 0 and [UINT32_MAX]; for any
    other amount it fails before dispatch with [ERR_PRECONDITION_FAILED]. *)
Theorem SetAutoRenewMoney_range (money : Money) :
  ScriptCompanyMode_IsValid = true →
  (0 <= Money_int64 money <= UINT32_MAX →
   SetAutoRenewMoney' money
   = ([EvDoCommand 0 0 (Money_int64 money) CMD_CHANGE_COMPANY_SETTING
         "company.engine_renew_money"],
      DoCommand_returns 0 0 (Money_int64 money) CMD_CHANGE_COMPANY_SETTING
        "company.engine_renew_money")) ∧
  (¬ (0 <= Money_int64 money <= UINT32_MAX) →
   SetAutoRenewMoney' money = ([EvSetLastError ERR_PRECONDITION_FAILED], false)).
Proof.
  intros Hv. unfold SetAutoRenewMoney, EnforceCompanyModeValid, EnforcePrecondition,
    EnforcePreconditionCustomError, ScriptObject_DoCommand. rewrite Hv.
  unfold UINT32_MAX. split; intros Hm.
  - destruct (Z.geb_spec (Money_int64 money) 0); [| lia].
    destruct (Z.leb_spec (Money_int64 money) 4294967295); [| lia].
    unfold to_uint32. rewrite Z.mod_small by lia. done.
  - destruct (Z.geb_spec (Money_int64 money) 0); [| done].
    destruct (Z.leb_spec (Money_int64 money) 4294967295); [lia | done].
Qed.

(** X21. When the decoded name has [MAX_LENGTH_PRESIDENT_NAME_CHARS] or
    more characters, [SetPresidentName] returns false and hands no command
    over; when the checks before the length check pass, all it does is to
    record [ERR_PRECONDITION_STRING_TOO_LONG].  A shorter name that passes
    the checks is handed over with [CMD_RENAME_PRESIDENT]. *)
Theorem SetPresidentName_checks_length (name : Text) :
  (MAX_LENGTH_PRESIDENT_NAME_CHARS <= Utf8StringLength (GetDecodedText name) →
   snd (SetPresidentName' (Some name)) = false ∧
   calls_DoCommand (SetPresidentName' (Some name)) = false ∧
   (ScriptCompanyMode_IsValid = true → EncodedText_ok (GetDecodedText name) = true →
    SetPresidentName' (Some name)
    = ([EvSetLastError ERR_PRECONDITION_STRING_TOO_LONG], false))) ∧
  (Utf8StringLength (GetDecodedText name) < MAX_LENGTH_PRESIDENT_NAME_CHARS →
   ScriptCompanyMode_IsValid = true → EncodedText_ok (GetDecodedText name) = true →
   SetPresidentName' (Some name)
   = ([EvDoCommand 0 0 0 CMD_RENAME_PRESIDENT (GetDecodedText name)],
      DoCommand_returns 0 0 0 CMD_RENAME_PRESIDENT (GetDecodedText name))).
Proof.
  unfold SetPresidentName, EnforceCompanyModeValid, EnforcePreconditionEncodedText,
    EnforcePrecondition. split.
  - intros Hlen.
    assert (Hlt : (Utf8StringLength (GetDecodedText name) <? MAX_LENGTH_PRESIDENT_NAME_CHARS)
                  = false) by (apply Z.ltb_ge; lia).
    rewrite Hlt.
    destruct ScriptCompanyMode_IsValid, (EncodedText_ok (GetDecodedText name));
      repeat split; done.
  - intros Hlen Hv Hok. apply Z.ltb_lt in Hlen. by rewrite Hv, Hok, Hlen.
Qed.

End ScriptCompanySettersFacts.

(** ** Dirty blocks *)

Lemma covering_app (x y : Z) (l1 l2 : list Rect) :
  covering x y (l1 ++ l2) = (covering x y l1 + covering x y l2)%nat.
Proof. unfold covering. by rewrite List.filter_app, length_app. Qed.

Lemma covering_cons (x y : Z) (r : Rect) (l : list Rect) :
  covering x y (r :: l) = ((if in_rect x y r then 1 else 0) + covering x y l)%nat.
Proof. unfold covering. simpl. by destruct (in_rect x y r). Qed.

Lemma covering_nil (x y : Z) : covering x y [] = 0%nat.
Proof. reflexivity. Qed.

(** Taking the element at [start] out by storing the last element there:
    the elements before [start] stay, and each pixel loses the removed
    rectangle from its count. *)
Lemma swap_remove_spec (start : nat) (blocks : list Rect) (r : Rect) :
  blocks !! start = Some r →
  take start (swap_remove start blocks) = take start blocks ∧
  length (swap_remove start blocks) = (length blocks - 1)%nat ∧
  ∀ x y, (covering x y (swap_remove start blocks) + (if in_rect x y r then 1 else 0))%nat
         = covering x y blocks.
Proof.
  intros Hr. unfold swap_remove.
  destruct (last blocks) as [b |] eqn:Hlast.
  2: { apply last_None in Hlast. subst blocks. by rewrite lookup_nil in Hr. }
  apply last_Some in Hlast as [l' ->].
  rewrite length_app. simpl. replace (length l' + 1 - 1)%nat with (length l') by lia.
  destruct (decide (start < length l')%nat) as [Hlt | Hge].
  - rewrite insert_app_l by done.
    rewrite take_app_length'. 2: { by rewrite length_insert. }
    rewrite lookup_app_l in Hr by done.
    split; [| split].
    + rewrite take_insert_ge by lia. rewrite take_app_le by lia. done.
    + by rewrite length_insert.
    + intros x y.
      assert (covering x y l' =
              (covering x y (take start l') +
               ((if in_rect x y r then 1 else 0) + covering x y (drop (S start) l')))%nat)
        as Hl'.
      { rewrite <- (take_drop_middle l' start r Hr) at 1.
        by rewrite covering_app, covering_cons. }
      rewrite insert_take_drop by done.
      rewrite !covering_app, !covering_cons, covering_nil, Hl'.
      destruct (in_rect x y r), (in_rect x y b); lia.
  - assert (start = length l') as ->.
    { apply lookup_lt_Some in Hr. rewrite length_app in Hr. simpl in Hr. lia. }
    rewrite insert_app_r_alt by lia. rewrite Nat.sub_diag. simpl.
    rewrite take_app_length.
    rewrite lookup_app_r in Hr by lia. rewrite Nat.sub_diag in Hr. injection Hr as ->.
    split; [| split].
    + by rewrite take_ge.
    + done.
    + intros x y. rewrite covering_app, covering_cons, covering_nil. lia.
Qed.



Ltac split_ifs :=
  repeat match goal with
         | |- context [if ?c then _ else _] => destruct c eqn:?
         end.

(** More fuel does not change a result. *)
Lemma AddDirtyBlocks_fuel_mono (fuel : nat) :
  (∀ fuel' start left top right bottom blocks res,
     (fuel ≤ fuel')%nat →
     AddDirtyBlocks fuel start left top right bottom blocks = Some res →
     AddDirtyBlocks fuel' start left top right bottom blocks = Some res) ∧
  (∀ fuel' start left top right bottom blocks res,
     (fuel ≤ fuel')%nat →
     AddDirtyBlocks_loop fuel start left top right bottom blocks = Some res →
     AddDirtyBlocks_loop fuel' start left top right bottom blocks = Some res).
Proof.
  induction fuel as [| fuel [IH IHloop]]; [by split |].
  split; intros fuel' start left top right bottom blocks res Hle H;
    (destruct fuel' as [| fuel']; [lia |]); simpl in H |- *.
  - destruct ((bottom <=? top) || (right <=? left)); [done |].
    apply IHloop; [lia | done].
  - destruct (blocks !! start) as [r |]; [| done].
    revert H. split_ifs; intros H; try done;
      try (apply IHloop; [lia | done]);
      (match type of H with
       | mbind _ ?m = _ => destruct m as [blocks1 |] eqn:E1; [| done]
       end;
       apply IH with (fuel' := fuel') in E1; [| lia]; rewrite E1;
       simpl in H |- *; apply IH; [lia | done]).
Qed.


Ltac bool_props :=
  repeat match goal with
         | H : _ && _ = true |- _ => apply andb_true_iff in H; destruct H
         | H : _ && _ = false |- _ => apply andb_false_iff in H
         | H : _ || _ = false |- _ => apply orb_false_iff in H; destruct H
         | H : (_ <=? _) = true |- _ => apply Z.leb_le in H
         | H : (_ <=? _) = false |- _ => apply Z.leb_gt in H
         | H : (_ <? _) = true |- _ => apply Z.ltb_lt in H
         | H : (_ <? _) = false |- _ => apply Z.ltb_ge in H
         | H : (_ >=? _) = _ |- _ => rewrite Z.geb_leb in H
         | H : (_ >? _) = _ |- _ => rewrite Z.gtb_ltb in H
         end.

Lemma in_rect_true (x y : Z) (r : Rect) :
  in_rect x y r = true ↔ rc_left r ≤ x < rc_right r ∧ rc_top r ≤ y < rc_bottom r.
Proof.
  unfold in_rect. rewrite !andb_true_iff, !Z.leb_le, !Z.ltb_lt. lia.
Qed.

Lemma in_rect_false (x y : Z) (r : Rect) :
  in_rect x y r = false ↔ ¬ (rc_left r ≤ x < rc_right r ∧ rc_top r ≤ y < rc_bottom r).
Proof. rewrite <- in_rect_true. by destruct (in_rect x y r). Qed.

Lemma covering_lookup (x y : Z) (blocks : list Rect) (start : nat) (r : Rect) :
  blocks !! start = Some r →
  covering x y blocks =
  (covering x y (take start blocks) +
   ((if in_rect x y r then 1 else 0) + covering x y (drop (S start) blocks)))%nat.
Proof.
  intros Hr. rewrite <- (take_drop_middle blocks start r Hr) at 1.
  by rewrite covering_app, covering_cons.
Qed.

Lemma take_prefix_length (start : nat) (l1 l2 : list Rect) :
  take start l1 = take start l2 → (start ≤ length l2)%nat → (start ≤ length l1)%nat.
Proof.
  intros H Hle. apply (f_equal length) in H. rewrite !length_take in H. lia.
Qed.

Lemma take_prefix_le (n m : nat) (l1 l2 : list Rect) :
  take m l1 = take m l2 → (n ≤ m)%nat → take n l1 = take n l2.
Proof.
  intros H Hle. apply (f_equal (take n)) in H. rewrite !take_take in H.
  by rewrite !Nat.min_l in H by done.
Qed.

(** A rectangle cut in two along a vertical or a horizontal line. *)
Lemma halves_in_rect (R A B : Rect) (x y : Z) :
  (rc_left A = rc_left R ∧ rc_right B = rc_right R ∧ rc_right A = rc_left B ∧
   rc_left R ≤ rc_right A ≤ rc_right R ∧
   rc_top A = rc_top R ∧ rc_top B = rc_top R ∧
   rc_bottom A = rc_bottom R ∧ rc_bottom B = rc_bottom R) ∨
  (rc_top A = rc_top R ∧ rc_bottom B = rc_bottom R ∧ rc_bottom A = rc_top B ∧
   rc_top R ≤ rc_bottom A ≤ rc_bottom R ∧
   rc_left A = rc_left R ∧ rc_left B = rc_left R ∧
   rc_right A = rc_right R ∧ rc_right B = rc_right R) →
  in_rect x y R = in_rect x y A || in_rect x y B.
Proof.
  intros H.
  destruct (in_rect x y R) eqn:HR, (in_rect x y A) eqn:HA, (in_rect x y B) eqn:HB;
    try done;
    repeat match goal with
           | H : in_rect _ _ _ = true |- _ => apply in_rect_true in H
           | H : in_rect _ _ _ = false |- _ => apply in_rect_false in H
           end; lia.
Qed.

(** One step of the two halves: the rectangle [R] is cut in [A] and [B],
    [A] is added, then [B]. *)
Lemma AddDirtyBlocks_halves (R A B : Rect) (start : nat) (blocks blocks1 res : list Rect) :
  (∀ x y, in_rect x y R = in_rect x y A || in_rect x y B) →
  (start ≤ length blocks)%nat →
  no_overlap blocks →
  (∀ x y, in_rect x y R = true → covering x y (take start blocks) = 0%nat) →
  ((start ≤ length blocks)%nat → no_overlap blocks →
   (∀ x y, in_rect x y A = true → covering x y (take start blocks) = 0%nat) →
   take start blocks1 = take start blocks ∧
   ∀ x y, covering x y blocks1 = if in_rect x y A then 1%nat else covering x y blocks) →
  ((start ≤ length blocks1)%nat → no_overlap blocks1 →
   (∀ x y, in_rect x y B = true → covering x y (take start blocks1) = 0%nat) →
   take start res = take start blocks1 ∧
   ∀ x y, covering x y res = if in_rect x y B then 1%nat else covering x y blocks1) →
  take start res = take start blocks ∧
  ∀ x y, covering x y res = if in_rect x y R then 1%nat else covering x y blocks.
Proof.
  intros HR H0 H1 H2 HA HB.
  destruct HA as [HA1 HA2]; [done | done | |].
  { intros x y Hin. apply H2. rewrite HR, Hin. done. }
  destruct HB as [HB1 HB2].
  { by eapply take_prefix_length. }
  { intros x y. rewrite HA2. destruct (in_rect x y A); [done | apply H1]. }
  { intros x y Hin. rewrite HA1. apply H2. rewrite HR, Hin. by rewrite orb_true_r. }
  split; [congruence |].
  intros x y. rewrite HB2, HA2, HR.
  by destruct (in_rect x y A), (in_rect x y B).
Qed.

Lemma AddDirtyBlocks_sound (fuel : nat) :
  (∀ start left top right bottom blocks res,
     AddDirtyBlocks fuel start left top right bottom blocks = Some res →
     (start ≤ length blocks)%nat →
     no_overlap blocks →
     (∀ x y, in_rect x y (mk_rect left top right bottom) = true →
             covering x y (take start blocks) = 0%nat) →
     take start res = take start blocks ∧
     ∀ x y, covering x y res =
            if in_rect x y (mk_rect left top right bottom) then 1%nat
            else covering x y blocks) ∧
  (∀ start left top right bottom blocks res,
     AddDirtyBlocks_loop fuel start left top right bottom blocks = Some res →
     (start ≤ length blocks)%nat →
     no_overlap blocks →
     (∀ x y, in_rect x y (mk_rect left top right bottom) = true →
             covering x y (take start blocks) = 0%nat) →
     take start res = take start blocks ∧
     ∀ x y, covering x y res =
            if in_rect x y (mk_rect left top right bottom) then 1%nat
            else covering x y blocks).
Proof.
  induction fuel as [| fuel [IH IHloop]]; [by split |].
  split; intros start left top right bottom blocks res H H0 H1 H2; simpl in H.
  - destruct ((bottom <=? top) || (right <=? left)) eqn:Hempty.
    + injection H as <-. split; [done |]. intros x y.
      destruct (in_rect x y (mk_rect left top right bottom)) eqn:Hin; [| done].
      apply in_rect_true in Hin. simpl in Hin.
      apply orb_true_iff in Hempty as [He | He]; apply Z.leb_le in He; lia.
    + by apply IHloop.
  - destruct (blocks !! start) as [r |] eqn:Hr.
    2: { injection H as <-. apply lookup_ge_None in Hr.
         split; [by rewrite take_app_le by lia |].
         intros x y. rewrite covering_app, covering_cons, covering_nil.
         fold (mk_rect left top right bottom).
         destruct (in_rect x y (mk_rect left top right bottom)) eqn:Hin; [| lia].
         apply H2 in Hin. rewrite take_ge in Hin by lia. lia. }
    assert (Hnext : ∀ res,
      AddDirtyBlocks_loop fuel (S start) left top right bottom blocks = Some res →
      (∀ x y, in_rect x y (mk_rect left top right bottom) = true →
              in_rect x y r = false) →
      take start res = take start blocks ∧
      ∀ x y, covering x y res =
             if in_rect x y (mk_rect left top right bottom) then 1%nat
             else covering x y blocks).
    { intros res' H' Hdisj. apply IHloop in H' as [H'1 H'2]; [| | done |].
      - split; [| done]. eapply take_prefix_le; [done | lia].
      - by apply lookup_lt_Some in Hr.
      - intros x y Hin. rewrite (take_S_r _ _ _ Hr), covering_app, covering_cons, covering_nil.
        rewrite (H2 _ _ Hin), (Hdisj _ _ Hin). done. }
    revert H.
    destruct ((left <=? rc_right r) && (right >=? rc_left r) &&
              (top <=? rc_bottom r) && (bottom >=? rc_top r)) eqn:Htouch.
    2: { intros H. apply Hnext; [done |]. intros x y Hin.
         apply in_rect_true in Hin. simpl in Hin. apply in_rect_false.
         bool_props. lia. }
    destruct ((left >=? rc_left r) && (right <=? rc_right r) &&
              (top >=? rc_top r) && (bottom <=? rc_bottom r)) eqn:Hinside.
    { intros [= <-]. split; [done |]. intros x y.
      destruct (in_rect x y (mk_rect left top right bottom)) eqn:Hin; [| done].
      assert (in_rect x y r = true) as Hinr.
      { apply in_rect_true in Hin. simpl in Hin. apply in_rect_true. bool_props. lia. }
      pose proof (H1 x y) as Hle. rewrite (covering_lookup _ _ _ _ _ Hr), Hinr in Hle |- *.
      lia. }
    destruct ((left <=? rc_left r) && (right >=? rc_right r) &&
              (top <=? rc_top r) && (bottom >=? rc_bottom r)) eqn:Hcontains.
    { intros H. destruct (swap_remove_spec _ _ _ Hr) as (Hs1 & Hs2 & Hs3).
      apply IHloop in H as [Hres1 Hres2].
      - split; [congruence |]. intros x y. rewrite Hres2.
        destruct (in_rect x y (mk_rect left top right bottom)) eqn:Hin; [done |].
        assert (in_rect x y r = false) as Hinr.
        { apply in_rect_false in Hin. simpl in Hin. apply in_rect_false. bool_props. lia. }
        specialize (Hs3 x y). rewrite Hinr in Hs3. lia.
      - apply lookup_lt_Some in Hr. lia.
      - intros x y. specialize (Hs3 x y). specialize (H1 x y). lia.
      - intros x y Hin. rewrite Hs1. by apply H2. }
    destruct ((left <? rc_left r) && (right >? rc_left r)) eqn:Hc1.
    { intros H.
      destruct (AddDirtyBlocks fuel start left top (rc_left r) bottom blocks)
        as [blocks1 |] eqn:E1; [| done]. simpl in H.
      apply (AddDirtyBlocks_halves (mk_rect left top right bottom)
               (mk_rect left top (rc_left r) bottom) (mk_rect (rc_left r) top right bottom)
               start blocks blocks1 res);
        [| done | done | done
         | intros; by apply (IH _ _ _ _ _ _ _ E1)
         | intros; by apply (IH _ _ _ _ _ _ _ H)].
      intros x y. bool_props. apply halves_in_rect; simpl; lia. }
    destruct ((right >? rc_right r) && (left <? rc_right r)) eqn:Hc2.
    { intros H.
      destruct (AddDirtyBlocks fuel start left top (rc_right r) bottom blocks)
        as [blocks1 |] eqn:E1; [| done]. simpl in H.
      apply (AddDirtyBlocks_halves (mk_rect left top right bottom)
               (mk_rect left top (rc_right r) bottom) (mk_rect (rc_right r) top right bottom)
               start blocks blocks1 res);
        [| done | done | done
         | intros; by apply (IH _ _ _ _ _ _ _ E1)
         | intros; by apply (IH _ _ _ _ _ _ _ H)].
      intros x y. bool_props. apply halves_in_rect; simpl; lia. }
    destruct ((top <? rc_top r) && (bottom >? rc_top r)) eqn:Hc3.
    { intros H.
      destruct (AddDirtyBlocks fuel start left top right (rc_top r) blocks)
        as [blocks1 |] eqn:E1; [| done]. simpl in H.
      apply (AddDirtyBlocks_halves (mk_rect left top right bottom)
               (mk_rect left top right (rc_top r)) (mk_rect left (rc_top r) right bottom)
               start blocks blocks1 res);
        [| done | done | done
         | intros; by apply (IH _ _ _ _ _ _ _ E1)
         | intros; by apply (IH _ _ _ _ _ _ _ H)].
      intros x y. bool_props. apply halves_in_rect; simpl; lia. }
    destruct ((bottom >? rc_bottom r) && (top <? rc_bottom r)) eqn:Hc4.
    { intros H.
      destruct (AddDirtyBlocks fuel start left top right (rc_bottom r) blocks)
        as [blocks1 |] eqn:E1; [| done]. simpl in H.
      apply (AddDirtyBlocks_halves (mk_rect left top right bottom)
               (mk_rect left top right (rc_bottom r)) (mk_rect left (rc_bottom r) right bottom)
               start blocks blocks1 res);
        [| done | done | done
         | intros; by apply (IH _ _ _ _ _ _ _ E1)
         | intros; by apply (IH _ _ _ _ _ _ _ H)].
      intros x y. bool_props. apply halves_in_rect; simpl; lia. }
    intros H. apply Hnext; [done |]. intros x y Hin.
    apply in_rect_true in Hin. simpl in Hin. apply in_rect_false.
    (* touching, yet neither inside nor around nor cut: no pixel in common *)
    clear Hnext H IH IHloop H2 H1.
    rewrite ?Z.geb_leb, ?Z.gtb_ltb in *.
    rewrite ?andb_false_iff, ?andb_true_iff, ?Z.leb_le, ?Z.leb_gt, ?Z.ltb_lt, ?Z.ltb_ge
      in Htouch, Hinside, Hcontains, Hc1, Hc2, Hc3, Hc4.
    lia.
Qed.

Lemma swap_remove_length (start : nat) (blocks : list Rect) :
  (start < length blocks)%nat →
  length (swap_remove start blocks) = (length blocks - 1)%nat.
Proof.
  intros Hlt. destruct (lookup_lt_is_Some_2 _ _ Hlt) as [r Hr].
  by destruct (swap_remove_spec _ _ _ Hr) as (_ & ? & _).
Qed.

(** Two calls in a row need the larger of the two amounts of fuel. *)
Lemma AddDirtyBlocks_then (start : nat) (l1 t1 r1 b1 l2 t2 r2 b2 : Z) (blocks : list Rect) :
  (∀ blocks, ∃ fuel res, AddDirtyBlocks fuel start l1 t1 r1 b1 blocks = Some res) →
  (∀ blocks, ∃ fuel res, AddDirtyBlocks fuel start l2 t2 r2 b2 blocks = Some res) →
  ∃ fuel res,
    (blocks ← AddDirtyBlocks fuel start l1 t1 r1 b1 blocks;
     AddDirtyBlocks fuel start l2 t2 r2 b2 blocks) = Some res.
Proof.
  intros H1 H2. destruct (H1 blocks) as (f1 & blocks1 & E1).
  destruct (H2 blocks1) as (f2 & res & E2).
  exists (f1 `max` f2)%nat, res.
  rewrite (proj1 (AddDirtyBlocks_fuel_mono f1) _ _ _ _ _ _ _ _ (Nat.le_max_l f1 f2) E1).
  simpl.
  exact (proj1 (AddDirtyBlocks_fuel_mono f2) _ _ _ _ _ _ _ _ (Nat.le_max_r f1 f2) E2).
Qed.

Lemma AddDirtyBlocks_terminates (n : nat) :
  ∀ left top right bottom,
    (Z.to_nat (right - left) + Z.to_nat (bottom - top) < n)%nat →
    ∀ start blocks, ∃ fuel res,
      AddDirtyBlocks fuel start left top right bottom blocks = Some res.
Proof.
  induction n as [| n IHn]; intros left top right bottom Hn; [lia |].
  assert (Hloop : ∀ k start blocks, (length blocks - start ≤ k)%nat →
            ∃ fuel res, AddDirtyBlocks_loop fuel start left top right bottom blocks = Some res).
  { induction k as [| k IHk]; intros start blocks Hk.
    - exists 1%nat. simpl. rewrite (lookup_ge_None_2 blocks start) by lia. eauto.
    - destruct (blocks !! start) as [r |] eqn:Hr.
      2: { exists 1%nat. simpl. rewrite Hr. eauto. }
      pose proof (lookup_lt_Some _ _ _ Hr) as Hlt.
      assert (Hnext : ∃ fuel res,
                AddDirtyBlocks_loop fuel (S start) left top right bottom blocks = Some res).
      { apply IHk. lia. }
      assert (Hstep : ∀ body : nat → option (list Rect),
                (∃ fuel res, body fuel = Some res) →
                (∀ fuel, AddDirtyBlocks_loop (S fuel) start left top right bottom blocks
                         = body fuel) →
                ∃ fuel res,
                  AddDirtyBlocks_loop fuel start left top right bottom blocks = Some res).
      { intros body (fuel & res & E) Hbody. exists (S fuel), res. by rewrite Hbody. }
      destruct ((left <=? rc_right r) && (right >=? rc_left r) &&
                (top <=? rc_bottom r) && (bottom >=? rc_top r)) eqn:Htouch.
      2: { eapply Hstep; [exact Hnext |]. intros fuel. simpl. by rewrite Hr, Htouch. }
      destruct ((left >=? rc_left r) && (right <=? rc_right r) &&
                (top >=? rc_top r) && (bottom <=? rc_bottom r)) eqn:Hinside.
      { exists 1%nat. simpl. rewrite Hr, Htouch, Hinside. eauto. }
      destruct ((left <=? rc_left r) && (right >=? rc_right r) &&
                (top <=? rc_top r) && (bottom >=? rc_bottom r)) eqn:Hcontains.
      { eapply Hstep.
        - apply (IHk start (swap_remove start blocks)).
          rewrite swap_remove_length by done. lia.
        - intros fuel. simpl. by rewrite Hr, Htouch, Hinside, Hcontains. }
      destruct ((left <? rc_left r) && (right >? rc_left r)) eqn:Hc1.
      { eapply Hstep.
        - apply (AddDirtyBlocks_then start left top (rc_left r) bottom
                   (rc_left r) top right bottom blocks);
            intros blocks'; apply IHn; bool_props; lia.
        - intros fuel. simpl. by rewrite Hr, Htouch, Hinside, Hcontains, Hc1. }
      destruct ((right >? rc_right r) && (left <? rc_right r)) eqn:Hc2.
      { eapply Hstep.
        - apply (AddDirtyBlocks_then start left top (rc_right r) bottom
                   (rc_right r) top right bottom blocks);
            intros blocks'; apply IHn; bool_props; lia.
        - intros fuel. simpl. by rewrite Hr, Htouch, Hinside, Hcontains, Hc1, Hc2. }
      destruct ((top <? rc_top r) && (bottom >? rc_top r)) eqn:Hc3.
      { eapply Hstep.
        - apply (AddDirtyBlocks_then start left top right (rc_top r)
                   left (rc_top r) right bottom blocks);
            intros blocks'; apply IHn; bool_props; lia.
        - intros fuel. simpl. by rewrite Hr, Htouch, Hinside, Hcontains, Hc1, Hc2, Hc3. }
      destruct ((bottom >? rc_bottom r) && (top <? rc_bottom r)) eqn:Hc4.
      { eapply Hstep.
        - apply (AddDirtyBlocks_then start left top right (rc_bottom r)
                   left (rc_bottom r) right bottom blocks);
            intros blocks'; apply IHn; bool_props; lia.
        - intros fuel. simpl.
          by rewrite Hr, Htouch, Hinside, Hcontains, Hc1, Hc2, Hc3, Hc4. }
      eapply Hstep; [exact Hnext |]. intros fuel. simpl.
      by rewrite Hr, Htouch, Hinside, Hcontains, Hc1, Hc2, Hc3, Hc4. }
  intros start blocks.
  destruct (Hloop (length blocks - start)%nat start blocks) as (fuel & res & E); [done |].
  destruct ((bottom <=? top) || (right <=? left)) eqn:Hempty.
  - exists 1%nat. simpl. rewrite Hempty. eauto.
  - exists (S fuel), res. simpl. by rewrite Hempty.
Qed.

(** X24. Adding a rectangle from the index [start] on returns: the rectangles
    before [start] are left alone, no two rectangles overlap afterwards,
    and a pixel is covered afterwards when it lies in the rectangle or was
    covered before. *)
Theorem AddDirtyBlocks_adds_rectangle
    (start : nat) (left top right bottom : Z) (blocks : list Rect) :
  (start ≤ length blocks)%nat →
  no_overlap blocks →
  (∀ x y, in_rect x y (mk_rect left top right bottom) = true →
          covering x y (take start blocks) = 0%nat) →
  ∃ fuel res,
    (∀ fuel', (fuel ≤ fuel')%nat →
              AddDirtyBlocks fuel' start left top right bottom blocks = Some res) ∧
    take start res = take start blocks ∧
    no_overlap res ∧
    ∀ x y, covering x y res =
           if in_rect x y (mk_rect left top right bottom) then 1%nat
           else covering x y blocks.
Proof.
  intros H0 H1 H2.
  destruct (AddDirtyBlocks_terminates
              (S (Z.to_nat (right - left) + Z.to_nat (bottom - top)))
              left top right bottom (Nat.lt_succ_diag_r _) start blocks)
    as (fuel & res & E).
  destruct (proj1 (AddDirtyBlocks_sound fuel) _ _ _ _ _ _ _ E H0 H1 H2) as [Hpre Hcov].
  exists fuel, res. split; [| split; [done | split; [| done]]].
  - intros fuel' Hle. by apply (proj1 (AddDirtyBlocks_fuel_mono fuel) fuel').
  - intros x y. rewrite Hcov. destruct (in_rect _ _ _); [done | apply H1].
Qed.

(** X25. While the whole screen is not dirty, [SetDirtyBlocks] returns, keeps
    the rectangles free of overlap, and leaves covered the pixels that were
    covered and the pixels of the rectangle that lie on the screen. *)
Theorem SetDirtyBlocks_marks_rectangle_on_screen
    (screen_width screen_height : Z) (left top right bottom : Z) (blocks : list Rect) :
  no_overlap blocks →
  ∃ fuel res,
    (∀ fuel', (fuel ≤ fuel')%nat →
              SetDirtyBlocks fuel' false screen_width screen_height
                left top right bottom blocks = Some res) ∧
    no_overlap res ∧
    ∀ x y, covering x y res =
           if in_rect x y (mk_rect left top right bottom) &&
              (0 <=? x) && (x <? screen_width) && (0 <=? y) && (y <? screen_height)
           then 1%nat
           else covering x y blocks.
Proof.
  intros H1. unfold SetDirtyBlocks.
  set (left' := if left <? 0 then 0 else left).
  set (top' := if top <? 0 then 0 else top).
  set (right' := if right >? screen_width then screen_width else right).
  set (bottom' := if bottom >? screen_height then screen_height else bottom).
  destruct (AddDirtyBlocks_terminates
              (S (Z.to_nat (right' - left') + Z.to_nat (bottom' - top')))
              left' top' right' bottom' (Nat.lt_succ_diag_r _) 0%nat blocks)
    as (fuel & res & E).
  destruct (proj1 (AddDirtyBlocks_sound fuel) _ _ _ _ _ _ _ E) as [_ Hcov];
    [lia | done | done |].
  assert (Hclip : ∀ x y,
            in_rect x y (mk_rect left' top' right' bottom') =
            in_rect x y (mk_rect left top right bottom) &&
            (0 <=? x) && (x <? screen_width) && (0 <=? y) && (y <? screen_height)).
  { intros x y. unfold in_rect, left', top', right', bottom'. simpl.
    rewrite !Z.gtb_ltb.
    destruct (Z.ltb_spec left 0), (Z.ltb_spec top 0),
      (Z.ltb_spec screen_width right), (Z.ltb_spec screen_height bottom),
      (Z.leb_spec left x), (Z.ltb_spec x right), (Z.leb_spec top y), (Z.ltb_spec y bottom),
      (Z.leb_spec 0 x), (Z.ltb_spec x screen_width), (Z.leb_spec 0 y),
      (Z.ltb_spec y screen_height); simpl; try reflexivity; lia. }
  exists fuel, res. split; [| split].
  - intros fuel' Hle. by apply (proj1 (AddDirtyBlocks_fuel_mono fuel) fuel').
  - intros x y. rewrite Hcov. destruct (in_rect _ _ _); [done | apply H1].
  - intros x y. by rewrite Hcov, Hclip.
Qed.

Lemma covering_sum (x y : Z) (blocks : list Rect) :
  covering x y blocks = sum_list_with (λ r, if in_rect x y r then 1%nat else 0%nat) blocks.
Proof.
  induction blocks as [| r blocks IH]; [done |].
  rewrite covering_cons, IH. done.
Qed.

Lemma swap_remove_sum (f : Rect → nat) (start : nat) (blocks : list Rect) (r : Rect) :
  blocks !! start = Some r →
  (sum_list_with f (drop start (swap_remove start blocks)) + f r)%nat =
  sum_list_with f (drop start blocks).
Proof.
  intros Hr. unfold swap_remove.
  destruct (last blocks) as [b |] eqn:Hlast.
  2: { apply last_None in Hlast. subst blocks. by rewrite lookup_nil in Hr. }
  apply last_Some in Hlast as [l' ->].
  rewrite length_app. simpl. replace (length l' + 1 - 1)%nat with (length l') by lia.
  destruct (decide (start < length l')%nat) as [Hlt | Hge].
  - rewrite insert_app_l by done.
    rewrite take_app_length'. 2: { by rewrite length_insert. }
    rewrite lookup_app_l in Hr by done.
    rewrite insert_take_drop by done.
    rewrite drop_app_length'. 2: { rewrite length_take. lia. }
    rewrite drop_app_le by lia.
    rewrite (drop_S _ _ _ Hr). simpl. rewrite sum_list_with_app. simpl. lia.
  - assert (start = length l') as ->.
    { apply lookup_lt_Some in Hr. rewrite length_app in Hr. simpl in Hr. lia. }
    rewrite insert_app_r_alt by lia. rewrite Nat.sub_diag. simpl.
    rewrite take_app_length.
    rewrite lookup_app_r in Hr by lia. rewrite Nat.sub_diag in Hr. injection Hr as ->.
    rewrite drop_app_length, drop_all. simpl. lia.
Qed.

Lemma UnsetDirtyBlocks_loop_fuel_mono (fuel : nat) :
  ∀ fuel' i left top right bottom blocks res,
    (fuel ≤ fuel')%nat →
    UnsetDirtyBlocks_loop fuel i left top right bottom blocks = Some res →
    UnsetDirtyBlocks_loop fuel' i left top right bottom blocks = Some res.
Proof.
  induction fuel as [| fuel IH]; [done |].
  intros fuel' i left top right bottom blocks res Hle H.
  destruct fuel' as [| fuel']; [lia |]. simpl in H |- *.
  destruct (blocks !! i) as [r |]; [| done].
  revert H. split_ifs; intros H; apply IH; (lia || done).
Qed.

Lemma sides_outside_pos (left top right bottom : Z) (r : Rect) :
  (1 ≤ sides_outside left top right bottom r)%nat.
Proof. unfold sides_outside. lia. Qed.

Lemma UnsetDirtyBlocks_loop_terminates (fuel : nat) :
  ∀ i left top right bottom blocks,
    (sum_list_with (sides_outside left top right bottom) (drop i blocks) < fuel)%nat →
    ∃ res, UnsetDirtyBlocks_loop fuel i left top right bottom blocks = Some res.
Proof.
  induction fuel as [| fuel IH]; intros i left top right bottom blocks Hlt; [lia |].
  simpl. destruct (blocks !! i) as [r |] eqn:Hr; [| eauto].
  pose proof (lookup_lt_Some _ _ _ Hr) as Hi.
  assert (Hnext : ∃ res,
            UnsetDirtyBlocks_loop fuel (S i) left top right bottom blocks = Some res).
  { apply IH. rewrite (drop_S _ _ _ Hr) in Hlt. cbn [sum_list_with] in Hlt.
    pose proof (sides_outside_pos left top right bottom r). lia. }
  assert (Hsplit : ∀ r' n,
            (sides_outside left top right bottom n <
             sides_outside left top right bottom r)%nat →
            ∃ res, UnsetDirtyBlocks_loop fuel (S i) left top right bottom
                     (<[i := r']> blocks ++ [n]) = Some res).
  { intros r' n Hn. apply IH.
    rewrite drop_app_le. 2: { rewrite length_insert. lia. }
    rewrite drop_insert_lt by lia.
    rewrite sum_list_with_app. cbn [sum_list_with].
    rewrite (drop_S _ _ _ Hr) in Hlt. cbn [sum_list_with] in Hlt. lia. }
  split_ifs; try done.
  - apply IH. pose proof (swap_remove_sum (sides_outside left top right bottom) _ _ _ Hr).
    pose proof (sides_outside_pos left top right bottom r). lia.
  - apply Hsplit. unfold sides_outside. simpl. rewrite Z.ltb_irrefl.
    destruct (rc_left r <? left); [lia | done].
  - apply Hsplit. unfold sides_outside. simpl. rewrite Z.gtb_ltb, Z.ltb_irrefl.
    destruct (rc_right r >? right); [lia | done].
  - apply Hsplit. unfold sides_outside. simpl. rewrite Z.ltb_irrefl.
    destruct (rc_top r <? top); [lia | done].
  - apply Hsplit. unfold sides_outside. simpl. rewrite (Z.gtb_ltb bottom), Z.ltb_irrefl.
    destruct (rc_bottom r >? bottom); [lia | done].
Qed.

(** A rectangle cut in two: a pixel of it lies in exactly one half. *)
Lemma halves_count (R A B : Rect) (x y : Z) :
  (rc_left A = rc_left R ∧ rc_right B = rc_right R ∧ rc_right A = rc_left B ∧
   rc_left R ≤ rc_right A ≤ rc_right R ∧
   rc_top A = rc_top R ∧ rc_top B = rc_top R ∧
   rc_bottom A = rc_bottom R ∧ rc_bottom B = rc_bottom R) ∨
  (rc_top A = rc_top R ∧ rc_bottom B = rc_bottom R ∧ rc_bottom A = rc_top B ∧
   rc_top R ≤ rc_bottom A ≤ rc_bottom R ∧
   rc_left A = rc_left R ∧ rc_left B = rc_left R ∧
   rc_right A = rc_right R ∧ rc_right B = rc_right R) →
  ((if in_rect x y A then 1 else 0) + (if in_rect x y B then 1 else 0))%nat =
  (if in_rect x y R then 1 else 0)%nat.
Proof.
  intros H.
  destruct (in_rect x y R) eqn:HR, (in_rect x y A) eqn:HA, (in_rect x y B) eqn:HB;
    try done;
    repeat match goal with
           | H : in_rect _ _ _ = true |- _ => apply in_rect_true in H
           | H : in_rect _ _ _ = false |- _ => apply in_rect_false in H
           end; lia.
Qed.

Lemma UnsetDirtyBlocks_loop_sound (fuel : nat) :
  ∀ i left top right bottom blocks res,
    UnsetDirtyBlocks_loop fuel i left top right bottom blocks = Some res →
    (i ≤ length blocks)%nat →
    (∀ x y, in_rect x y (mk_rect left top right bottom) = true →
            covering x y (take i blocks) = 0%nat) →
    ∀ x y, covering x y res =
           if in_rect x y (mk_rect left top right bottom) then 0%nat
           else covering x y blocks.
Proof.
  induction fuel as [| fuel IH]; [done |].
  intros i left top right bottom blocks res H H0 H2. simpl in H.
  destruct (blocks !! i) as [r |] eqn:Hr.
  2: { injection H as <-. apply lookup_ge_None in Hr. intros x y.
       destruct (in_rect x y (mk_rect left top right bottom)) eqn:Hin; [| done].
       apply H2 in Hin. by rewrite take_ge in Hin by lia. }
  pose proof (lookup_lt_Some _ _ _ Hr) as Hi.
  assert (Hnext :
    UnsetDirtyBlocks_loop fuel (S i) left top right bottom blocks = Some res →
    (∀ x y, in_rect x y (mk_rect left top right bottom) = true → in_rect x y r = false) →
    ∀ x y, covering x y res =
           if in_rect x y (mk_rect left top right bottom) then 0%nat
           else covering x y blocks).
  { intros H' Hdisj. apply (IH _ _ _ _ _ _ _ H'); [lia |].
    intros x y Hin. rewrite (take_S_r _ _ _ Hr), covering_app, covering_cons, covering_nil.
    rewrite (H2 _ _ Hin), (Hdisj _ _ Hin). done. }
  assert (Hsplit : ∀ r' n,
    UnsetDirtyBlocks_loop fuel (S i) left top right bottom
      (<[i := r']> blocks ++ [n]) = Some res →
    (∀ x y, ((if in_rect x y r' then 1 else 0) + (if in_rect x y n then 1 else 0))%nat =
            (if in_rect x y r then 1 else 0)%nat) →
    (∀ x y, in_rect x y (mk_rect left top right bottom) = true → in_rect x y r' = false) →
    ∀ x y, covering x y res =
           if in_rect x y (mk_rect left top right bottom) then 0%nat
           else covering x y blocks).
  { intros r' n H' Hcut Hdisj x y.
    rewrite (IH _ _ _ _ _ _ _ H').
    - destruct (in_rect x y (mk_rect left top right bottom)); [done |].
      rewrite covering_app, covering_cons, covering_nil.
      rewrite insert_take_drop by done.
      rewrite covering_app, covering_cons, (covering_lookup x y blocks i r Hr).
      specialize (Hcut x y). lia.
    - rewrite length_app, length_insert. simpl. lia.
    - intros x' y' Hin.
      rewrite take_app_le. 2: { rewrite length_insert. lia. }
      rewrite (take_S_r _ _ r') by (by apply list_lookup_insert_eq).
      rewrite take_insert_ge by lia.
      rewrite covering_app, covering_cons, covering_nil.
      rewrite (H2 _ _ Hin), (Hdisj _ _ Hin). done. }
  revert H.
  destruct ((left <? rc_right r) && (right >? rc_left r) &&
            (top <? rc_bottom r) && (bottom >? rc_top r)) eqn:Hover.
  2: { intros H. apply Hnext; [done |]. intros x y Hin.
       apply in_rect_true in Hin. simpl in Hin. apply in_rect_false.
       rewrite ?Z.gtb_ltb in Hover.
       rewrite ?andb_false_iff, ?Z.ltb_ge in Hover. lia. }
  destruct ((left <=? rc_left r) && (right >=? rc_right r) &&
            (top <=? rc_top r) && (bottom >=? rc_bottom r)) eqn:Hin_area.
  { intros H x y. destruct (swap_remove_spec _ _ _ Hr) as (Hs1 & Hs2 & Hs3).
    rewrite (IH _ _ _ _ _ _ _ H).
    - destruct (in_rect x y (mk_rect left top right bottom)) eqn:Hin; [done |].
      assert (in_rect x y r = false) as Hinr.
      { apply in_rect_false in Hin. simpl in Hin. apply in_rect_false. bool_props. lia. }
      specialize (Hs3 x y). rewrite Hinr in Hs3. lia.
    - lia.
    - intros x' y' Hin. rewrite Hs1. by apply H2. }
  bool_props.
  destruct (rc_left r <? left) eqn:Hc1.
  { intros Hrun. eapply Hsplit; [exact Hrun | |].
    - intros x y. apply halves_count. simpl. bool_props. lia.
    - intros x y Hin. apply in_rect_true in Hin. simpl in Hin. apply in_rect_false.
      simpl. lia. }
  destruct (rc_right r >? right) eqn:Hc2.
  { intros Hrun. eapply Hsplit; [exact Hrun | |].
    - intros x y. rewrite Nat.add_comm. apply halves_count. simpl. bool_props. lia.
    - intros x y Hin. apply in_rect_true in Hin. simpl in Hin. apply in_rect_false.
      simpl. lia. }
  destruct (rc_top r <? top) eqn:Hc3.
  { intros Hrun. eapply Hsplit; [exact Hrun | |].
    - intros x y. apply halves_count. simpl. bool_props. lia.
    - intros x y Hin. apply in_rect_true in Hin. simpl in Hin. apply in_rect_false.
      simpl. lia. }
  destruct (rc_bottom r >? bottom) eqn:Hc4.
  { intros Hrun. eapply Hsplit; [exact Hrun | |].
    - intros x y. rewrite Nat.add_comm. apply halves_count. simpl. bool_props. lia.
    - intros x y Hin. apply in_rect_true in Hin. simpl in Hin. apply in_rect_false.
      simpl. lia. }
  intros Hrun. apply Hnext; [done |]. intros x y Hin.
  rewrite ?Z.geb_leb, ?Z.gtb_ltb in *.
  rewrite ?andb_false_iff, ?Z.leb_gt, ?Z.ltb_ge in Hin_area, Hc1, Hc2, Hc3, Hc4. lia.
Qed.

Lemma sides_outside_sum_bound (left top right bottom : Z) (blocks : list Rect) :
  (sum_list_with (sides_outside left top right bottom) blocks ≤ 5 * length blocks)%nat.
Proof.
  induction blocks as [| r blocks IH]; [simpl; lia |].
  cbn [sum_list_with length]. unfold sides_outside at 1.
  destruct (rc_left r <? left), (rc_right r >? right), (rc_top r <? top),
    (rc_bottom r >? bottom); lia.
Qed.

(** X26. While the whole screen is not dirty, [UnsetDirtyBlocks] returns after
    at most five rounds of its loop for each rectangle, and takes the
    pixels of the area out of the rectangles and no others: a pixel of the
    area lies in no rectangle afterwards, another pixel in as many as
    before. *)
Theorem UnsetDirtyBlocks_takes_area_out
    (left top right bottom : Z) (blocks : list Rect) :
  ∃ res,
    (∀ fuel, (5 * length blocks < fuel)%nat →
             UnsetDirtyBlocks fuel false left top right bottom blocks = Some res) ∧
    ∀ x y, covering x y res =
           if in_rect x y (mk_rect left top right bottom) then 0%nat
           else covering x y blocks.
Proof.
  unfold UnsetDirtyBlocks.
  destruct (UnsetDirtyBlocks_loop_terminates (S (5 * length blocks)) 0
              left top right bottom blocks) as [res E].
  { rewrite drop_0. pose proof (sides_outside_sum_bound left top right bottom blocks). lia. }
  exists res. split.
  - intros fuel Hlt. apply (UnsetDirtyBlocks_loop_fuel_mono (S (5 * length blocks))); [lia | exact E].
  - apply (UnsetDirtyBlocks_loop_sound _ _ _ _ _ _ _ _ E); [lia | done].
Qed.

(** ** The animated cursor *)

Section AnimatedCursorFacts.

Variable LAST : Z.
Variable PAL_NONE : Z.
Variable GetMaxSpriteID : Z.
Variable capacity : nat.
Variable sprite_rect : Z → Point → Point * Point.

Local Abbreviation SetCursorSprite' := (SetCursorSprite GetMaxSpriteID capacity sprite_rect).
Local Abbreviation SwitchAnimatedCursor' :=
  (SwitchAnimatedCursor LAST GetMaxSpriteID capacity sprite_rect).
Local Abbreviation CursorTick' := (CursorTick LAST GetMaxSpriteID capacity sprite_rect).
Local Abbreviation CursorTicks' := (CursorTicks LAST GetMaxSpriteID capacity sprite_rect).
Local Abbreviation SetMouseCursor' := (SetMouseCursor GetMaxSpriteID capacity sprite_rect).
Local Abbreviation SetAnimatedMouseCursor' :=
  (SetAnimatedMouseCursor LAST PAL_NONE GetMaxSpriteID capacity sprite_rect).
Local Abbreviation animation' := (animation LAST).
Local Abbreviation showing' := (showing PAL_NONE).

Lemma SetCursorSprite_Some (c : CursorSprites) (cursor pal : Z) :
  (1 ≤ capacity)%nat →
  ∃ c', SetCursorSprite' c cursor pal = Some c' ∧
        cs_sprite c' = cursor ∧ cs_pal c' = pal ∧ cs_sprite_count c' = 1%nat ∧
        cs_animate_list c' = cs_animate_list c ∧ cs_animate_cur c' = cs_animate_cur c ∧
        cs_animate_timeout c' = cs_animate_timeout c.
Proof.
  intros Hcap. unfold SetCursorSprite'.
  destruct ((cs_sprite_count c =? 1)%nat && (cs_sprite c =? cursor) && (cs_pal c =? pal))
    eqn:Hsame.
  - apply andb_true_iff in Hsame as [Hsame Hpal].
    apply andb_true_iff in Hsame as [Hcount Hsprite].
    apply Nat.eqb_eq in Hcount. apply Z.eqb_eq in Hsprite, Hpal.
    exists c. done.
  - unfold UpdateCursorSize. destruct (GetMaxSpriteID =? 0); simpl.
    + eexists. split; [done |]. done.
    + destruct (capacity <? 1)%nat eqn:Hlt; [apply Nat.ltb_lt in Hlt; lia |].
      simpl. eexists. split; [done |]. done.
Qed.

Lemma animation_lookup (entries table : list AnimCursor) (i : nat) :
  animation' entries table →
  (∀ e, entries !! i = Some e →
        table !! i = Some e ∧ ac_sprite e ≠ LAST ∧ 0 < ac_display_time e) ∧
  (i = length entries → ∃ last, table !! i = Some last ∧ ac_sprite last = LAST) ∧
  (0 < length entries)%nat.
Proof.
  intros (Hne & Hall & last & rest & Hlast & ->). split; [| split].
  - intros e He. split; [by apply lookup_app_l_Some |].
    by apply (Forall_lookup_1 _ _ _ _ Hall He).
  - intros ->. exists last. split; [| done].
    rewrite lookup_app_r by lia. by rewrite Nat.sub_diag.
  - destruct entries; [done | simpl; lia].
Qed.

(** What [SwitchAnimatedCursor] does once [cur] is settled on the entry
    [j]. *)
Lemma SwitchAnimatedCursor_shows (entries table : list AnimCursor) (c : CursorSprites)
    (j : nat) (e : AnimCursor) :
  animation' entries table → (1 ≤ capacity)%nat →
  cs_animate_list c = table → cs_pal c = PAL_NONE →
  entries !! j = Some e →
  (cs_animate_cur c = None ∧ j = 0%nat ∨
   (∃ i, cs_animate_cur c = Some i ∧
         (i = j ∨ (i = length entries ∧ j = 0%nat)))) →
  ∃ c', SwitchAnimatedCursor' c = Some c' ∧ showing' entries table c' j (ac_display_time e).
Proof.
  intros Hanim Hcap Hlist Hpal He Hcur.
  destruct (proj1 (animation_lookup entries table j Hanim) e He) as (Hte & Hsprite & Htime).
  unfold SwitchAnimatedCursor'. rewrite Hlist.
  assert (Hgo : ∃ c',
    (e ← table !! j;
     c0 ← SetCursorSprite' c (ac_sprite e) (cs_pal c);
     Some (set_animate_cur (set_animate_timeout c0 (ac_display_time e)) (Some (S j))))
    = Some c' ∧ showing' entries table c' j (ac_display_time e)).
  { rewrite Hte. simpl.
    destruct (SetCursorSprite_Some c (ac_sprite e) (cs_pal c) Hcap)
      as (c0 & -> & Hs & Hp & Hc & Hl & _).
    simpl. eexists. split; [done |].
    unfold showing'. simpl. repeat split; try congruence.
    exists e. repeat split; try done; lia. }
  destruct Hcur as [[-> ->] | (i & -> & [-> | [-> ->]])]; simpl.
  - exact Hgo.
  - rewrite Hte. simpl. destruct (Z.eqb_spec (ac_sprite e) LAST); [done |]. exact Hgo.
  - destruct (proj1 (proj2 (animation_lookup entries table (length entries) Hanim)) eq_refl)
      as (last & -> & Hlast).
    simpl. rewrite Hlast, Z.eqb_refl. exact Hgo.
Qed.

(** [SetAnimatedMouseCursor] shows the first entry of the animation, for
    its display time. *)
Lemma SetAnimatedMouseCursor_shows_first (entries table : list AnimCursor)
    (c : CursorSprites) :
  animation' entries table → (1 ≤ capacity)%nat →
  ∃ c' e, SetAnimatedMouseCursor' c table = Some c' ∧ entries !! 0%nat = Some e ∧
          showing' entries table c' 0 (ac_display_time e).
Proof.
  intros Hanim Hcap.
  destruct (entries !! 0%nat) as [e |] eqn:He.
  2: { apply lookup_ge_None in He.
       pose proof (proj2 (proj2 (animation_lookup entries table 0 Hanim))). lia. }
  destruct (SwitchAnimatedCursor_shows entries table
              {| cs_sprite_count := cs_sprite_count c; cs_sprite := cs_sprite c;
                 cs_pal := PAL_NONE; cs_sprite_pos := cs_sprite_pos c;
                 cs_total := cs_total c; cs_dirty := cs_dirty c;
                 cs_animate_list := table; cs_animate_cur := None;
                 cs_animate_timeout := cs_animate_timeout c |} 0 e)
    as (c' & Hc' & Hshow); try done; [by left |].
  by exists c', e.
Qed.

(** One call of [CursorTick] while an entry is shown. *)
Lemma CursorTick_step (entries table : list AnimCursor) (c : CursorSprites)
    (i : nat) (t : Z) :
  animation' entries table → (1 ≤ capacity)%nat →
  showing' entries table c i t →
  ∃ c', CursorTick' c = Some c' ∧
        if t =? 1 then
          ∃ e, entries !! (S i mod length entries)%nat = Some e ∧
               showing' entries table c' (S i mod length entries) (ac_display_time e)
        else showing' entries table c' i (t - 1).
Proof.
  intros Hanim Hcap (Hlist & Hcur & Htime & Hcount & Hpal & e & He & Hsprite & Ht).
  pose proof (lookup_lt_Some _ _ _ He) as Hi.
  unfold CursorTick'. rewrite Htime.
  destruct (Z.eqb_spec t 0) as [-> | _]; [lia |]. simpl.
  destruct (Z.eqb_spec t 1) as [-> | Hne].
  - simpl.
    assert (∃ e', entries !! (S i mod length entries)%nat = Some e') as [e' He'].
    { apply lookup_lt_is_Some_2. apply Nat.mod_upper_bound. lia. }
    destruct (SwitchAnimatedCursor_shows entries table (set_animate_timeout c 0)
                (S i mod length entries) e') as (c' & Hc' & Hshow); try done.
    + right. exists (S i). split; [done |].
      destruct (decide (S i = length entries)) as [Hend | Hmid].
      * right. rewrite Hend, Nat.Div0.mod_same. done.
      * left. rewrite Nat.mod_small by lia. done.
    + exists c'. split; [done |]. by exists e'.
  - destruct (Z.eqb_spec (t - 1) 0); [lia |].
    eexists. split; [done |]. unfold showing'. simpl.
    repeat split; try done. exists e. repeat split; try done; lia.
Qed.

Lemma CursorTicks_add (n m : nat) (c : CursorSprites) :
  CursorTicks' (n + m) c = (c ← CursorTicks' n c; CursorTicks' m c).
Proof.
  revert c. induction n as [| n IH]; intros c; [done |]. simpl.
  destruct (CursorTick' c) as [c1 |]; simpl; [apply IH | done].
Qed.

(** X27. While an entry of an animation is shown with [t] calls to go, the
    first [t - 1] calls of [CursorTick] leave it shown and count down; the
    call after them shows the next entry, the first one after the last, for
    its whole display time. *)
Theorem CursorTick_plays_animation (entries table : list AnimCursor) (c : CursorSprites)
    (i : nat) (t : Z) :
  animation' entries table → (1 ≤ capacity)%nat →
  showing' entries table c i t →
  (∀ k : nat, Z.of_nat k < t →
     ∃ c', CursorTicks' k c = Some c' ∧ showing' entries table c' i (t - Z.of_nat k)) ∧
  ∃ c' e, CursorTicks' (Z.to_nat t) c = Some c' ∧
          entries !! (S i mod length entries)%nat = Some e ∧
          showing' entries table c' (S i mod length entries) (ac_display_time e).
Proof.
  intros Hanim Hcap Hshow.
  assert (Hcount : ∀ k : nat, Z.of_nat k < t →
            ∃ c', CursorTicks' k c = Some c' ∧ showing' entries table c' i (t - Z.of_nat k)).
  { induction k as [| k IH]; intros Hk.
    - exists c. split; [done |]. by rewrite Z.sub_0_r.
    - destruct IH as (ck & Hck & Hshowk); [lia |].
      destruct (CursorTick_step entries table ck i (t - Z.of_nat k) Hanim Hcap Hshowk)
        as (c' & Hc' & Hnext).
      destruct (Z.eqb_spec (t - Z.of_nat k) 1); [lia |].
      exists c'. split.
      + replace (S k) with (k + 1)%nat by lia. rewrite CursorTicks_add, Hck. simpl.
        by rewrite Hc'.
      + by replace (t - Z.of_nat (S k)) with (t - Z.of_nat k - 1) by lia. }
  split; [exact Hcount |].
  assert (1 <= t) as Ht.
  { destruct Hshow as (_ & _ & _ & _ & _ & e & _ & _ & Ht). lia. }
  destruct (Hcount (Z.to_nat (t - 1))) as (ck & Hck & Hshowk); [lia |].
  replace (t - Z.of_nat (Z.to_nat (t - 1))) with 1 in Hshowk by lia.
  destruct (CursorTick_step entries table ck i 1 Hanim Hcap Hshowk) as (c' & Hc' & Hnext).
  simpl in Hnext. destruct Hnext as (e & He & Hshow').
  exists c', e. split; [| done].
  replace (Z.to_nat t) with (Z.to_nat (t - 1) + 1)%nat by lia.
  rewrite CursorTicks_add, Hck. simpl. by rewrite Hc'.
Qed.

Lemma CursorTicks_showing (entries table : list AnimCursor) (n : nat) :
  ∀ (c : CursorSprites) (i : nat) (t : Z),
    animation' entries table → (1 ≤ capacity)%nat →
    showing' entries table c i t →
    ∃ c' i' t', CursorTicks' n c = Some c' ∧ showing' entries table c' i' t'.
Proof.
  induction n as [| n IH]; intros c i t Hanim Hcap Hshow.
  - exists c, i, t. done.
  - destruct (CursorTick_step entries table c i t Hanim Hcap Hshow) as (c1 & Hc1 & Hnext).
    simpl. rewrite Hc1. simpl.
    destruct (t =? 1).
    + destruct Hnext as (e & _ & Hshow1). by eapply IH.
    + by eapply IH.
Qed.

(** X28. [SetAnimatedMouseCursor] with an animation shows its first entry, and
    after any number of calls of [CursorTick] an entry of the animation is
    shown: the entry that ends the table is never shown, nothing is read
    behind it, and the animation does not stop. *)
Theorem SetAnimatedMouseCursor_keeps_showing (entries table : list AnimCursor)
    (c : CursorSprites) (n : nat) :
  animation' entries table → (1 ≤ capacity)%nat →
  ∃ c0 e0, SetAnimatedMouseCursor' c table = Some c0 ∧ entries !! 0%nat = Some e0 ∧
           showing' entries table c0 0 (ac_display_time e0) ∧
           ∃ c' i t, CursorTicks' n c0 = Some c' ∧ showing' entries table c' i t.
Proof.
  intros Hanim Hcap.
  destruct (SetAnimatedMouseCursor_shows_first entries table c Hanim Hcap)
    as (c0 & e0 & Hc0 & He0 & Hshow0).
  exists c0, e0. split; [done |]. split; [done |]. split; [done |].
  by apply (CursorTicks_showing entries table n c0 0 (ac_display_time e0)).
Qed.

(** X29. [SetMouseCursor] shows the sprite with the palette given and ends the
    animation: calls of [CursorTick] change nothing afterwards. *)
Theorem SetMouseCursor_stops_animation (c : CursorSprites) (sprite pal : Z) (n : nat) :
  (1 ≤ capacity)%nat →
  ∃ c', SetMouseCursor' c sprite pal = Some c' ∧
        cs_sprite c' = sprite ∧ cs_pal c' = pal ∧ cs_sprite_count c' = 1%nat ∧
        CursorTicks' n c' = Some c'.
Proof.
  intros Hcap. unfold SetMouseCursor'.
  destruct (SetCursorSprite_Some (set_animate_timeout c 0) sprite pal Hcap)
    as (c' & Hc' & Hs & Hp & Hc & _ & _ & Ht).
  exists c'. repeat split; try done.
  simpl in Ht. induction n as [| n IH]; [done |].
  simpl. unfold CursorTick'. rewrite Ht. simpl. exact IH.
Qed.

End AnimatedCursorFacts.

(** * The properties at concrete inputs *)

Section Examples.

Local Existing Instance Z_types.

Example MakeSuccessWithMessage_ex_error_7 :
  MakeSuccessWithMessage ex_error_7 = Some ex_warning_7.
Proof. reflexivity. Qed.

Lemma AddCost_cmd_cost_sums_or_fails_witness :
  (Failed ex_cost_100 = false ∧ Failed ex_cost_20 = false ∧
   GetCost (AddCost_cmd_cost ex_cost_100 ex_cost_20) = 120 ∧
   GetExpensesType (AddCost_cmd_cost ex_cost_100 ex_cost_20) = 3) ∧
  (Failed ex_error_7 = true ∧ Failed ex_error_9 = true ∧
   Failed (AddCost_cmd_cost ex_error_7 ex_error_9) = true ∧
   GetErrorMessage (AddCost_cmd_cost ex_error_7 ex_error_9) = 7) ∧
  (Failed ex_cost_100 = false ∧ Failed ex_error_9 = true ∧
   Failed (AddCost_cmd_cost ex_cost_100 ex_error_9) = true ∧
   GetErrorMessage (AddCost_cmd_cost ex_cost_100 ex_error_9) = 9).
Proof.
  assert (H100 : Failed ex_cost_100 = false) by reflexivity.
  assert (H20 : Failed ex_cost_20 = false) by reflexivity.
  assert (H7 : Failed ex_error_7 = true) by reflexivity.
  assert (H9 : Failed ex_error_9 = true) by reflexivity.
  split; [| split].
  - destruct (AddCost_cmd_cost_sums_or_fails ex_cost_100 ex_cost_20) as [H _].
    destruct (H H100 H20) as (Hc & He & _). repeat split; assumption.
  - destruct (AddCost_cmd_cost_sums_or_fails ex_error_7 ex_error_9) as (_ & H & _).
    destruct (H H7) as (Hf & Hm & _). repeat split; assumption.
  - destruct (AddCost_cmd_cost_sums_or_fails ex_cost_100 ex_error_9) as (_ & _ & H).
    destruct (H H100 H9) as (Hf & Hm & _). repeat split; assumption.
Defined.

(** C4, as stated, fails: [MakeError] on a success whose auxiliary block
    holds the result 42 and the tile 5 leaves the block in place, and the
    result and the tile can still be read from the failed value. *)
Lemma MakeError_keeps_auxiliary_payload :
  Succeeded ex_aux_payload = true ∧
  GetResultData ex_aux_payload = 42 ∧ GetTile ex_aux_payload = 5 ∧
  ∃ c', MakeError ex_aux_payload 11 = Some c' ∧
        Failed c' = true ∧ GetErrorMessage c' = 11 ∧
        GetResultData c' = 42 ∧ GetTile c' = 5 ∧ GetCost c' = 100 ∧
        aux_data c' ≠ None.
Proof.
  split; [reflexivity |]. split; [reflexivity |]. split; [reflexivity |].
  eexists. split; [reflexivity |]. repeat split; try reflexivity. discriminate.
Qed.

Lemma MakeError_forces_failure_witness :
  11 ≠ INVALID_STRING_ID ∧ Succeeded ex_cost_100 = true ∧
  GetExtraErrorMessage ex_dual = 6 ∧
  (∃ c', MakeError ex_cost_100 11 = Some c' ∧ Failed c' = true ∧ GetErrorMessage c' = 11) ∧
  (∃ c', MakeError ex_dual 11 = Some c' ∧ Failed c' = true ∧ GetErrorMessage c' = 11 ∧
         GetExtraErrorMessage c' = INVALID_STRING_ID).
Proof.
  assert (Hne : 11 ≠ INVALID_STRING_ID) by discriminate.
  split; [exact Hne |]. split; [reflexivity |]. split; [reflexivity |]. split.
  - destruct (MakeError_forces_failure ex_cost_100 11) as [H _].
    destruct (H Hne) as (c' & Hc & Hf & _ & Hm & _). exists c'. repeat split; assumption.
  - destruct (MakeError_forces_failure ex_dual 11) as [H _].
    destruct (H Hne) as (c' & Hc & Hf & _ & Hm & Hx & _). exists c'.
    repeat split; assumption.
Defined.

(** C5, as stated, fails: adding 5 to a failed value with cost 0 leaves a
    value whose cost is 5. *)
Lemma AddCost_on_failed_changes_cost :
  Failed ex_error_7 = true ∧ GetCost ex_error_7 = 0 ∧
  GetCost (AddCost ex_error_7 5) = 5 ∧ AddCost ex_error_7 5 ≠ ex_error_7.
Proof. repeat split; try reflexivity. discriminate. Qed.

Lemma AddCost_on_failed_witness :
  Failed ex_error_7 = true ∧ Failed (AddCost ex_error_7 5) = true ∧
  GetErrorMessage (AddCost ex_error_7 5) = 7 ∧ GetCost (AddCost ex_error_7 5) = 5.
Proof.
  assert (H7 : Failed ex_error_7 = true) by reflexivity.
  destruct (AddCost_on_failed ex_error_7 5 H7) as (Hf & Hm & _ & _ & _ & _ & _ & _ & Hc).
  repeat split; assumption.
Defined.

(** C3, as stated, fails: unwrapping the success with message 7 gives a
    failed value with error 7, not a plain success. *)
Lemma UnwrapSuccessWithMessage_not_plain_success :
  IsSuccessWithMessage ex_warning_7 = true ∧
  UnwrapSuccessWithMessage ex_warning_7 = Some ex_error_7 ∧
  Succeeded ex_error_7 = false ∧ IsPlainSuccess ex_error_7 = false ∧
  Failed ex_error_7 = true ∧ GetErrorMessage ex_error_7 = 7.
Proof. repeat split; reflexivity. Qed.

Lemma UnwrapSuccessWithMessage_clears_success_witness :
  (IsSuccessWithMessage ex_warning_7 = true ∧
   ∃ r, UnwrapSuccessWithMessage ex_warning_7 = Some r ∧ Failed r = true ∧
        GetErrorMessage r = 7) ∧
  (IsSuccessWithMessage ex_cost_100 = false ∧ UnwrapSuccessWithMessage ex_cost_100 = None) ∧
  (IsSuccessWithMessage ex_error_7 = false ∧ UnwrapSuccessWithMessage ex_error_7 = None).
Proof.
  assert (Hw : IsSuccessWithMessage ex_warning_7 = true) by reflexivity.
  assert (Hp : IsSuccessWithMessage ex_cost_100 = false) by reflexivity.
  assert (He : IsSuccessWithMessage ex_error_7 = false) by reflexivity.
  split; [| split].
  - split; [exact Hw |].
    destruct (UnwrapSuccessWithMessage_clears_success ex_warning_7) as [H _].
    destruct (H Hw) as (r & Hr & Hf & _ & _ & _ & Hm & _).
    exists r. repeat split; assumption.
  - split; [exact Hp |].
    exact (proj2 (UnwrapSuccessWithMessage_clears_success ex_cost_100) Hp).
  - split; [exact He |].
    exact (proj2 (UnwrapSuccessWithMessage_clears_success ex_error_7) He).
Defined.

Lemma success_hides_messages_witness :
  Succeeded ex_warning_7 = true ∧ message ex_warning_7 = 7 ∧
  GetErrorMessage ex_warning_7 = INVALID_STRING_ID ∧
  GetExtraErrorMessage ex_warning_7 = INVALID_STRING_ID ∧
  (∃ r, UnwrapSuccessWithMessage ex_warning_7 = Some r ∧ GetErrorMessage r = 7) ∧
  Failed ex_error_7 = true ∧ GetErrorMessage ex_error_7 = 7.
Proof.
  assert (Hs : Succeeded ex_warning_7 = true) by reflexivity.
  assert (Hw : IsSuccessWithMessage ex_warning_7 = true) by reflexivity.
  assert (H7 : Failed ex_error_7 = true) by reflexivity.
  destruct (success_hides_messages ex_warning_7) as (H1 & H2 & _).
  destruct (H1 Hs) as [He Hx].
  destruct (H2 Hw) as (_ & _ & _ & r & Hr & Hm).
  split; [exact Hs |]. split; [reflexivity |]. split; [exact He |]. split; [exact Hx |].
  split; [exists r; split; assumption |].
  split; [exact H7 |].
  exact (proj2 (proj2 (success_hides_messages ex_error_7)) H7).
Defined.

Lemma command_id_fits_one_byte_witness :
  let fl := Z.lor CMD_NETWORK_COMMAND CMD_NO_SHIFT_ESTIMATE in
  Z.land fl CMD_FLAGS_MASK = fl ∧
  command_word CMD_RENAME_COMPANY fl 0x1234 = 0x12340341 ∧
  Z.land 0x12340341 CMD_ID_MASK = Commands_value CMD_RENAME_COMPANY ∧
  Z.land 0x12340341 CMD_FLAGS_MASK = fl.
Proof.
  intros fl.
  assert (Hfl : Z.land fl CMD_FLAGS_MASK = fl) by reflexivity.
  destruct command_id_fits_one_byte as (_ & _ & _ & _ & H & _).
  destruct (H CMD_RENAME_COMPANY fl 0x1234 Hfl) as [Hid Hflags].
  split; [exact Hfl |]. split; [reflexivity |]. split; assumption.
Defined.

Lemma SetName_too_long_fails_before_dispatch_witness :
  32 <= ex_length (GetDecodedText ex_long_name) ∧
  (∀ valid returns,
     snd (SetName valid ex_nonempty ex_length 32 returns (Some ex_long_name)) = false ∧
     calls_DoCommand (SetName valid ex_nonempty ex_length 32 returns (Some ex_long_name))
     = false) ∧
  (∀ returns,
     SetName true ex_nonempty ex_length 32 returns (Some ex_long_name)
     = ([EvSetLastError ERR_PRECONDITION_STRING_TOO_LONG], false)).
Proof.
  assert (Hlen : 32 <= ex_length (GetDecodedText ex_long_name)) by (vm_compute; discriminate).
  split; [exact Hlen |]. split.
  - intros valid returns.
    destruct (SetName_too_long_fails_before_dispatch valid ex_nonempty ex_length 32 returns
                ex_long_name Hlen) as (Hr & Hc & _).
    split; assumption.
  - intros returns.
    destruct (SetName_too_long_fails_before_dispatch true ex_nonempty ex_length 32 returns
                ex_long_name Hlen) as (_ & _ & H).
    exact (proj1 (H eq_refl eq_refl)).
Defined.

Lemma CommandAuxiliaryPtr_copy_is_deep_witness :
  deep_clone (@Clone_by_new string) ∧ ex_heap !! 1%positive = Some "payload" ∧
  CommandAuxiliaryPtr_copy Clone_by_new None ex_heap = (None, ex_heap) ∧
  ∃ l', l' ≠ 1%positive ∧
        CommandAuxiliaryPtr_copy Clone_by_new (Some 1%positive) ex_heap
        = (Some l', <[l' := "payload"]> ex_heap) ∧
        <[l' := "changed"]> (<[l' := "payload"]> ex_heap) !! 1%positive = Some "payload".
Proof.
  assert (H1 : ex_heap !! 1%positive = Some "payload") by apply lookup_singleton_eq.
  destruct (CommandAuxiliaryPtr_copy_is_deep Clone_by_new Clone_by_new_deep ex_heap)
    as [(Hnull & _) Hlive].
  destruct (Hlive 1%positive "payload" H1) as (l' & Hne & _ & Hcopy & Hind & _).
  destruct Hind as (_ & _ & Hw & _).
  split; [exact Clone_by_new_deep |]. split; [exact H1 |]. split; [exact Hnull |].
  exists l'. split; [exact Hne |]. split; [exact Hcopy |]. exact (Hw "changed").
Defined.

End Examples.

Section GfxExamples.

Lemma FillDrawPixelInfo_intersects_witness :
  FillDrawPixelInfo 0 ex_MoveTo ex_dpi ex_dpi 5 30 20 100
  = Some (true, {| dst_ptr := (0, 10); dpi_left := 5; dpi_top := 0; dpi_width := 15;
                   dpi_height := 40; dpi_pitch := 640; dpi_zoom := 0 |}) ∧
  (∃ n', FillDrawPixelInfo 0 ex_MoveTo ex_dpi ex_dpi 200 30 20 100 = Some (false, n')) ∧
  FillDrawPixelInfo 0 ex_MoveTo ex_dpi ex_dpi 5 30 0 100 = None.
Proof.
  split; [| split].
  - destruct (FillDrawPixelInfo_intersects 0 ex_MoveTo ex_dpi ex_dpi 5 30 20 100)
      as [H _].
    destruct (H ltac:(lia) ltac:(lia)) as [Hyes _].
    exact (Hyes ltac:(vm_compute; reflexivity) ltac:(vm_compute; reflexivity)).
  - destruct (FillDrawPixelInfo_intersects 0 ex_MoveTo ex_dpi ex_dpi 200 30 20 100)
      as [H _].
    destruct (H ltac:(lia) ltac:(lia)) as [_ Hno].
    apply Hno. intros [Hx _]. vm_compute in Hx. discriminate.
  - destruct (FillDrawPixelInfo_intersects 0 ex_MoveTo ex_dpi ex_dpi 5 30 0 100)
      as [_ H].
    apply H. left. lia.
Defined.

Lemma GfxFillRect_draws_the_overlap_witness :
  GfxFillRect 0 ex_MoveTo ex_GB 24 ex_dpi 0 0 50 30 0x1FF FILLRECT_OPAQUE
  = Some [DrawRect (0, 0) 41 11 0xFF] ∧
  GfxFillRect 0 ex_MoveTo ex_GB 24 ex_dpi 0 0 50 30 0x1FF FILLRECT_RECOLOUR
  = Some [DrawColourMappingRect (0, 0) 41 11 0x1FF] ∧
  GfxFillRect 0 ex_MoveTo ex_GB 24 ex_dpi 0 0 5 30 0x1FF FILLRECT_OPAQUE = Some [].
Proof.
  destruct (GfxFillRect_draws_the_overlap 0 ex_MoveTo ex_GB 24 ex_dpi 0 0 50 30 0x1FF
              FILLRECT_OPAQUE ltac:(simpl; lia) ltac:(simpl; lia)) as (_ & _ & H1).
  destruct (GfxFillRect_draws_the_overlap 0 ex_MoveTo ex_GB 24 ex_dpi 0 0 50 30 0x1FF
              FILLRECT_RECOLOUR ltac:(simpl; lia) ltac:(simpl; lia)) as (_ & _ & H2).
  destruct (GfxFillRect_draws_the_overlap 0 ex_MoveTo ex_GB 24 ex_dpi 0 0 5 30 0x1FF
              FILLRECT_OPAQUE ltac:(simpl; lia) ltac:(simpl; lia)) as (_ & H3 & _).
  split; [| split].
  - apply (H1 eq_refl ltac:(vm_compute; discriminate) ltac:(vm_compute; discriminate)).
    by left.
  - by apply (H2 eq_refl ltac:(vm_compute; discriminate) ltac:(vm_compute; discriminate)).
  - apply H3. right. left. vm_compute. reflexivity.
Defined.

(** With a clipping area of no width, a rectangle across it makes the
    assertion fail. *)
Example GfxFillRect_empty_dpi :
  GfxFillRect 0 ex_MoveTo ex_GB 24
    {| dst_ptr := (0, 0); dpi_left := 10; dpi_top := 20; dpi_width := 0; dpi_height := 50;
       dpi_pitch := 640; dpi_zoom := 0 |} 5 25 15 30 0 FILLRECT_OPAQUE = None.
Proof. reflexivity. Qed.

Lemma GfxFillRect_checker_pattern_witness :
  GfxFillRect 0 ex_MoveTo ex_GB 24 ex_dpi 9 20 12 21 7 FILLRECT_CHECKER
  = Some [SetPixel (0, 0) 0 0 7; SetPixel (0, 0) 2 0 7; SetPixel (0, 1) 1 0 7] ∧
  GfxFillRect 0 ex_MoveTo ex_GB 24 ex_dpi 10 20 12 21 7 FILLRECT_CHECKER
  = Some [SetPixel (0, 0) 1 0 7; SetPixel (0, 1) 0 0 7; SetPixel (0, 1) 2 0 7].
Proof.
  split.
  - exact (GfxFillRect_checker_pattern 0 ex_MoveTo ex_GB 24 ex_dpi 9 20 12 21 7
             ltac:(simpl; lia) ltac:(simpl; lia) eq_refl
             ltac:(vm_compute; discriminate) ltac:(vm_compute; discriminate)).
  - exact (GfxFillRect_checker_pattern 0 ex_MoveTo ex_GB 24 ex_dpi 10 20 12 21 7
             ltac:(simpl; lia) ltac:(simpl; lia) eq_refl
             ltac:(vm_compute; discriminate) ltac:(vm_compute; discriminate)).
Defined.

Lemma GfxPreprocessLine_rejects_outside_witness :
  GfxPreprocessLine ex_dpi 0 0 5 100 1 = (false, (-10, -20, -5, 80)) ∧
  fst (GfxPreprocessLine ex_dpi 0 0 50 40 3) = true ∧
  GfxPreprocessLine ex_dpi 11 30 11 40 (-5) = (false, (1, 10, 1, 20)).
Proof.
  destruct (GfxPreprocessLine_rejects_outside ex_dpi 0 0 5 100 1)
    as (Hc & _ & _ & Hrej & _).
  destruct (GfxPreprocessLine_rejects_outside ex_dpi 0 0 50 40 3)
    as (_ & _ & _ & _ & Hin).
  destruct (GfxPreprocessLine_rejects_outside ex_dpi 11 30 11 40 (-5))
    as (Hc' & Hiff & _).
  split; [| split].
  - rewrite (surjective_pairing (GfxPreprocessLine ex_dpi 0 0 5 100 1)), Hc.
    rewrite Hrej; [reflexivity | lia | left; simpl; lia].
  - apply Hin; [lia |]. right. simpl. lia.
  - rewrite (surjective_pairing (GfxPreprocessLine ex_dpi 11 30 11 40 (-5))), Hc'.
    rewrite (proj2 Hiff); [reflexivity |]. left. split; vm_compute; reflexivity.
Defined.

Lemma MakePolygonSegments_lowest_first_witness :
  MakePolygonSegments ex_triangle {| pt_x := 1; pt_y := 1 |}
  = [ ({| pt_x := -1; pt_y := -1 |}, {| pt_x := 1; pt_y := 2 |});
      ({| pt_x := 3; pt_y := -1 |}, {| pt_x := 1; pt_y := 2 |}) ] ∧
  Forall (λ s, pt_y (fst s) < pt_y (snd s))
    (MakePolygonSegments ex_triangle {| pt_x := 1; pt_y := 1 |}) ∧
  MakePolygonSegments (take 2 ex_triangle) {| pt_x := 1; pt_y := 1 |} = [] ∧
  MakePolygonSegments (replicate 5 {| pt_x := 1; pt_y := 7 |}) {| pt_x := 1; pt_y := 1 |} = [].
Proof.
  split; [reflexivity |]. split; [| split].
  - exact (proj1 (MakePolygonSegments_lowest_first ex_triangle {| pt_x := 1; pt_y := 1 |})).
  - destruct (MakePolygonSegments_lowest_first (take 2 ex_triangle)
                {| pt_x := 1; pt_y := 1 |}) as (_ & _ & Hfew & _).
    apply Hfew. simpl. lia.
  - destruct (MakePolygonSegments_lowest_first (replicate 5 {| pt_x := 1; pt_y := 7 |})
                {| pt_x := 1; pt_y := 1 |}) as (_ & _ & _ & Hflat).
    apply (Hflat 7). repeat constructor.
Defined.

Lemma LoadStringWidthTable_caches_glyph_widths_witness :
  let glyph (fs key : Z) := 300 + fs + key in
  let t := LoadStringWidthTable 0 3 4 glyph false (λ _ _, 0) in
  GetCharacterWidth glyph t 1 65 = 110 ∧ t 3 33 = 0 ∧
  GetCharacterWidth glyph (LoadStringWidthTable 0 3 4 glyph true t) 3 65 = 112.
Proof.
  intros glyph t.
  destruct (LoadStringWidthTable_caches_glyph_widths 0 3 4 glyph false (λ _ _, 0) 1)
    as [H1 _].
  destruct (LoadStringWidthTable_caches_glyph_widths 0 3 4 glyph false (λ _ _, 0) 3)
    as [_ H2].
  destruct (LoadStringWidthTable_caches_glyph_widths 0 3 4 glyph true t 3) as [H3 _].
  split; [| split].
  - exact (H1 ltac:(simpl; lia) 65).
  - exact (H2 ltac:(simpl; lia) 33).
  - exact (H3 ltac:(simpl; lia) 65).
Defined.

Lemma GetBroadestDigit_widest_witness :
  let glyph (fs key : Z) := 0 in
  GetBroadestDigit glyph ex_widths 0 0 0 = (8, 8) ∧
  GetCharacterWidth glyph ex_widths 0 56 = 7 ∧
  GetDigitWidth glyph ex_widths 0 = 7.
Proof.
  intros glyph.
  assert (Hbyte : ∀ i, 0 <= ex_widths 0 i < 256).
  { intros i. unfold ex_widths. pose proof (Z.mod_pos_bound (i - 16) 3). lia. }
  destruct (GetBroadestDigit_widest glyph ex_widths 0 0 0 Hbyte) as (_ & _ & _ & _ & _ & H).
  split; [reflexivity |]. split; [reflexivity |]. rewrite <- H. reflexivity.
Defined.

Lemma UpdateCursorPositionRelative_stays_on_screen_witness :
  clamps Clamp_cmp ∧
  cv_pos (UpdateCursorPositionRelative Clamp_cmp 640 480 ex_cursor 20 5)
  = {| pt_x := 639; pt_y := 15 |} ∧
  cv_delta (UpdateCursorPositionRelative Clamp_cmp 640 480 ex_cursor 20 5)
  = {| pt_x := -9; pt_y := -5 |} ∧
  cv_pos (UpdateCursorPositionRelative Clamp_cmp 640 480 ex_cursor_fixed 20 5)
  = {| pt_x := 630; pt_y := 10 |}.
Proof.
  split; [exact Clamp_cmp_clamps |].
  destruct (UpdateCursorPositionRelative_stays_on_screen Clamp_cmp 640 480 ex_cursor 20 5
              Clamp_cmp_clamps ltac:(lia) ltac:(lia)) as [_ H].
  destruct (UpdateCursorPositionRelative_stays_on_screen Clamp_cmp 640 480 ex_cursor_fixed
              20 5 Clamp_cmp_clamps ltac:(lia) ltac:(lia)) as [Hfix _].
  destruct (H eq_refl) as (_ & _ & _ & _ & _ & _ & Hy).
  destruct (Hy ltac:(simpl; lia)) as [Hpy Hdy].
  split; [reflexivity |]. split; [reflexivity |].
  exact (proj1 (Hfix eq_refl)).
Defined.

Lemma UpdateCursorPosition_warps_when_fixed_witness :
  fst (UpdateCursorPosition ex_cursor_fixed 635 10 true) = true ∧
  cv_pos (snd (UpdateCursorPosition ex_cursor_fixed 635 10 true))
  = {| pt_x := 630; pt_y := 10 |} ∧
  cv_pos (snd (UpdateCursorPosition ex_cursor 635 10 true)) = {| pt_x := 635; pt_y := 10 |} ∧
  fst (UpdateCursorPosition ex_cursor_fixed 630 10 true) = false.
Proof.
  destruct (UpdateCursorPosition_warps_when_fixed ex_cursor_fixed 635 10 true)
    as (_ & _ & Hw & _ & Hfix & _).
  destruct (UpdateCursorPosition_warps_when_fixed ex_cursor 635 10 true)
    as (_ & _ & _ & _ & _ & Hfree & _).
  destruct (UpdateCursorPosition_warps_when_fixed ex_cursor_fixed 630 10 true)
    as (_ & _ & _ & _ & _ & _ & Hsame).
  split; [| split; [| split]].
  - apply Hw. split; [reflexivity |]. left. simpl. lia.
  - exact (proj1 (Hfix eq_refl)).
  - exact (proj1 (Hfree eq_refl)).
  - exact (proj1 (proj2 (Hsame eq_refl eq_refl))).
Defined.

Lemma GetContrastColour_threshold_witness :
  GetContrastColour ex_palette 12 16 100 128 = 12 ∧
  GetContrastColour ex_palette 12 16 100 200 = 12 ∧
  GetContrastColour ex_palette 12 16 0 1 = 12 ∧
  GetContrastColour ex_palette 12 16 255 255 = 16.
Proof.
  assert (Hne : (12 : Z) ≠ 16) by discriminate.
  destruct (GetContrastColour_threshold ex_palette 12 16 100 128 200 Hne ltac:(lia))
    as (_ & _ & Hmono & _).
  destruct (GetContrastColour_threshold ex_palette 12 16 0 1 1 Hne ltac:(lia))
    as (_ & _ & _ & Hblack & _).
  destruct (GetContrastColour_threshold ex_palette 12 16 255 255 255 Hne ltac:(lia))
    as (_ & _ & _ & _ & Hwhite).
  split; [reflexivity |]. split; [exact (Hmono eq_refl) |].
  split; [exact (Hblack eq_refl ltac:(lia)) | exact (Hwhite eq_refl ltac:(lia))].
Defined.

Lemma UpdateCursorSize_covers_sprites_witness :
  UpdateCursorSize 100 16 ex_sprites ({| pt_x := 0; pt_y := 0 |}, {| pt_x := 0; pt_y := 0 |})
    false
  = Some (({| pt_x := -3; pt_y := -5 |}, {| pt_x := 15; pt_y := 15 |}), true) ∧
  (∃ total', UpdateCursorSize 100 16 ex_sprites
               ({| pt_x := 0; pt_y := 0 |}, {| pt_x := 0; pt_y := 0 |}) false
             = Some (total', true) ∧ Forall (λ r, rect_inside r total') ex_sprites) ∧
  UpdateCursorSize 100 1 ex_sprites ({| pt_x := 0; pt_y := 0 |}, {| pt_x := 0; pt_y := 0 |})
    false = None.
Proof.
  destruct (UpdateCursorSize_covers_sprites 100 16 ex_sprites
              ({| pt_x := 0; pt_y := 0 |}, {| pt_x := 0; pt_y := 0 |}) false)
    as (_ & _ & H).
  destruct (UpdateCursorSize_covers_sprites 100 1 ex_sprites
              ({| pt_x := 0; pt_y := 0 |}, {| pt_x := 0; pt_y := 0 |}) false)
    as (_ & Hnone & _).
  split; [reflexivity |]. split.
  - destruct (H ltac:(discriminate) ltac:(simpl; lia)) as (total' & Heq & _ & Hin).
    exists total'. split; assumption.
  - apply Hnone; [discriminate | simpl; lia].
Defined.

End GfxExamples.

Section MoreExamples.

Local Existing Instance Z_types.

Lemma MakeError_keeps_result_and_tile_witness :
  GetResultData ex_result_42 = 42 ∧
  ∃ c', MakeError ex_result_42 11 = Some c' ∧ GetResultData c' = 42 ∧ GetCost c' = 100.
Proof.
  split; [reflexivity |]. eexists. split; [reflexivity |].
  destruct (MakeError_keeps_result_and_tile ex_result_42 _ 11 eq_refl) as (Hr & _ & Hc & _).
  split; [exact Hr | exact Hc].
Defined.

Lemma DoCommand_container_masks_witness :
  DoCommand_container (λ tile p1 p2 p3 flags cmd text aux, (tile, p3, cmd, text))
    ex_container DC_EXEC = (7, 3, 65, Some "name").
Proof.
  exact (DoCommand_container_masks (λ tile p1 p2 p3 flags cmd text aux, (tile, p3, cmd, text))
           ex_container DC_EXEC CMD_RENAME_COMPANY
           (Z.lor CMD_NETWORK_COMMAND CMD_NO_SHIFT_ESTIMATE) 0x1234 eq_refl eq_refl).
Defined.

Lemma MakeSuccessWithMessage_Unwrap_inverse_witness :
  (∃ s, MakeSuccessWithMessage ex_error_7 = Some s ∧
        UnwrapSuccessWithMessage s = Some ex_error_7) ∧
  (∃ r, UnwrapSuccessWithMessage ex_warning_7 = Some r ∧
        MakeSuccessWithMessage r = Some ex_warning_7) ∧
  MakeSuccessWithMessage CMD_ERROR = None.
Proof.
  destruct (MakeSuccessWithMessage_Unwrap_inverse ex_error_7
              ltac:(cbv; split; [discriminate | reflexivity]))
    as (H1 & _ & _).
  destruct (MakeSuccessWithMessage_Unwrap_inverse ex_warning_7
              ltac:(cbv; split; [discriminate | reflexivity]))
    as (_ & H2 & _).
  destruct (MakeSuccessWithMessage_Unwrap_inverse CMD_ERROR
              ltac:(cbv; split; [discriminate | reflexivity]))
    as (_ & _ & H3).
  split; [| split].
  - destruct (H1 eq_refl ltac:(discriminate)) as (s & Hs & _ & _ & Hu). by exists s.
  - exact (H2 eq_refl).
  - exact (H3 eq_refl).
Defined.

Lemma command_word_message_witness :
  Z.shiftr 0x12340341 16 = 0x1234 ∧
  Z.land (CMD_MSG 0x1234) (Z.lor CMD_ID_MASK CMD_FLAGS_MASK) = 0 ∧
  Z.shiftr (command_word CMD_RENAME_COMPANY CMD_NETWORK_COMMAND 0x12345) 16 = 0x2345.
Proof.
  destruct (command_word_message CMD_RENAME_COMPANY
              (Z.lor CMD_NETWORK_COMMAND CMD_NO_SHIFT_ESTIMATE) 0x1234 eq_refl)
    as (H1 & _ & _ & H4).
  destruct (command_word_message CMD_RENAME_COMPANY CMD_NETWORK_COMMAND 0x12345 eq_refl)
    as (_ & _ & H3 & _).
  split; [exact (H4 ltac:(lia)) |]. split; [exact H1 | exact H3].
Defined.

Lemma Command_constructors_keep_flags_witness :
  let fl := Z.lor (Z.lor CMD_SERVER CMD_PROCEX) CMD_NO_TEST in
  cmdflags_and (cmd_flags (Command_of_proc ex_proc "CmdPause" fl CMDT_SERVER_SETTING))
    CMD_SERVER = CMD_SERVER ∧
  cmdflags_and (cmd_flags (Command_of_procex ex_procex "CmdPause" CMD_SERVER
                             CMDT_SERVER_SETTING)) CMD_DEITY = 0.
Proof.
  intros fl.
  assert (Hs : CMD_SERVER ∈ CommandFlags_but_PROCEX) by (apply elem_of_cons; by left).
  assert (Hd : CMD_DEITY ∈ CommandFlags_but_PROCEX)
    by (unfold CommandFlags_but_PROCEX; do 8 (apply elem_of_cons; right);
        apply elem_of_cons; by left).
  destruct (Command_constructors_keep_flags ex_proc ex_procex "CmdPause" fl
              CMDT_SERVER_SETTING CMD_SERVER Hs) as (H1 & _).
  destruct (Command_constructors_keep_flags ex_proc ex_procex "CmdPause" CMD_SERVER
              CMDT_SERVER_SETTING CMD_DEITY Hd) as (_ & H2 & _).
  split; [exact H1 | exact H2].
Defined.

Lemma ScriptCompany_setters_need_company_mode_witness :
  SetName false ex_nonempty ex_length 32 ex_returns (Some ex_short_name)
  = ([EvSetLastError ERR_PRECONDITION_INVALID_COMPANY], false) ∧
  SetAutoRenewMonths false ex_returns Clamp_cmp 6
  = ([EvSetLastError ERR_PRECONDITION_INVALID_COMPANY], false).
Proof.
  destruct (ScriptCompany_setters_need_company_mode (E := Z_types) false ex_nonempty ex_length 32 32
              ex_returns Clamp_cmp (λ m : Z, m) (Some ex_short_name) true 6 0 eq_refl)
    as (H1 & _ & _ & H4 & _).
  split; [exact H1 | exact H4].
Defined.

Lemma SetAutoRenewMonths_clamps_witness :
  fst (SetAutoRenewMonths true ex_returns Clamp_cmp 100000)
  = [EvDoCommand 0 0 32767 CMD_CHANGE_COMPANY_SETTING "company.engine_renew_months"] ∧
  fst (SetAutoRenewMonths true ex_returns Clamp_cmp (-6))
  = [EvDoCommand 0 0 4294967290 CMD_CHANGE_COMPANY_SETTING
       "company.engine_renew_months"] ∧
  ∃ p2, fst (SetAutoRenewMonths true ex_returns Clamp_cmp (-6))
        = [EvDoCommand 0 0 p2 CMD_CHANGE_COMPANY_SETTING "company.engine_renew_months"] ∧
        to_int32 p2 = -6.
Proof.
  split; [reflexivity |]. split; [reflexivity |].
  destruct (SetAutoRenewMonths_clamps true ex_returns Clamp_cmp (-6) Clamp_cmp_clamps eq_refl)
    as (p2 & Heq & _ & _ & Hid).
  exists p2. split; [by rewrite Heq | apply Hid; unfold INT16_MIN, INT16_MAX; lia].
Defined.

Lemma SetAutoRenewMoney_range_witness :
  fst (SetAutoRenewMoney (E := Z_types) true ex_returns (λ m : Z, m) 5000)
  = [EvDoCommand 0 0 5000 CMD_CHANGE_COMPANY_SETTING "company.engine_renew_money"] ∧
  SetAutoRenewMoney (E := Z_types) true ex_returns (λ m : Z, m) (-1)
  = ([EvSetLastError ERR_PRECONDITION_FAILED], false) ∧
  SetAutoRenewMoney (E := Z_types) true ex_returns (λ m : Z, m) 4294967296
  = ([EvSetLastError ERR_PRECONDITION_FAILED], false).
Proof.
  destruct (SetAutoRenewMoney_range (E := Z_types) true ex_returns (λ m : Z, m) 5000 eq_refl) as [H1 _].
  destruct (SetAutoRenewMoney_range (E := Z_types) true ex_returns (λ m : Z, m) (-1) eq_refl) as [_ H2].
  destruct (SetAutoRenewMoney_range (E := Z_types) true ex_returns (λ m : Z, m) 4294967296 eq_refl)
    as [_ H3].
  split; [| split].
  - rewrite H1; [reflexivity | unfold UINT32_MAX; lia].
  - apply H2. lia.
  - apply H3. unfold UINT32_MAX. lia.
Defined.

Lemma SetPresidentName_checks_length_witness :
  SetPresidentName true ex_nonempty ex_length 32 ex_returns (Some ex_long_name)
  = ([EvSetLastError ERR_PRECONDITION_STRING_TOO_LONG], false) ∧
  fst (SetPresidentName true ex_nonempty ex_length 32 ex_returns (Some ex_short_name))
  = [EvDoCommand 0 0 0 CMD_RENAME_PRESIDENT "Chairman"].
Proof.
  destruct (SetPresidentName_checks_length true ex_nonempty ex_length 32 ex_returns
              ex_long_name) as [Hlong _].
  destruct (SetPresidentName_checks_length true ex_nonempty ex_length 32 ex_returns
              ex_short_name) as [_ Hshort].
  split.
  - destruct (Hlong ltac:(vm_compute; discriminate)) as (_ & _ & H).
    exact (H eq_refl eq_refl).
  - rewrite (Hshort ltac:(vm_compute; reflexivity) eq_refl eq_refl). reflexivity.
Defined.

End MoreExamples.

Section DirtyBlockExamples.

Lemma ex_blocks_no_overlap : no_overlap ex_blocks.
Proof.
  intros x y. unfold ex_blocks. rewrite !covering_cons, covering_nil.
  destruct (in_rect x y (mk_rect 0 0 10 10)) eqn:H1,
    (in_rect x y (mk_rect 20 0 30 10)) eqn:H2; try (simpl; lia).
  apply in_rect_true in H1, H2. simpl in H1, H2. lia.
Qed.

Lemma AddDirtyBlocks_adds_rectangle_witness :
  ∃ fuel res,
    (∀ fuel', (fuel ≤ fuel')%nat → AddDirtyBlocks fuel' 0 5 5 25 8 ex_blocks = Some res) ∧
    take 0 res = take 0 ex_blocks ∧
    no_overlap res ∧
    ∀ x y, covering x y res =
           if in_rect x y (mk_rect 5 5 25 8) then 1%nat else covering x y ex_blocks.
Proof.
  apply (AddDirtyBlocks_adds_rectangle 0 5 5 25 8 ex_blocks).
  - simpl. lia.
  - exact ex_blocks_no_overlap.
  - intros x y _. reflexivity.
Defined.

Lemma SetDirtyBlocks_marks_rectangle_on_screen_witness :
  ∃ fuel res,
    (∀ fuel', (fuel ≤ fuel')%nat →
              SetDirtyBlocks fuel' false 640 480 (-5) (-5) 25 8 ex_blocks = Some res) ∧
    no_overlap res ∧
    ∀ x y, covering x y res =
           if in_rect x y (mk_rect (-5) (-5) 25 8) &&
              (0 <=? x) && (x <? 640) && (0 <=? y) && (y <? 480)
           then 1%nat
           else covering x y ex_blocks.
Proof.
  exact (SetDirtyBlocks_marks_rectangle_on_screen 640 480 (-5) (-5) 25 8 ex_blocks
           ex_blocks_no_overlap).
Defined.

Lemma UnsetDirtyBlocks_takes_area_out_witness :
  UnsetDirtyBlocks 11 false 5 2 8 8 ex_blocks
  = Some [mk_rect 0 0 5 10; mk_rect 20 0 30 10; mk_rect 8 0 10 10; mk_rect 5 0 8 2;
          mk_rect 5 8 8 10] ∧
  ∀ x y, covering x y [mk_rect 0 0 5 10; mk_rect 20 0 30 10; mk_rect 8 0 10 10;
                       mk_rect 5 0 8 2; mk_rect 5 8 8 10] =
         if in_rect x y (mk_rect 5 2 8 8) then 0%nat else covering x y ex_blocks.
Proof.
  destruct (UnsetDirtyBlocks_takes_area_out 5 2 8 8 ex_blocks) as (res & Hres & Hcov).
  assert (Hrun : UnsetDirtyBlocks 11 false 5 2 8 8 ex_blocks = Some res).
  { apply Hres. simpl. lia. }
  vm_compute in Hrun. injection Hrun as <-.
  split; [reflexivity | exact Hcov].
Defined.

End DirtyBlockExamples.

Section AnimatedCursorExamples.

Lemma ex_anim_table_animation : animation ex_LAST ex_anim_entries ex_anim_table.
Proof.
  split; [done |]. split.
  - repeat constructor; simpl; unfold ex_LAST; lia.
  - by exists {| ac_sprite := ex_LAST; ac_display_time := 0 |}, [].
Qed.

Lemma ex_cursor_animated_showing :
  showing 0 ex_anim_entries ex_anim_table ex_cursor_animated 0 2.
Proof.
  repeat split. exists {| ac_sprite := 10; ac_display_time := 2 |}.
  repeat split; simpl; lia.
Qed.

Lemma CursorTick_plays_animation_witness :
  (∃ c', CursorTicks ex_LAST 100 16 ex_sprite_rect 1 ex_cursor_animated = Some c' ∧
         showing 0 ex_anim_entries ex_anim_table c' 0 1) ∧
  ∃ c', CursorTicks ex_LAST 100 16 ex_sprite_rect 2 ex_cursor_animated = Some c' ∧
        showing 0 ex_anim_entries ex_anim_table c' 1 1.
Proof.
  destruct (CursorTick_plays_animation ex_LAST 0 100 16 ex_sprite_rect
              ex_anim_entries ex_anim_table ex_cursor_animated 0 2
              ex_anim_table_animation ltac:(lia) ex_cursor_animated_showing)
    as (Hcount & c' & e & Hc' & He & Hshow).
  split.
  - apply (Hcount 1%nat). lia.
  - exists c'. split; [exact Hc' |]. injection He as <-. exact Hshow.
Defined.

Lemma SetAnimatedMouseCursor_keeps_showing_witness :
  ∃ c0 e0,
    SetAnimatedMouseCursor ex_LAST 0 100 16 ex_sprite_rect ex_cursor_sprites ex_anim_table
    = Some c0 ∧
    ex_anim_entries !! 0%nat = Some e0 ∧
    showing 0 ex_anim_entries ex_anim_table c0 0 (ac_display_time e0) ∧
    ∃ c' i t, CursorTicks ex_LAST 100 16 ex_sprite_rect 7 c0 = Some c' ∧
              showing 0 ex_anim_entries ex_anim_table c' i t.
Proof.
  apply (SetAnimatedMouseCursor_keeps_showing ex_LAST 0 100 16 ex_sprite_rect
           ex_anim_entries ex_anim_table ex_cursor_sprites 7 ex_anim_table_animation).
  lia.
Defined.

Lemma SetMouseCursor_stops_animation_witness :
  ∃ c', SetMouseCursor 100 16 ex_sprite_rect ex_cursor_animated 1 0 = Some c' ∧
        cs_sprite c' = 1 ∧ cs_pal c' = 0 ∧ cs_sprite_count c' = 1%nat ∧
        CursorTicks ex_LAST 100 16 ex_sprite_rect 5 c' = Some c'.
Proof.
  apply (SetMouseCursor_stops_animation ex_LAST 100 16 ex_sprite_rect ex_cursor_animated
           1 0 5).
  lia.
Defined.

End AnimatedCursorExamples.
